(** * Tracking reconciliation engine: a shallow embedding and its properties

    The development follows the TypeScript sources of the tracking API:

    - [Js]               the few JavaScript string primitives the code relies on
                         ([String.prototype.includes], [String.prototype.trim]);
    - [Retry]            [shared/utils/retry.ts];
    - [Types]            [domain/types/TrackingTypes.ts];
    - [EventComparator]  [shared/utils/eventComparator.ts];
    - [TokenService]     [services/correiosTokenService.ts];
    - [Correios]         [services/correios.ts];
    - [Publisher]        [infrastructure/services/EmailEventPublisher.ts];
    - [Job]              [jobs/trackingJob.ts] together with
                         [application/use-cases/UpdateTrackingStatusUseCase.ts];
    - [CustomerCPF]      [domain/value-objects/CustomerCPF.ts];
    - [UpdateAllEvents]  the maintenance script [updateAllEvents];
    - [Logger]           [sanitizeContext] of [shared/utils/Logger.ts];
    - [Repository]       the pending set of
                         [infrastructure/repositories/DatabaseTrackingRepository.ts].

    Conventions.  JavaScript strings are Rocq strings holding the UTF-8
    encoding of the text; every pattern of the sources is valid UTF-8, so a
    byte-level substring test agrees with the code-unit test of the run time.
    JavaScript numbers that the code only uses as integers (attempt counters,
    delays in milliseconds, HTTP status codes, instants in milliseconds) are
    [Z].  An [async] function is a function into [Outcome]: [Return v] for a
    fulfilled promise, [Throw e] for a rejected one.  Everything that reaches
    the outside world (the carrier, the clock, the data base, the mail
    transport) is either an explicit oracle argument or an entry of an effect
    trace. *)

From Stdlib Require Import ZArith Lia Bool List Ascii String.
From stdpp Require Import base option list strings gmap pretty.
Import ListNotations.

Local Open Scope string_scope.
Local Open Scope Z_scope.

(* ===================================================================== *)
(** * JavaScript string primitives                                        *)
(* ===================================================================== *)

Module Js.

(** [dropPrefix p s] is [Some rest] when [s = p ++ rest]. *)
Fixpoint dropPrefix (p s : string) : option string :=
  match p with
  | EmptyString => Some s
  | String a p' =>
      match s with
      | EmptyString => None
      | String b s' => if Ascii.eqb a b then dropPrefix p' s' else None
      end
  end.

Definition startsWith (p s : string) : bool :=
  match dropPrefix p s with Some _ => true | None => false end.

(** [s.includes(pat)]: [pat] occurs somewhere in [s]. *)
Fixpoint includes (s pat : string) : bool :=
  startsWith pat s ||
  match s with
  | EmptyString => false
  | String _ s' => includes s' pat
  end.

Definition chr (n : nat) : string := String (ascii_of_nat n) EmptyString.
Definition chr2 (a b : nat) : string := String (ascii_of_nat a) (chr b).
Definition chr3 (a b c : nat) : string := String (ascii_of_nat a) (chr2 b c).

(** The WhiteSpace and LineTerminator code points of ECMAScript, in UTF-8:
    U+0009..U+000D, U+0020, U+00A0, U+1680, U+2000..U+200A, U+2028,
    U+2029, U+202F, U+205F, U+3000 and U+FEFF. *)
Definition whiteSpace : list string :=
  [ chr 9; chr 10; chr 11; chr 12; chr 13; chr 32;
    chr2 194 160; chr3 225 154 128;
    chr3 226 128 128; chr3 226 128 129; chr3 226 128 130; chr3 226 128 131;
    chr3 226 128 132; chr3 226 128 133; chr3 226 128 134; chr3 226 128 135;
    chr3 226 128 136; chr3 226 128 137; chr3 226 128 138;
    chr3 226 128 168; chr3 226 128 169; chr3 226 128 175;
    chr3 226 129 159; chr3 227 128 128; chr3 239 187 191 ]%nat.

Fixpoint firstSome {A B} (f : A -> option B) (l : list A) : option B :=
  match l with
  | [] => None
  | x :: l' => match f x with Some y => Some y | None => firstSome f l' end
  end.

Fixpoint stripLeading (ws : list string) (fuel : nat) (s : string) : string :=
  match fuel with
  | O => s
  | S fuel' =>
      match firstSome (fun w => dropPrefix w s) ws with
      | Some s' => stripLeading ws fuel' s'
      | None => s
      end
  end.

Definition revString (s : string) : string :=
  string_of_list_ascii (List.rev (list_ascii_of_string s)).

Definition trimStart (s : string) : string :=
  stripLeading whiteSpace (String.length s) s.

Definition trimEnd (s : string) : string :=
  revString (stripLeading (List.map revString whiteSpace) (String.length s) (revString s)).

(** [s.trim()]. *)
Definition trim (s : string) : string := trimEnd (trimStart s).

(** [x || ''] for an optional string: [undefined] and the empty string are
    both falsy. *)
Definition orEmpty (x : option string) : string :=
  match x with Some s => s | None => "" end.

(** Truthiness of an optional string. *)
Definition truthy (x : option string) : bool :=
  match x with
  | Some s => negb (String.eqb s "")
  | None => false
  end.

End Js.

(* ===================================================================== *)
(** * shared/utils/retry.ts                                               *)
(* ===================================================================== *)

Module Retry.

Inductive ErrorType := TEMPORARY | PERMANENT.

(** What a [throw] can carry.  [ClassifiedError] is the subclass of the
    source (its [originalError] is kept by its message); [Error] is any
    other instance of [Error]; [Value] is a thrown value that is not an
    [Error]; [Undefined] is what [throw lastError!] throws when no attempt
    was ever made. *)
Inductive Thrown :=
| ClassifiedError (message : string) (type : ErrorType) (originalError : option string)
| Error (message : string)
| Value (v : string)
| Undefined.

Inductive Outcome (A : Type) :=
| Return (a : A)
| Throw (e : Thrown).
Arguments Return {A} a.
Arguments Throw {A} e.

(** [error instanceof ClassifiedError && error.type === ErrorType.PERMANENT] *)
Definition isPermanent (e : Thrown) : bool :=
  match e with
  | ClassifiedError _ PERMANENT _ => true
  | _ => false
  end.

(** [error instanceof ClassifiedError && error.type === ErrorType.TEMPORARY] *)
Definition isTemporary (e : Thrown) : bool :=
  match e with
  | ClassifiedError _ TEMPORARY _ => true
  | _ => false
  end.

(** [error instanceof Error ? error.message : 'Erro desconhecido'] *)
Definition messageOf (e : Thrown) : string :=
  match e with
  | ClassifiedError m _ _ => m
  | Error m => m
  | _ => "Erro desconhecido"
  end.

(** [RetryOptions]: every field is optional; [onRetry] records whether an
    observer was supplied (its calls show up in the trace). *)
Record RetryOptions := {
  maxAttempts : option Z;
  initialDelay : option Z;
  maxDelay : option Z;
  backoffMultiplier : option Z;
  onRetry : bool
}.

Definition maxAttemptsOf (o : RetryOptions) : Z := default 3 (maxAttempts o).
Definition initialDelayOf (o : RetryOptions) : Z := default 1000 (initialDelay o).
Definition maxDelayOf (o : RetryOptions) : Z := default 10000 (maxDelay o).
Definition backoffMultiplierOf (o : RetryOptions) : Z := default 2 (backoffMultiplier o).

(** [Math.min(initialDelay * Math.pow(backoffMultiplier, attempt - 1), maxDelay)] *)
Definition delayOf (o : RetryOptions) (attempt : Z) : Z :=
  Z.min (initialDelayOf o * backoffMultiplierOf o ^ (attempt - 1)) (maxDelayOf o).

(** What an execution of [retryWithBackoff] does, in order. *)
Inductive RetryEvent :=
| Attempt (attempt : Z)                 (* [await fn()] *)
| OnRetry (attempt : Z) (e : Thrown)    (* [onRetry(attempt, lastError)] *)
| Sleep (ms : Z).                       (* [setTimeout(resolve, delay)] *)

Section RetryWithBackoff.
Context {W T : Type}.

(** One invocation of the operation: it reads and changes the world. *)
Variable fn : W -> Outcome T * W.
Variable options : RetryOptions.

(** The [for] loop, from the iteration [attempt] on.  [fuel] only bounds
    the recursion: [retryLoop_fuel] shows it never runs out. *)
Fixpoint retryLoop (fuel : nat) (attempt : Z) (lastError : Thrown) (w : W)
  : option (Outcome T * W * list RetryEvent) :=
  if attempt <=? maxAttemptsOf options then
    match fuel with
    | O => None
    | S fuel' =>
        match fn w with
        | (Return v, w') => Some (Return v, w', [Attempt attempt])
        | (Throw error, w') =>
            if isPermanent error then Some (Throw error, w', [Attempt attempt])
            else if attempt =? maxAttemptsOf options then
              Some (Throw error, w', [Attempt attempt])
            else
              let delay := delayOf options attempt in
              let observed := if onRetry options then [OnRetry attempt error] else [] in
              match retryLoop fuel' (attempt + 1) error w' with
              | Some (r, w'', tr) =>
                  Some (r, w'', Attempt attempt :: observed ++ Sleep delay :: tr)
              | None => None
              end
        end
    end
  else Some (Throw lastError, w, []).

(** [retryWithBackoff(fn, options)]: the loop from [attempt = 1] with
    [lastError] still undefined.  The loop runs at most [maxAttempts]
    times, so that much fuel is enough ([retryLoop_fuel]) and the second
    branch is never taken. *)
Definition retryWithBackoff (w : W) : Outcome T * W * list RetryEvent :=
  match retryLoop (Z.to_nat (maxAttemptsOf options)) 1 Undefined w with
  | Some r => r
  | None => (Throw Undefined, w, [])
  end.

(** The world after [n] invocations of the operation. *)
Fixpoint worldAfter (n : nat) (w : W) : W :=
  match n with
  | O => w
  | S n' => worldAfter n' (snd (fn w))
  end.

(** The operation fails whenever it is invoked, with a permanent error. *)
Definition alwaysFailsPermanent : Prop :=
  forall w, exists e, fst (fn w) = Throw e /\ isPermanent e = true.

(** The operation fails whenever it is invoked, never with a permanent
    error. *)
Definition alwaysFailsRetryable : Prop :=
  forall w, exists e, fst (fn w) = Throw e /\ isPermanent e = false.

(** The first [k] invocations from [w] fail, none with a permanent error. *)
Definition failsRetryably (k : nat) (w : W) : Prop :=
  forall i, (i < k)%nat ->
    exists e, fst (fn (worldAfter i w)) = Throw e /\ isPermanent e = false.

End RetryWithBackoff.

(** The operation was invoked this many times. *)
Definition invocations (tr : list RetryEvent) : nat :=
  List.length (List.filter (fun ev => match ev with Attempt _ => true | _ => false end) tr).

(** The pauses taken, in order. *)
Fixpoint sleeps (tr : list RetryEvent) : list Z :=
  match tr with
  | [] => []
  | Sleep ms :: tr' => ms :: sleeps tr'
  | _ :: tr' => sleeps tr'
  end.

(** The trace without the observer's calls. *)
Definition skeleton (tr : list RetryEvent) : list RetryEvent :=
  List.filter (fun ev => match ev with OnRetry _ _ => false | _ => true end) tr.

(** [n] failed attempts from [attempt] on, each followed by its pause. *)
Fixpoint failedAttempts (o : RetryOptions) (attempt : Z) (n : nat) : list RetryEvent :=
  match n with
  | O => []
  | S n' => Attempt attempt :: Sleep (delayOf o attempt) :: failedAttempts o (attempt + 1) n'
  end.

(** [classifyHttpError(statusCode, message)] *)
Definition classifyHttpError (statusCode : Z) (message : string) : Thrown :=
  if (statusCode =? 429) || (statusCode =? 500) || (statusCode =? 502)
     || (statusCode =? 503) || (statusCode =? 504)
  then ClassifiedError message TEMPORARY None
  else if (statusCode =? 401) || (statusCode =? 403)
  then ClassifiedError message TEMPORARY None
  else if (statusCode =? 400) || (statusCode =? 404) || (statusCode =? 422)
  then ClassifiedError message PERMANENT None
  else ClassifiedError message TEMPORARY None.

(** [classifyNetworkError(error)] *)
Definition classifyNetworkError (errorMessage : string) : Thrown :=
  ClassifiedError ("Erro de rede: " ++ errorMessage) TEMPORARY (Some errorMessage).

End Retry.

(* ===================================================================== *)
(** * domain/types/TrackingTypes.ts                                       *)
(* ===================================================================== *)

Module Types.

Record UnitAddress := {
  cep : option string;
  logradouro : option string;
  numero : option string;
  bairro : option string;
  cidade : option string;
  uf : option string
}.

Record TrackingEvent := {
  date : string;
  location : string;
  status : string;
  description : string;
  detail : option string;
  unitType : option string;
  originUnit : option string;
  destinationUnit : option string;
  unitAddress : option UnitAddress
}.

(** The string enum [TrackingStatus]. *)
Inductive TrackingStatus :=
| ETIQUETA_EMITIDA | ETIQUETA_CANCELADA | ETIQUETA_EXPIRADA
| CARTEIRO_SAIU_COLETA | OBJETO_COLETADO | POSTADO | POSTADO_APOS_HORARIO_LIMITE
| EM_TRANSITO | CORRECAO_ROTA | OBJETO_NAO_CHEGOU_UNIDADE
| SAIU_PARA_ENTREGA | SAIU_PARA_ENTREGA_REMETENTE
| AGUARDANDO_RETIRADA | ENCAMINHADO_RETIRADA | DIRECIONADO_UNIDADE
| NAO_ENTREGUE | NAO_ENTREGUE_ENDERECO_INCORRETO
| NAO_ENTREGUE_ENDERECO_INSUFICIENTE | NAO_ENTREGUE_CARTEIRO_NAO_ATENDIDO
| NAO_ENTREGUE_PRAZO_ENCERRADO | TENTATIVA_ENTREGA_NAO_EFETUADA
| INCONSISTENCIAS_ENDERECAMENTO | DESCONSIDERAR_INFORMACAO | SUSPENSAO_ENTREGA
| ERRO_CONSULTA
| ENTREGA_CANCELADA | CANCELADO | DEVOLVIDO | OBJETO_SERA_DEVOLVIDO
| ENTREGUE | ENTREGUE_REMETENTE | ENTREGUE_CAIXA_INTELIGENTE.

(** The value of each member. *)
Definition statusText (s : TrackingStatus) : string :=
  match s with
  | ETIQUETA_EMITIDA => "Etiqueta emitida"
  | ETIQUETA_CANCELADA => "Etiqueta cancelada pelo emissor"
  | ETIQUETA_EXPIRADA => "Etiqueta expirada"
  | CARTEIRO_SAIU_COLETA => "Carteiro saiu para coleta do objeto"
  | OBJETO_COLETADO => "Objeto coletado"
  | POSTADO => "Objeto postado"
  | POSTADO_APOS_HORARIO_LIMITE => "Objeto postado após o horário limite da unidade"
  | EM_TRANSITO => "Objeto em transferência - por favor aguarde"
  | CORRECAO_ROTA => "Objeto em correção de rota"
  | OBJETO_NAO_CHEGOU_UNIDADE => "Objeto ainda não chegou à unidade"
  | SAIU_PARA_ENTREGA => "Objeto saiu para entrega ao destinatário"
  | SAIU_PARA_ENTREGA_REMETENTE => "Objeto saiu para entrega ao remetente"
  | AGUARDANDO_RETIRADA => "Objeto aguardando retirada no endereço indicado"
  | ENCAMINHADO_RETIRADA => "Objeto encaminhado para retirada no endereço indicado"
  | DIRECIONADO_UNIDADE => "Direcionado para entrega em unidade dos Correios a pedido do cliente"
  | NAO_ENTREGUE => "Objeto não entregue"
  | NAO_ENTREGUE_ENDERECO_INCORRETO => "Objeto não entregue - endereço incorreto"
  | NAO_ENTREGUE_ENDERECO_INSUFICIENTE => "Objeto não entregue - endereço insuficiente"
  | NAO_ENTREGUE_CARTEIRO_NAO_ATENDIDO => "Objeto não entregue - carteiro não atendido"
  | NAO_ENTREGUE_PRAZO_ENCERRADO => "Objeto não entregue - prazo de retirada encerrado"
  | TENTATIVA_ENTREGA_NAO_EFETUADA => "Tentativa de entrega não efetuada"
  | INCONSISTENCIAS_ENDERECAMENTO => "Inconsistências no endereçamento do objeto"
  | DESCONSIDERAR_INFORMACAO => "Favor desconsiderar a informação anterior"
  | SUSPENSAO_ENTREGA => "Solicitação de suspensão de entrega ao destinatário"
  | ERRO_CONSULTA => "Erro na consulta"
  | ENTREGA_CANCELADA => "Saída para entrega cancelada"
  | CANCELADO => "Cancelado"
  | DEVOLVIDO => "Devolvido"
  | OBJETO_SERA_DEVOLVIDO => "Objeto será devolvido por solicitação do contratante/remetente"
  | ENTREGUE => "Objeto entregue ao destinatário"
  | ENTREGUE_REMETENTE => "Objeto entregue ao remetente"
  | ENTREGUE_CAIXA_INTELIGENTE => "Objeto entregue na Caixa de Correios Inteligente"
  end.

(** The string enum [DeliveryChannel]. *)
Inductive DeliveryChannel := DELIVERY | PICKUP_IN_POINT.

Definition channelText (c : DeliveryChannel) : string :=
  match c with
  | DELIVERY => "delivery"
  | PICKUP_IN_POINT => "pickup-in-point"
  end.

End Types.

(* ===================================================================== *)
(** * shared/utils/eventComparator.ts                                     *)
(* ===================================================================== *)

Module EventComparator.
Import Retry Types.

Section Comparator.

(** [new Date(s).toISOString()]: the ISO-8601 UTC rendering of the instant
    [s] denotes, and [None] when [s] denotes no instant (the call then
    throws a [RangeError]). *)
Variable toISOString : string -> option string.

Definition createEventSignature (event : TrackingEvent) : Outcome string :=
  match toISOString (date event) with
  | None => Throw (Error "Invalid time value")
  | Some normalizedDate =>
      let normalizedLocation := Js.trim (location event) in
      let normalizedDescription := Js.trim (description event) in
      let normalizedDetail := Js.trim (Js.orEmpty (detail event)) in
      let normalizedUnitType := Js.trim (Js.orEmpty (unitType event)) in
      let normalizedOriginUnit := Js.trim (Js.orEmpty (originUnit event)) in
      let normalizedDestinationUnit := Js.trim (Js.orEmpty (destinationUnit event)) in
      Return (normalizedDescription ++ "|" ++ normalizedDate ++ "|" ++
              normalizedLocation ++ "|" ++ normalizedDetail ++ "|" ++
              normalizedUnitType ++ "|" ++ normalizedOriginUnit ++ "|" ++
              normalizedDestinationUnit)
  end.

(** [events.map(event => createEventSignature(event))] *)
Fixpoint signatures (events : list TrackingEvent) : Outcome (list string) :=
  match events with
  | [] => Return []
  | event :: rest =>
      match createEventSignature event with
      | Throw e => Throw e
      | Return sig =>
          match signatures rest with
          | Throw e => Throw e
          | Return sigs => Return (sig :: sigs)
          end
      end
  end.

(** The [for ... of] loop over the new events. *)
Fixpoint anyMissing (oldEventsSet : gset string) (newEvents : list TrackingEvent)
  : Outcome bool :=
  match newEvents with
  | [] => Return false
  | newEvent :: rest =>
      match createEventSignature newEvent with
      | Throw e => Throw e
      | Return signature =>
          if bool_decide (signature ∈ oldEventsSet)
          then anyMissing oldEventsSet rest
          else Return true
      end
  end.

Definition hasNewEvents (oldEvents newEvents : list TrackingEvent) : Outcome bool :=
  if negb (Nat.eqb (List.length oldEvents) (List.length newEvents)) then Return true
  else if Nat.eqb (List.length oldEvents) 0 && Nat.eqb (List.length newEvents) 0
  then Return false
  else
    match signatures oldEvents with
    | Throw e => Throw e
    | Return sigs => anyMissing (list_to_set sigs) newEvents
    end.

End Comparator.

(** The seven normalized fields a signature is built from. *)
Definition sameNormalizedFields (toISOString : string -> option string)
    (a b : TrackingEvent) : Prop :=
  Js.trim (description a) = Js.trim (description b) /\
  is_Some (toISOString (date a)) /\
  toISOString (date a) = toISOString (date b) /\
  Js.trim (location a) = Js.trim (location b) /\
  Js.trim (Js.orEmpty (detail a)) = Js.trim (Js.orEmpty (detail b)) /\
  Js.trim (Js.orEmpty (unitType a)) = Js.trim (Js.orEmpty (unitType b)) /\
  Js.trim (Js.orEmpty (originUnit a)) = Js.trim (Js.orEmpty (originUnit b)) /\
  Js.trim (Js.orEmpty (destinationUnit a)) = Js.trim (Js.orEmpty (destinationUnit b)).

(** A rendering of the instants the examples use: [YYYY-MM-DDTHH:MM:SSZ]
    gains its milliseconds, an empty string denotes no instant. *)
Definition exampleISO (s : string) : option string :=
  if String.eqb s "" then None
  else if String.eqb s "2024-01-01T10:00:00Z" then Some "2024-01-01T10:00:00.000Z"
  else if String.eqb s "2024-01-02T12:00:00Z" then Some "2024-01-02T12:00:00.000Z"
  else if String.eqb s "2024-01-01T10:00:00.000Z" then Some s
  else if String.eqb s "2024-01-02T12:00:00.000Z" then Some s
  else None.

Definition mkEvent (descr dt loc : string) : TrackingEvent :=
  {| date := dt; location := loc; status := descr; description := descr;
     detail := None; unitType := None; originUnit := None;
     destinationUnit := None; unitAddress := None |}.

End EventComparator.

(* ===================================================================== *)
(** * services/correiosTokenService.ts                                    *)
(* ===================================================================== *)

Module TokenService.
Import Retry.

Record TokenData := { token : string; expiresAt : Z }.

(** The three variables [generateNewToken] reads from [process.env]. *)
Record Env := {
  CORREIOS_API_KEY : option string;
  CORREIOS_USERNAME : option string;
  CORREIOS_POSTAL_CARD : option string
}.

Definition TOKEN_EXPIRATION_MS : Z := 60 * 60 * 1000.

(** How the POST to the authentication endpoint ends. *)
Inductive AuthReply :=
| FetchRejected (message : string)                       (* [fetch] rejects *)
| NotOk (status : Z) (statusText errorText : string)     (* [!response.ok] *)
| Json (token : option string).                          (* [data.token] *)

(** A started [generateNewToken()] that has not settled yet: it either
    threw before any request (credentials missing) or sent its request. *)
Inductive Acquisition :=
| FailedEarly (e : Thrown)
| Requested.

(** The two fields of the class, and three ghost fields: the pending
    acquisitions by promise identity, the number of promises created (the
    next fresh identity) and the number of requests sent upstream. *)
Record Service := {
  tokenCache : option TokenData;
  tokenPromise : option nat;
  pending : list (nat * Acquisition);
  created : nat;
  authRequests : nat
}.

Definition initial : Service :=
  {| tokenCache := None; tokenPromise := None; pending := []; created := 0%nat;
     authRequests := 0%nat |}.

(** [this.tokenCache && this.tokenCache.expiresAt > new Date()] *)
Definition cacheValid (s : Service) (now : Z) : bool :=
  match tokenCache s with
  | Some c => expiresAt c >? now
  | None => false
  end.

(** [!apiKey || !username || !postalCard] is false *)
Definition configured (env : Env) : bool :=
  Js.truthy (CORREIOS_API_KEY env) && Js.truthy (CORREIOS_USERNAME env)
  && Js.truthy (CORREIOS_POSTAL_CARD env).

(** [generateNewToken()] up to its first suspension point. *)
Definition startAcquisition (env : Env) : Acquisition :=
  if configured env then Requested
  else FailedEarly (Error "Credenciais dos Correios não configuradas. Verifique CORREIOS_API_KEY, CORREIOS_USERNAME e CORREIOS_POSTAL_CARD").

(** What a caller of [getValidToken] holds: the cached token, or the
    promise of the acquisition in flight. *)
Inductive Reply :=
| Token (t : string)
| Awaits (promise : nat).

(** [getValidToken()], which runs without suspension up to its [return]. *)
Definition getValidToken (env : Env) (now : Z) (s : Service) : Reply * Service :=
  match (if cacheValid s now then tokenCache s else None) with
  | Some c => (Token (token c), s)
  | None =>
      match tokenPromise s with
      | Some p => (Awaits p, s)
      | None =>
          let p := created s in
          let acq := startAcquisition env in
          (Awaits p,
           {| tokenCache := tokenCache s; tokenPromise := Some p;
              pending := (p, acq) :: pending s; created := S p;
              authRequests := (authRequests s +
                               match acq with Requested => 1 | FailedEarly _ => 0 end)%nat |})
      end
  end.

(** The rest of [generateNewToken()] once the reply is there. *)
Definition finishAcquisition (acq : Acquisition) (reply : AuthReply) (now : Z)
  : Outcome string * option TokenData :=
  match acq with
  | FailedEarly e => (Throw e, None)
  | Requested =>
      match reply with
      | FetchRejected m => (Throw (Error m), None)
      | NotOk status statusText errorText =>
          (Throw (Error ("Erro ao gerar token: " ++ pretty status ++ " - " ++ statusText
                         ++ ". Detalhes: " ++ errorText)), None)
      | Json tok =>
          if Js.truthy tok then
            (Return (Js.orEmpty tok),
             Some {| token := Js.orEmpty tok; expiresAt := now + TOKEN_EXPIRATION_MS |})
          else (Throw (Error "Token não retornado pela API dos Correios"), None)
      end
  end.

(** The acquisition behind promise [p] settles: the cache is written on
    success, and the [finally] callback clears [tokenPromise]. *)
Definition settle (p : nat) (reply : AuthReply) (now : Z) (s : Service)
  : option (Outcome string * Service) :=
  match List.find (fun '(q, _) => Nat.eqb q p) (pending s) with
  | None => None
  | Some (_, acq) =>
      let '(result, written) := finishAcquisition acq reply now in
      Some (result,
            {| tokenCache := match written with Some c => Some c | None => tokenCache s end;
               tokenPromise := None;
               pending := List.filter (fun '(q, _) => negb (Nat.eqb q p)) (pending s);
               created := created s;
               authRequests := authRequests s |})
  end.

(** [clearCache()] *)
Definition clearCache (s : Service) : Service :=
  {| tokenCache := None; tokenPromise := None; pending := pending s;
     created := created s; authRequests := authRequests s |}.

(** One caller after the other, at the given instants, with nothing
    settling in between. *)
Fixpoint callAll (env : Env) (nows : list Z) (s : Service) : list Reply * Service :=
  match nows with
  | [] => ([], s)
  | now :: rest =>
      let '(r, s') := getValidToken env now s in
      let '(rs, s'') := callAll env rest s' in
      (r :: rs, s'')
  end.

(** What can happen to the service. *)
Inductive Event :=
| Call (now : Z)
| Settle (p : nat) (reply : AuthReply) (now : Z).

Definition step (env : Env) (s : Service) (ev : Event) : Service :=
  match ev with
  | Call now => snd (getValidToken env now s)
  | Settle p reply now =>
      match settle p reply now s with
      | Some (_, s') => s'
      | None => s
      end
  end.

Definition run (env : Env) (evs : list Event) (s : Service) : Service :=
  List.fold_left (step env) evs s.

(** At most one acquisition is pending at any time, and it is the one
    [tokenPromise] points to. *)
Definition singlePending (s : Service) : Prop :=
  match tokenPromise s with
  | Some p => exists acq, pending s = [(p, acq)]
  | None => pending s = []
  end.

End TokenService.

(* ===================================================================== *)
(** * services/correios.ts                                                *)
(* ===================================================================== *)

Module Correios.
Import Retry.

(** [CorreiosApiResponse], the carrier's answer. *)
Module Api.
Record Endereco := {
  cep : option string;
  logradouro : option string;
  numero : option string;
  bairro : option string;
  cidade : option string;
  uf : option string
}.
Record Unidade := { tipo : option string; endereco : option Endereco }.
Record Evento := {
  descricao : string;
  dtHrCriado : string;
  detalhe : option string;
  unidade : option Unidade;
  unidadeDestino : option Unidade
}.
Record Objeto := {
  codObjeto : string;
  dtPrevista : option string;
  mensagem : option string;
  eventos : option (list Evento)
}.
Record CorreiosApiResponse := {
  versao : string;
  quantidade : Z;
  objetos : option (list Objeto);
  tipoResultado : string
}.
End Api.

(** [CorreiosResponse], what [trackCorreios] resolves to. *)
Record CorreiosResponse := {
  status : string;
  events : list Types.TrackingEvent;
  dtPrevista : option string
}.

(** One run of [fetchTrackingData] against the outside world. *)
Inductive Exchange :=
| TokenRejected (e : Thrown)      (* [getValidToken()] rejects *)
| FetchRejected (e : Thrown)      (* [fetch(endpoint, ...)] rejects *)
| Answered (httpStatus : Z) (errorText : string)
           (json : Outcome Api.CorreiosApiResponse).

(** [response.ok] *)
Definition ok (httpStatus : Z) : bool := (200 <=? httpStatus) && (httpStatus <=? 299).

(** The [catch] of [fetchTrackingData]. *)
Definition rethrowClassified (error : Thrown) : Thrown :=
  match error with
  | ClassifiedError _ _ _ => error
  | Error m => classifyNetworkError m
  | _ => error
  end.

Definition fetchTrackingData (x : Exchange) : Outcome Api.CorreiosApiResponse :=
  match x with
  | TokenRejected e => Throw (rethrowClassified e)
  | FetchRejected e => Throw (rethrowClassified e)
  | Answered httpStatus errorText json =>
      if negb (ok httpStatus) then
        Throw (rethrowClassified
                 (classifyHttpError httpStatus
                    ("Erro ao consultar rastreamento: " ++ pretty httpStatus ++ " - " ++ errorText)))
      else
        match json with
        | Return data => Return data
        | Throw e => Throw (rethrowClassified e)
        end
  end.

(** [parts.filter(Boolean).join(', ')] *)
Definition joinTruthy (partes : list (option string)) : string :=
  String.concat ", " (List.map Js.orEmpty (List.filter Js.truthy partes)).

(** The place pushed onto [partes]. *)
Definition lugar (e : Api.Endereco) : list (option string) :=
  if Js.truthy (Api.cidade e) && Js.truthy (Api.uf e)
  then [Some (Js.orEmpty (Api.cidade e) ++ " - " ++ Js.orEmpty (Api.uf e))]
  else if Js.truthy (Api.cidade e) then [Api.cidade e]
  else if Js.truthy (Api.uf e) then [Api.uf e]
  else [].

Definition describeUnit (u : Api.Unidade) : string :=
  joinTruthy (Api.tipo u :: match Api.endereco u with Some e => lugar e | None => [] end).

(** The callback of [eventos.map]. *)
Definition mapEvento (evento : Api.Evento) : Types.TrackingEvent :=
  let endereco := match Api.unidade evento with Some u => Api.endereco u | None => None end in
  let location :=
    match endereco with
    | Some e =>
        if Js.truthy (Api.cidade e) && Js.truthy (Api.uf e)
        then Js.orEmpty (Api.cidade e) ++ "/" ++ Js.orEmpty (Api.uf e)
        else if Js.truthy (Api.uf e) then Js.orEmpty (Api.uf e)
        else if Js.truthy (Api.cidade e) then Js.orEmpty (Api.cidade e)
        else "Local não informado"
    | None => "Local não informado"
    end in
  {| Types.description := Api.descricao evento;
     Types.date := Api.dtHrCriado evento;
     Types.status := Api.descricao evento;
     Types.location := location;
     Types.detail := Api.detalhe evento;
     Types.unitType := match Api.unidade evento with Some u => Api.tipo u | None => None end;
     Types.originUnit := option_map describeUnit (Api.unidade evento);
     Types.destinationUnit := option_map describeUnit (Api.unidadeDestino evento);
     Types.unitAddress :=
       option_map (fun e => {| Types.cep := Api.cep e; Types.logradouro := Api.logradouro e;
                               Types.numero := Api.numero e; Types.bairro := Api.bairro e;
                               Types.cidade := Api.cidade e; Types.uf := Api.uf e |}) endereco |}.

(** The [if / else if] chain on the description of the latest event. *)
Definition determineStatus (description : string) : string :=
  if Js.includes description "Objeto entregue ao destinatário" then "Objeto entregue ao destinatário"
  else if Js.includes description "Objeto entregue ao remetente" then "Objeto entregue ao remetente"
  else if Js.includes description "Objeto entregue na Caixa de Correios Inteligente" then "Objeto entregue na Caixa de Correios Inteligente"
  else if Js.includes description "Objeto não entregue - prazo de retirada encerrado" then "Objeto não entregue - prazo de retirada encerrado"
  else if Js.includes description "Objeto não entregue - carteiro não atendido" then "Objeto não entregue - carteiro não atendido"
  else if Js.includes description "Objeto não entregue - endereço insuficiente" then "Objeto não entregue - endereço insuficiente"
  else if Js.includes description "Objeto não entregue - endereço incorreto" then "Objeto não entregue - endereço incorreto"
  else if Js.includes description "Tentativa de entrega não efetuada" then "Tentativa de entrega não efetuada"
  else if Js.includes description "Objeto não entregue" then "Objeto não entregue"
  else if Js.includes description "Objeto saiu para entrega ao destinatário" then "Objeto saiu para entrega ao destinatário"
  else if Js.includes description "Objeto saiu para entrega ao remetente" then "Objeto saiu para entrega ao remetente"
  else if Js.includes description "Saída para entrega cancelada" then "Saída para entrega cancelada"
  else if Js.includes description "Objeto encaminhado para retirada no endereço indicado" then "Objeto encaminhado para retirada no endereço indicado"
  else if Js.includes description "Objeto aguardando retirada no endereço indicado" then "Objeto aguardando retirada no endereço indicado"
  else if Js.includes description "Direcionado para entrega em unidade dos Correios a pedido do cliente" then "Direcionado para entrega em unidade dos Correios a pedido do cliente"
  else if Js.includes description "Objeto em correção de rota" then "Objeto em correção de rota"
  else if Js.includes description "Objeto ainda não chegou à unidade" then "Objeto ainda não chegou à unidade"
  else if Js.includes description "Objeto em transferência" then "Objeto em transferência - por favor aguarde"
  else if Js.includes description "Objeto postado após o horário limite da unidade" then "Objeto postado após o horário limite da unidade"
  else if Js.includes description "Objeto postado" then "Objeto postado"
  else if Js.includes description "Objeto coletado" then "Objeto coletado"
  else if Js.includes description "Carteiro saiu para coleta do objeto" then "Carteiro saiu para coleta do objeto"
  else if Js.includes description "Etiqueta cancelada pelo emissor" then "Etiqueta cancelada pelo emissor"
  else if Js.includes description "Etiqueta expirada" then "Etiqueta expirada"
  else if Js.includes description "Etiqueta emitida" then "Etiqueta emitida"
  else if Js.includes description "Inconsistências no endereçamento do objeto" then "Inconsistências no endereçamento do objeto"
  else if Js.includes description "Favor desconsiderar a informação anterior" then "Favor desconsiderar a informação anterior"
  else if Js.includes description "Solicitação de suspensão de entrega ao destinatário" then "Solicitação de suspensão de entrega ao destinatário"
  else if Js.includes description "Objeto será devolvido por solicitação do contratante/remetente" then "Objeto será devolvido por solicitação do contratante/remetente"
  else if Js.includes description "Cancelado" then "Cancelado"
  else if Js.includes description "Devolvido" then "Devolvido"
  else "Objeto em transferência - por favor aguarde".

(** The part of the [try] block that follows the retried lookup. *)
Definition normalize (now : string) (trackingData : Api.CorreiosApiResponse)
  : Outcome CorreiosResponse :=
  match Api.objetos trackingData with
  | None | Some [] => Throw (Error "Objeto não encontrado")
  | Some (objeto :: _) =>
      if Js.truthy (Api.mensagem objeto) then
        Return {| status := "Objeto não encontrado";
                  events := [ {| Types.description := Js.orEmpty (Api.mensagem objeto);
                                 Types.date := now;
                                 Types.status := "Não encontrado";
                                 Types.location := "Correios";
                                 Types.detail := None; Types.unitType := None;
                                 Types.originUnit := None; Types.destinationUnit := None;
                                 Types.unitAddress := None |} ];
                  dtPrevista := None |}
      else
        let eventos := default [] (Api.eventos objeto) in
        if Nat.eqb (List.length eventos) 0 then
          Return {| status := "Etiqueta emitida"; events := [];
                    dtPrevista := Api.dtPrevista objeto |}
        else
          let events := List.map mapEvento eventos in
          let status :=
            match events with
            | lastEvent :: _ => determineStatus (Types.description lastEvent)
            | [] => "Objeto em transferência - por favor aguarde"
            end in
          Return {| status := status; events := events;
                    dtPrevista := Api.dtPrevista objeto |}
  end.

(** The options [trackCorreios] passes to [retryWithBackoff]. *)
Definition trackOptions : RetryOptions :=
  {| maxAttempts := Some 3; initialDelay := Some 1000; maxDelay := None;
     backoffMultiplier := Some 2; onRetry := true |}.

Section TrackCorreios.

(** The outside world: what the [i]-th run of [fetchTrackingData] for a
    tracking code meets. *)
Variable carrier : string -> nat -> Exchange.

(** [new Date().toISOString()] at the time of the call. *)
Variable now : string.

(** [() => fetchTrackingData(code)], over the number of runs so far. *)
Definition lookup (code : string) (i : nat) : Outcome Api.CorreiosApiResponse * nat :=
  (fetchTrackingData (carrier code i), S i).

(** The [try] block. *)
Definition tryBlock (code : string) : Outcome CorreiosResponse :=
  match retryWithBackoff (lookup code) trackOptions 0%nat with
  | (Return trackingData, _, _) => normalize now trackingData
  | (Throw e, _, _) => Throw e
  end.

(** The result the [catch] block returns for a failure it keeps. *)
Definition lookupError (error : Thrown) : CorreiosResponse :=
  {| status := "Erro na consulta";
     events := [ {| Types.description :=
                      "Erro ao consultar os Correios: " ++ messageOf error
                      ++ ". Verifique o código de rastreamento.";
                    Types.date := now;
                    Types.status := "Erro";
                    Types.location := "Sistema";
                    Types.detail := None; Types.unitType := None;
                    Types.originUnit := None; Types.destinationUnit := None;
                    Types.unitAddress := None |} ];
     dtPrevista := None |}.

Definition trackCorreios (code : string) : Outcome CorreiosResponse :=
  match tryBlock code with
  | Return response => Return response
  | Throw error =>
      if isTemporary error then Throw error
      else Return (lookupError error)
  end.

(** All three attempts of the lookup failed, the last one with [e]. *)
Definition exhausted (code : string) (e : Thrown) : Prop :=
  exists e1 e2,
    fetchTrackingData (carrier code 0%nat) = Throw e1 /\ isPermanent e1 = false /\
    fetchTrackingData (carrier code 1%nat) = Throw e2 /\ isPermanent e2 = false /\
    fetchTrackingData (carrier code 2%nat) = Throw e.

End TrackCorreios.

(** The chain as a table of (pattern, status) rules, in source order. *)
Definition statusRules : list (string * string) :=
  [ ("Objeto entregue ao destinatário", "Objeto entregue ao destinatário");
    ("Objeto entregue ao remetente", "Objeto entregue ao remetente");
    ("Objeto entregue na Caixa de Correios Inteligente", "Objeto entregue na Caixa de Correios Inteligente");
    ("Objeto não entregue - prazo de retirada encerrado", "Objeto não entregue - prazo de retirada encerrado");
    ("Objeto não entregue - carteiro não atendido", "Objeto não entregue - carteiro não atendido");
    ("Objeto não entregue - endereço insuficiente", "Objeto não entregue - endereço insuficiente");
    ("Objeto não entregue - endereço incorreto", "Objeto não entregue - endereço incorreto");
    ("Tentativa de entrega não efetuada", "Tentativa de entrega não efetuada");
    ("Objeto não entregue", "Objeto não entregue");
    ("Objeto saiu para entrega ao destinatário", "Objeto saiu para entrega ao destinatário");
    ("Objeto saiu para entrega ao remetente", "Objeto saiu para entrega ao remetente");
    ("Saída para entrega cancelada", "Saída para entrega cancelada");
    ("Objeto encaminhado para retirada no endereço indicado", "Objeto encaminhado para retirada no endereço indicado");
    ("Objeto aguardando retirada no endereço indicado", "Objeto aguardando retirada no endereço indicado");
    ("Direcionado para entrega em unidade dos Correios a pedido do cliente", "Direcionado para entrega em unidade dos Correios a pedido do cliente");
    ("Objeto em correção de rota", "Objeto em correção de rota");
    ("Objeto ainda não chegou à unidade", "Objeto ainda não chegou à unidade");
    ("Objeto em transferência", "Objeto em transferência - por favor aguarde");
    ("Objeto postado após o horário limite da unidade", "Objeto postado após o horário limite da unidade");
    ("Objeto postado", "Objeto postado");
    ("Objeto coletado", "Objeto coletado");
    ("Carteiro saiu para coleta do objeto", "Carteiro saiu para coleta do objeto");
    ("Etiqueta cancelada pelo emissor", "Etiqueta cancelada pelo emissor");
    ("Etiqueta expirada", "Etiqueta expirada");
    ("Etiqueta emitida", "Etiqueta emitida");
    ("Inconsistências no endereçamento do objeto", "Inconsistências no endereçamento do objeto");
    ("Favor desconsiderar a informação anterior", "Favor desconsiderar a informação anterior");
    ("Solicitação de suspensão de entrega ao destinatário", "Solicitação de suspensão de entrega ao destinatário");
    ("Objeto será devolvido por solicitação do contratante/remetente", "Objeto será devolvido por solicitação do contratante/remetente");
    ("Cancelado", "Cancelado");
    ("Devolvido", "Devolvido") ].

(** First rule whose pattern occurs in the description wins. *)
Fixpoint firstMatch (rules : list (string * string)) (description : string) : option string :=
  match rules with
  | [] => None
  | (pattern, st) :: rest =>
      if Js.includes description pattern then Some st else firstMatch rest description
  end.

End Correios.

(* ===================================================================== *)
(** * infrastructure/services/EmailEventPublisher.ts                      *)
(* ===================================================================== *)

Module Publisher.
Import Retry Types.

(** [TrackingStatusChangedEvent] *)
Record TrackingStatusChangedEvent := {
  trackingId : string;
  trackingCode : string;
  customerName : string;
  customerEmail : string;
  products : list string;
  previousStatus : string;
  newStatus : string;
  deliveryChannel : string;
  timestamp : string;
  detail : option string;
  originUnit : option string;
  destinationUnit : option string;
  unitAddress : option string;
  unitCep : option string
}.

(** The argument of [sendTrackingEmail]. *)
Record EmailData := {
  customer_name : string;
  email : string;
  tracking_code : string;
  email_products : list string;
  email_status : string;
  email_detail : option string;
  origin_unit : option string;
  destination_unit : option string;
  unit_address : option string;
  unit_cep : option string
}.

Definition SILENT_STATUSES : list string :=
  [ statusText DESCONSIDERAR_INFORMACAO;
    statusText OBJETO_SERA_DEVOLVIDO;
    statusText ETIQUETA_EXPIRADA;
    statusText ENTREGUE_REMETENTE;
    statusText SUSPENSAO_ENTREGA;
    statusText OBJETO_NAO_CHEGOU_UNIDADE;
    statusText CARTEIRO_SAIU_COLETA ].

(** What [publish] does to the outside. *)
Inductive Effect :=
| SendTrackingEmail (data : EmailData)
| LogError (message : string) (cause : Thrown) (trackingCode : string).

Definition emailData (event : TrackingStatusChangedEvent) : EmailData :=
  {| customer_name := customerName event;
     email := customerEmail event;
     tracking_code := trackingCode event;
     email_products := products event;
     email_status := newStatus event;
     email_detail := detail event;
     origin_unit := originUnit event;
     destination_unit := destinationUnit event;
     unit_address := unitAddress event;
     unit_cep := unitCep event |}.

(** [SILENT_STATUSES.includes(status)] *)
Definition isSilent (st : string) : bool :=
  List.existsb (String.eqb st) SILENT_STATUSES.

Section Publish.

(** The mail transport: how [sendTrackingEmail] ends for a message. *)
Variable sendTrackingEmail : EmailData -> Outcome unit.

(** [publish(event)]; it never throws. *)
Definition publish (event : TrackingStatusChangedEvent) : list Effect :=
  if String.eqb (deliveryChannel event) (channelText PICKUP_IN_POINT) then []
  else if isSilent (newStatus event) then []
  else
    SendTrackingEmail (emailData event) ::
    match sendTrackingEmail (emailData event) with
    | Return _ => []
    | Throw error =>
        [LogError "Erro ao enviar email de mudança de status" error (trackingCode event)]
    end.

End Publish.

(** The messages handed to the mail transport. *)
Fixpoint emailsSent (effs : list Effect) : list EmailData :=
  match effs with
  | [] => []
  | SendTrackingEmail d :: rest => d :: emailsSent rest
  | _ :: rest => emailsSent rest
  end.

End Publisher.

(* ===================================================================== *)
(** * jobs/trackingJob.ts and UpdateTrackingStatusUseCase.ts              *)
(* ===================================================================== *)

Module Job.
Import Retry Types.

Record Product := {
  product_id : string;
  product_name : string;
  product_quantity : Z;
  product_price : Z
}.

(** [TrackingEntity]; a row of the [tracking] table carries the same
    fields under their snake_case names. *)
Record TrackingEntity := {
  id : option string;
  orderId : Z;
  name : string;
  cpf : string;
  email : string;
  contact : option Z;
  trackingCode : string;
  currentStatus : string;
  category : string;
  deliveryChannel : string;
  products : list Product;
  quantity : Z;
  events : list TrackingEvent;
  createdAt : option string;
  updatedAt : option string;
  dtExpected : option string;
  sender : option string
}.

(** [UpdateTrackingStatusRequest] *)
Record UpdateTrackingStatusRequest := {
  req_trackingCode : string;
  req_newStatus : string;
  req_events : list TrackingEvent;
  req_dtExpected : option string
}.

Definition MAX_CONSECUTIVE_FAILURES : Z := 3.
Definition FAILURE_WAIT_TIME : Z := 60000.

(** What a pass does to the outside, in order. *)
Inductive JobEvent :=
| Persisted (code : string) (newStatus : string) (newEvents : list TrackingEvent)
            (dt : option string)                       (* [updateStatus] *)
| Published (eff : Publisher.Effect)                   (* inside [publish] *)
| Paused (ms : Z).                                     (* the back-off wait *)

(** The [tracking] table by tracking code, the module-level counter, the
    four metrics of a pass and the trace. *)
Record JobState := {
  store : gmap string TrackingEntity;
  consecutiveFailures : Z;
  successCount : Z;
  errorCount : Z;
  updatedCount : Z;
  skippedCount : Z;
  trace : list JobEvent
}.

(** [hasStatusChanged(newStatus)] *)
Definition hasStatusChanged (t : TrackingEntity) (newStatus : string) : bool :=
  negb (String.eqb (currentStatus t) newStatus).

(** The row after [updateStatus]: [dt_expected] is written only when a
    value is supplied. *)
Definition updatedRow (now : string) (t : TrackingEntity) (newStatus : string)
    (newEvents : list TrackingEvent) (dt : option string) : TrackingEntity :=
  {| id := id t; orderId := orderId t; name := name t; cpf := cpf t; email := email t;
     contact := contact t; trackingCode := trackingCode t;
     currentStatus := newStatus;
     category := category t; deliveryChannel := deliveryChannel t;
     products := products t; quantity := quantity t;
     events := newEvents;
     createdAt := createdAt t;
     updatedAt := Some now;
     dtExpected := if Js.truthy dt then dt else dtExpected t;
     sender := sender t |}.

(** [repository.updateStatus(code, status, events, dtExpected)] *)
Definition updateStatus (now : string) (db : gmap string TrackingEntity) (code : string)
    (newStatus : string) (newEvents : list TrackingEvent) (dt : option string)
  : Outcome TrackingEntity * gmap string TrackingEntity :=
  match db !! code with
  | None => (Throw (Error ("Tracking with tracking code " ++ code ++ " not found")), db)
  | Some row =>
      let row' := updatedRow now row newStatus newEvents dt in
      (Return row', <[code := row']> db)
  end.

(** The address lines [fromTracking] builds from the latest event. *)
Definition formatAddress (addr : UnitAddress) : string :=
  let street :=
    if Js.truthy (logradouro addr) && Js.truthy (numero addr)
    then Some (Js.orEmpty (logradouro addr) ++ ", " ++ Js.orEmpty (numero addr))
    else logradouro addr in
  let place :=
    if Js.truthy (cidade addr) && Js.truthy (uf addr)
    then Some (Js.orEmpty (cidade addr) ++ " - " ++ Js.orEmpty (uf addr))
    else if Js.truthy (cidade addr) then cidade addr else uf addr in
  String.concat (String "010"%char EmptyString)
    (List.map Js.orEmpty (List.filter Js.truthy [street; bairro addr; place])).

(** [TrackingStatusChangedEventEntity.fromTracking(...).toPlainObject()] *)
Definition fromTracking (now : string) (t : TrackingEntity) (newStatus : string)
    (newEvents : list TrackingEvent) : Outcome Publisher.TrackingStatusChangedEvent :=
  match id t with
  | None => Throw (Error "Tracking deve ter um ID para criar evento de mudança de status")
  | Some tid =>
      if String.eqb tid "" then
        Throw (Error "Tracking deve ter um ID para criar evento de mudança de status")
      else
        let lastEvent := List.head newEvents in
        let addr := match lastEvent with Some ev => unitAddress ev | None => None end in
        let productsArray :=
          List.filter (fun s => negb (String.eqb s ""))
            (List.map (fun p => if String.eqb (product_name p) ""
                                then "[object Object]" else product_name p) (products t)) in
        Return {| Publisher.trackingId := tid;
                  Publisher.trackingCode := trackingCode t;
                  Publisher.customerName := name t;
                  Publisher.customerEmail := email t;
                  Publisher.products :=
                    match productsArray with [] => ["N/A"] | _ => productsArray end;
                  Publisher.previousStatus := currentStatus t;
                  Publisher.newStatus := newStatus;
                  Publisher.deliveryChannel := deliveryChannel t;
                  Publisher.timestamp := now;
                  Publisher.detail := match lastEvent with Some ev => detail ev | None => None end;
                  Publisher.originUnit :=
                    match lastEvent with Some ev => originUnit ev | None => None end;
                  Publisher.destinationUnit :=
                    match lastEvent with Some ev => destinationUnit ev | None => None end;
                  Publisher.unitAddress := option_map formatAddress addr;
                  Publisher.unitCep := match addr with Some a => cep a | None => None end |}
  end.

Section Pass.

(** The lookup, the clock and the date parser of the run time, and the
    mail transport. *)
Variable trackCorreios : string -> Outcome Correios.CorreiosResponse.
Variable now : string.
Variable toISOString : string -> option string.
Variable sendTrackingEmail : Publisher.EmailData -> Outcome unit.

(** [updateTrackingStatusUseCase.execute(request)] *)
Definition execute (db : gmap string TrackingEntity) (request : UpdateTrackingStatusRequest)
  : Outcome bool * gmap string TrackingEntity * list JobEvent :=
  match db !! req_trackingCode request with
  | None => (Throw (Error "Tracking não encontrado"), db, [])
  | Some currentTracking =>
      let statusChanged := hasStatusChanged currentTracking (req_newStatus request) in
      match EventComparator.hasNewEvents toISOString (events currentTracking)
              (req_events request) with
      | Throw e => (Throw e, db, [])
      | Return eventsChanged =>
          match updateStatus now db (req_trackingCode request) (req_newStatus request)
                  (req_events request) (req_dtExpected request) with
          | (Throw e, db') => (Throw e, db', [])
          | (Return _, db') =>
              let written := Persisted (req_trackingCode request) (req_newStatus request)
                               (req_events request) (req_dtExpected request) in
              if statusChanged || eventsChanged then
                match fromTracking now currentTracking (req_newStatus request)
                        (req_events request) with
                | Throw e => (Throw e, db', [written])
                | Return event =>
                    (Return statusChanged, db',
                     written :: List.map Published
                                  (Publisher.publish sendTrackingEmail event))
                end
              else (Return statusChanged, db', [written])
          end
      end
  end.

(** The [catch] of the loop body. *)
Definition onError (error : Thrown) (st : JobState) : JobState :=
  if isTemporary error then
    {| store := store st; consecutiveFailures := consecutiveFailures st;
       successCount := successCount st; errorCount := errorCount st;
       updatedCount := updatedCount st; skippedCount := skippedCount st + 1;
       trace := trace st |}
  else
    let failures := consecutiveFailures st + 1 in
    {| store := store st; consecutiveFailures := failures;
       successCount := successCount st; errorCount := errorCount st + 1;
       updatedCount := updatedCount st; skippedCount := skippedCount st;
       trace :=
         if failures >=? MAX_CONSECUTIVE_FAILURES then
           trace st ++
           [Paused (FAILURE_WAIT_TIME * Z.min (failures - MAX_CONSECUTIVE_FAILURES + 1) 5)]
         else trace st |}.

(** One iteration of the [for ... of] loop. *)
Definition processRecord (st : JobState) (tracking : TrackingEntity) : JobState :=
  match trackCorreios (trackingCode tracking) with
  | Throw error => onError error st
  | Return trackingData =>
      let st1 :=
        {| store := store st; consecutiveFailures := 0;
           successCount := successCount st + 1; errorCount := errorCount st;
           updatedCount := updatedCount st; skippedCount := skippedCount st;
           trace := trace st |} in
      let statusChanged :=
        negb (String.eqb (Correios.status trackingData) (currentStatus tracking)) in
      match EventComparator.hasNewEvents toISOString (events tracking)
              (Correios.events trackingData) with
      | Throw error => onError error st1
      | Return eventsChanged =>
          if statusChanged || eventsChanged then
            match execute (store st1)
                    {| req_trackingCode := trackingCode tracking;
                       req_newStatus := Correios.status trackingData;
                       req_events := Correios.events trackingData;
                       req_dtExpected := Correios.dtPrevista trackingData |} with
            | (Throw error, db', effs) =>
                onError error
                  {| store := db'; consecutiveFailures := 0;
                     successCount := successCount st1; errorCount := errorCount st1;
                     updatedCount := updatedCount st1; skippedCount := skippedCount st1;
                     trace := trace st1 ++ effs |}
            | (Return _, db', effs) =>
                {| store := db'; consecutiveFailures := 0;
                   successCount := successCount st1; errorCount := errorCount st1;
                   updatedCount := updatedCount st1 + 1; skippedCount := skippedCount st1;
                   trace := trace st1 ++ effs |}
            end
          else st1
      end
  end.

(** The state a pass starts from: [consecutiveFailures = 0] and the four
    metrics at zero, whatever an earlier pass left in the counter. *)
Definition startPass (db : gmap string TrackingEntity) : JobState :=
  {| store := db; consecutiveFailures := 0; successCount := 0; errorCount := 0;
     updatedCount := 0; skippedCount := 0; trace := [] |}.

(** [processTrackings], from the list [findPendingTrackings] returned. *)
Definition processTrackings (trackings : list TrackingEntity)
    (db : gmap string TrackingEntity) : JobState :=
  List.fold_left processRecord trackings (startPass db).

End Pass.

(** The pauses of a trace, in order. *)
Fixpoint pauses (tr : list JobEvent) : list Z :=
  match tr with
  | [] => []
  | Paused ms :: rest => ms :: pauses rest
  | _ :: rest => pauses rest
  end.

(** The writes of a trace, in order. *)
Fixpoint writes (tr : list JobEvent) : list JobEvent :=
  match tr with
  | [] => []
  | Persisted c s e d :: rest => Persisted c s e d :: writes rest
  | _ :: rest => writes rest
  end.

(** The messages handed to the mail transport, in order. *)
Fixpoint notifications (tr : list JobEvent) : list Publisher.EmailData :=
  match tr with
  | [] => []
  | Published (Publisher.SendTrackingEmail d) :: rest => d :: notifications rest
  | _ :: rest => notifications rest
  end.

End Job.

(* ===================================================================== *)
(** * Concrete inputs used by the examples below                          *)
(* ===================================================================== *)

Module Examples.
Import Retry.

(** An operation over a call counter that always fails with the permanent
    error of a 404. *)
Definition notFound : Thrown := ClassifiedError "Not found" PERMANENT None.
Definition permanentOp (calls : nat) : Outcome unit * nat := (Throw notFound, S calls).

(** An operation that always fails with a plain [Error]. *)
Definition persistent : Thrown := Error "Persistent error".
Definition failingOp (calls : nat) : Outcome unit * nat := (Throw persistent, S calls).

(** An operation that fails once and then succeeds. *)
Definition flakyOp (calls : nat) : Outcome string * nat :=
  match calls with
  | O => (Throw (Error "Error 1"), S calls)
  | _ => (Return "success", S calls)
  end.

Definition defaults : RetryOptions :=
  {| maxAttempts := None; initialDelay := None; maxDelay := None;
     backoffMultiplier := None; onRetry := false |}.

Definition noAttempts : RetryOptions :=
  {| maxAttempts := Some 0; initialDelay := None; maxDelay := None;
     backoffMultiplier := None; onRetry := false |}.

(** The carrier answering every request for every code the same way. *)
Definition carrier503 (code : string) (i : nat) : Correios.Exchange :=
  Correios.Answered 503 "Service Unavailable" (Throw Undefined).
Definition carrier404 (code : string) (i : nat) : Correios.Exchange :=
  Correios.Answered 404 "Not Found" (Throw Undefined).

Definition answer (objeto : Correios.Api.Objeto) : Correios.Api.CorreiosApiResponse :=
  {| Correios.Api.versao := "1.0"; Correios.Api.quantidade := 1;
     Correios.Api.objetos := Some [objeto]; Correios.Api.tipoResultado := "T" |}.

Definition carrierAnswering (objeto : Correios.Api.Objeto) (code : string) (i : nat)
  : Correios.Exchange :=
  Correios.Answered 200 "" (Return (answer objeto)).

Definition exampleNow : string := "2024-01-03T08:00:00.000Z".
Definition exampleCode : string := "AA123456789BR".

(** An object the carrier does not know. *)
Definition unknownObject : Correios.Api.Objeto :=
  {| Correios.Api.codObjeto := exampleCode; Correios.Api.dtPrevista := None;
     Correios.Api.mensagem := Some "SRO-020: Objeto não encontrado na base de dados dos Correios.";
     Correios.Api.eventos := None |}.

(** An object that exists and has no event yet. *)
Definition freshObject : Correios.Api.Objeto :=
  {| Correios.Api.codObjeto := exampleCode;
     Correios.Api.dtPrevista := Some "2024-01-10T23:59:59";
     Correios.Api.mensagem := None; Correios.Api.eventos := Some [] |}.

Definition evento (descr dt : string) : Correios.Api.Evento :=
  {| Correios.Api.descricao := descr; Correios.Api.dtHrCriado := dt;
     Correios.Api.detalhe := None; Correios.Api.unidade := None;
     Correios.Api.unidadeDestino := None |}.

Definition objectWith (eventos : list Correios.Api.Evento) : Correios.Api.Objeto :=
  {| Correios.Api.codObjeto := exampleCode; Correios.Api.dtPrevista := None;
     Correios.Api.mensagem := None; Correios.Api.eventos := Some eventos |}.

(** A description in which a delivered pattern and the pickup-window
    pattern both occur. *)
Definition mixedDescription : string :=
  "Objeto entregue ao destinatário - ref.: Objeto não entregue - prazo de retirada encerrado".

(** Two events of the comparator's test suite. *)
Definition posted : Types.TrackingEvent :=
  EventComparator.mkEvent "Objeto postado" "2024-01-01T10:00:00Z" "São Paulo - SP".
Definition inTransit : Types.TrackingEvent :=
  EventComparator.mkEvent "Objeto em trânsito" "2024-01-02T12:00:00Z" "Curitiba - PR".

(** Environments with and without the carrier's credentials. *)
Definition configuredEnv : TokenService.Env :=
  {| TokenService.CORREIOS_API_KEY := Some "key";
     TokenService.CORREIOS_USERNAME := Some "user";
     TokenService.CORREIOS_POSTAL_CARD := Some "0067599079" |}.
Definition emptyEnv : TokenService.Env :=
  {| TokenService.CORREIOS_API_KEY := None;
     TokenService.CORREIOS_USERNAME := None;
     TokenService.CORREIOS_POSTAL_CARD := None |}.

(** A status-change event on the home-delivery channel. *)
Definition outForDelivery : Publisher.TrackingStatusChangedEvent :=
  {| Publisher.trackingId := "1"; Publisher.trackingCode := exampleCode;
     Publisher.customerName := "Test Customer";
     Publisher.customerEmail := "test@example.com";
     Publisher.products := ["N/A"];
     Publisher.previousStatus := Types.statusText Types.EM_TRANSITO;
     Publisher.newStatus := Types.statusText Types.SAIU_PARA_ENTREGA;
     Publisher.deliveryChannel := Types.channelText Types.DELIVERY;
     Publisher.timestamp := exampleNow;
     Publisher.detail := None; Publisher.originUnit := None;
     Publisher.destinationUnit := None; Publisher.unitAddress := None;
     Publisher.unitCep := None |}.

(** A mail transport that accepts every message. *)
Definition mailOk (data : Publisher.EmailData) : Outcome unit := Return tt.

(** A pending record of the table. *)
Definition record (tid code st : string) (evs : list Types.TrackingEvent)
  : Job.TrackingEntity :=
  {| Job.id := Some tid; Job.orderId := 12345; Job.name := "Test Customer";
     Job.cpf := "12345678901"; Job.email := "test@example.com"; Job.contact := None;
     Job.trackingCode := code; Job.currentStatus := st; Job.category := "pac";
     Job.deliveryChannel := Types.channelText Types.DELIVERY;
     Job.products := []; Job.quantity := 0; Job.events := evs;
     Job.createdAt := Some "2023-01-01T00:00:00.000Z";
     Job.updatedAt := Some "2023-01-01T00:00:00.000Z";
     Job.dtExpected := None; Job.sender := None |}.

(** Four pending records and the table that holds them. *)
Definition pendingRecords : list Job.TrackingEntity :=
  [ record "1" "AA000000001BR" (Types.statusText Types.POSTADO) [];
    record "2" "AA000000002BR" (Types.statusText Types.POSTADO) [];
    record "3" "AA000000003BR" (Types.statusText Types.POSTADO) [];
    record "4" "AA000000004BR" (Types.statusText Types.POSTADO) [] ].

Definition table (rows : list Job.TrackingEntity) : gmap string Job.TrackingEntity :=
  list_to_map (List.map (fun r => (Job.trackingCode r, r)) rows).

(** A lookup that rejects every code with the permanent error (what
    [trackCorreios] never does). *)
Definition rejectingLookup (code : string) : Outcome Correios.CorreiosResponse :=
  Throw notFound.

(** One pending record in transit with one event, and the carrier's view
    of it: a second event, out for delivery. *)
Definition inTransitRecord : Job.TrackingEntity :=
  record "1" exampleCode (Types.statusText Types.EM_TRANSITO) [posted].

Definition movedObject : Correios.Api.Objeto :=
  objectWith [ evento "Objeto saiu para entrega ao destinatário" "2024-01-02T12:00:00Z";
               evento "Objeto postado" "2024-01-01T10:00:00Z" ].

(** The carrier's view when nothing happened: the same event, with blanks
    around its location, another status copy and a structured address. *)
Definition sameEventResponse : Correios.CorreiosResponse :=
  {| Correios.status := Types.statusText Types.EM_TRANSITO;
     Correios.events :=
       [ {| Types.date := "2024-01-01T10:00:00.000Z";
            Types.location := "  São Paulo - SP ";
            Types.status := "POSTADO";
            Types.description := "Objeto postado";
            Types.detail := Some ""; Types.unitType := None;
            Types.originUnit := None; Types.destinationUnit := None;
            Types.unitAddress :=
              Some {| Types.cep := Some "01000-000"; Types.logradouro := None;
                      Types.numero := None; Types.bairro := None;
                      Types.cidade := Some "São Paulo"; Types.uf := Some "SP" |} |} ];
     Correios.dtPrevista := None |}.

(** The lookup of the sources against a carrier that reports the second
    event, and a pass that has just started on the one-row table. *)
Definition movedLookup : string -> Outcome Correios.CorreiosResponse :=
  Correios.trackCorreios (carrierAnswering movedObject) exampleNow.

Definition unchangedLookup (code : string) : Outcome Correios.CorreiosResponse :=
  Return sameEventResponse.

Definition oneRowPass : Job.JobState := Job.startPass (table [inTransitRecord]).

(** The pass over the four pending records while the carrier answers 404. *)
Definition pass404 : Job.JobState :=
  Job.processTrackings (Correios.trackCorreios carrier404 exampleNow) exampleNow
    EventComparator.exampleISO mailOk pendingRecords (table pendingRecords).

End Examples.

(* ===================================================================== *)
(** * domain/value-objects/CustomerCPF.ts                                 *)
(* ===================================================================== *)

Module CustomerCPF.
Import Retry.

(** [\d]: one of the ten ASCII digits. *)
Definition isDigit (c : ascii) : bool :=
  (48 <=? nat_of_ascii c)%nat && (nat_of_ascii c <=? 57)%nat.

(** [cpf.replace(/\D/g, '')] *)
Fixpoint clean (cpf : string) : string :=
  match cpf with
  | EmptyString => EmptyString
  | String c rest => if isDigit c then String c (clean rest) else clean rest
  end.

(** [/^(\d)\1{10}$/.test(s)] *)
Definition allSameDigit (s : string) : bool :=
  match s with
  | EmptyString => false
  | String c rest =>
      isDigit c && Nat.eqb (String.length rest) 10
      && List.forallb (Ascii.eqb c) (list_ascii_of_string rest)
  end.

(** [Number(c)] for a digit [c] (the only characters it is applied to). *)
Definition Number (c : ascii) : Z := Z.of_nat (nat_of_ascii c) - 48.

(** [s.split('').map(Number)] *)
Definition digitsOf (s : string) : list Z := List.map Number (list_ascii_of_string s).

(** [for (let i = 0; i < n; i++) sum += digits[i] * (top - i)], from
    [sum = 0], on an array with at least [n] entries. *)
Definition weightedSum (digits : list Z) (n : nat) (top : Z) : Z :=
  List.fold_left (fun sum i => sum + List.nth i digits 0 * (top - Z.of_nat i))
    (List.seq 0 n) 0.

(** [remainder < 2 ? 0 : 11 - remainder] with [remainder = sum % 11] *)
Definition checkDigit (sum : Z) : Z :=
  let remainder := Z.rem sum 11 in
  if remainder <? 2 then 0 else 11 - remainder.

(** [CustomerCPF.isValid(value)] on a string. *)
Definition isValid (value : string) : bool :=
  if String.eqb value "" then false
  else
    let cleanCpf := clean value in
    if negb (Nat.eqb (String.length cleanCpf) 11) then false
    else if allSameDigit cleanCpf then false
    else
      let digits := digitsOf cleanCpf in
      let firstCheckDigit := checkDigit (weightedSum digits 9 10) in
      if negb (List.nth 9 digits 0 =? firstCheckDigit) then false
      else
        let secondCheckDigit := checkDigit (weightedSum digits 10 11) in
        List.nth 10 digits 0 =? secondCheckDigit.

(** [CustomerCPF.create(value).value] *)
Definition create (value : string) : Outcome string :=
  if negb (isValid value) then Throw (Error "CPF inválido")
  else Return (clean value).

(** [toMasked()] of the object holding [cpf]. *)
Definition toMasked (cpf : string) : string :=
  String.substring 0 3 cpf ++ "." ++ String.substring 3 3 cpf ++ "."
  ++ String.substring 6 3 cpf ++ "-" ++ String.substring 9 (String.length cpf - 9) cpf.

(** The string of [n] copies of [c]. *)
Definition repeated (c : ascii) (n : nat) : string :=
  string_of_list_ascii (List.repeat c n).

End CustomerCPF.

(* ===================================================================== *)
(** * The maintenance script [updateAllEvents]                            *)
(* ===================================================================== *)

Module UpdateAllEvents.
Import Retry Types.

(** What the script does to the world: a write of the repository, and the
    pause it takes after each record it updated. *)
Inductive ScriptEvent :=
| Updated (code : string) (newStatus : string) (newEvents : list TrackingEvent)
          (dt : option string)
| Waited (ms : Z).

(** The [tracking] table, the three counters of the summary and the trace. *)
Record ScriptState := {
  store : gmap string Job.TrackingEntity;
  successCount : Z;
  errorCount : Z;
  updatedCount : Z;
  trace : list ScriptEvent
}.

Section Script.

Variable trackCorreios : string -> Outcome Correios.CorreiosResponse.
Variable now : string.

(** One iteration of the [for ... of] loop. *)
Definition processOne (st : ScriptState) (tracking : Job.TrackingEntity) : ScriptState :=
  let failed (db : gmap string Job.TrackingEntity) :=
    {| store := db; successCount := successCount st;
       errorCount := errorCount st + 1; updatedCount := updatedCount st;
       trace := trace st |} in
  match trackCorreios (Job.trackingCode tracking) with
  | Throw _ => failed (store st)
  | Return trackingData =>
      match Job.updateStatus now (store st) (Job.trackingCode tracking)
              (Correios.status trackingData) (Correios.events trackingData)
              (Correios.dtPrevista trackingData) with
      | (Throw _, db') => failed db'
      | (Return _, db') =>
          {| store := db'; successCount := successCount st + 1;
             errorCount := errorCount st; updatedCount := updatedCount st + 1;
             trace := trace st ++
                      [Updated (Job.trackingCode tracking) (Correios.status trackingData)
                         (Correios.events trackingData) (Correios.dtPrevista trackingData);
                       Waited 500] |}
      end
  end.

(** [updateAllEvents(includeDelivered)] on the records the repository
    returned ([findAll] or [findPendingTrackings]). *)
Definition updateAllEvents (allTrackings : list Job.TrackingEntity)
    (db : gmap string Job.TrackingEntity) : ScriptState :=
  List.fold_left processOne allTrackings
    {| store := db; successCount := 0; errorCount := 0; updatedCount := 0; trace := [] |}.

End Script.

(** The writes in a trace. *)
Definition updates (tr : list ScriptEvent) : list ScriptEvent :=
  List.filter (fun ev => match ev with Updated _ _ _ _ => true | _ => false end) tr.

End UpdateAllEvents.

(* ===================================================================== *)
(** * shared/utils/Logger.ts: [sanitizeContext]                           *)
(* ===================================================================== *)

Module Logger.

(** The values a log context holds, as far as the sanitizer can tell them
    apart. *)
Inductive JsValue :=
| JsString (s : string)
| JsNumber (n : Z)
| JsObject (fields : JsFields)
with JsFields :=
| NoField
| Field (key : string) (value : JsValue) (rest : JsFields).

Definition sensitiveKeys : list string :=
  ["password"; "token"; "cpf"; "email"; "authorization"].

Section Sanitize.

(** [String.prototype.toLowerCase] *)
Variable toLowerCase : string -> string.

(** [sensitiveKeys.some(sensitive => key.toLowerCase().includes(sensitive))] *)
Definition isSensitive (key : string) : bool :=
  List.existsb (fun sensitive => Js.includes (toLowerCase key) sensitive) sensitiveKeys.

(** [sanitizeContext(context)] *)
Definition sanitizeContext (context : option (gmap string JsValue))
  : option (gmap string JsValue) :=
  match context with
  | None => None
  | Some ctx =>
      Some (map_imap (fun key v =>
                        Some (if isSensitive key then JsString "[REDACTED]" else v)) ctx)
  end.

End Sanitize.

End Logger.

(* ===================================================================== *)
(** * Further notions used by the facts below                             *)
(* ===================================================================== *)

Module RetryTrace.
Import Retry.

(** The calls of the [onRetry] observer in a trace, with their arguments. *)
Fixpoint observations (tr : list RetryEvent) : list (Z * Thrown) :=
  match tr with
  | [] => []
  | OnRetry a e :: rest => (a, e) :: observations rest
  | _ :: rest => observations rest
  end.

End RetryTrace.

(* ===================================================================== *)
(** * infrastructure/repositories/DatabaseTrackingRepository.ts           *)
(* ===================================================================== *)

Module Repository.

(** The array [pendingStatuses] of [findPendingTrackings]. *)
Definition pendingStatuses : list string :=
  [ "Etiqueta emitida";
    "Carteiro saiu para coleta do objeto";
    "Objeto postado";
    "Objeto postado após o horário limite da unidade";
    "Objeto coletado";
    "Objeto em transferência - por favor aguarde";
    "Objeto em correção de rota";
    "Objeto ainda não chegou à unidade";
    "Objeto saiu para entrega ao destinatário";
    "Objeto saiu para entrega ao remetente";
    "Objeto aguardando retirada no endereço indicado";
    "Objeto encaminhado para retirada no endereço indicado";
    "Direcionado para entrega em unidade dos Correios a pedido do cliente";
    "Objeto não entregue";
    "Objeto não entregue - endereço incorreto";
    "Objeto não entregue - endereço insuficiente";
    "Objeto não entregue - carteiro não atendido";
    "Objeto não entregue - prazo de retirada encerrado";
    "Tentativa de entrega não efetuada";
    "Saída para entrega cancelada";
    "Inconsistências no endereçamento do objeto";
    "Favor desconsiderar a informação anterior";
    "Solicitação de suspensão de entrega ao destinatário";
    "Objeto será devolvido por solicitação do contratante/remetente";
    "Erro na consulta" ].

(** [.in('current_status', pendingStatuses)] on one row. *)
Definition isPendingStatus (st : string) : bool :=
  List.existsb (String.eqb st) pendingStatuses.

End Repository.

(** Notions about signatures and tables that the statements below use. *)

Module Signature.
Import Types.

(** No ["|"] occurs in the string. *)
Fixpoint pipeFree (s : string) : bool :=
  match s with
  | EmptyString => true
  | String c s' => negb (Ascii.eqb c "|"%char) && pipeFree s'
  end.

(** The first six normalized fields of the event hold no separator (the
    seventh, which ends the signature, may). *)
Definition pipeFreeFields (toISOString : string -> option string) (ev : TrackingEvent)
  : Prop :=
  pipeFree (Js.trim (description ev)) = true /\
  (forall iso, toISOString (date ev) = Some iso -> pipeFree iso = true) /\
  pipeFree (Js.trim (location ev)) = true /\
  pipeFree (Js.trim (Js.orEmpty (detail ev))) = true /\
  pipeFree (Js.trim (Js.orEmpty (unitType ev))) = true /\
  pipeFree (Js.trim (Js.orEmpty (originUnit ev))) = true.

End Signature.

Module Table.
Import Types Job.

(** Everything of a row that [updateStatus] does not write. *)
Definition sameCustomer (a b : TrackingEntity) : Prop :=
  id a = id b /\ orderId a = orderId b /\ name a = name b /\ cpf a = cpf b /\
  email a = email b /\ contact a = contact b /\ trackingCode a = trackingCode b /\
  category a = category b /\ deliveryChannel a = deliveryChannel b /\
  products a = products b /\ quantity a = quantity b /\ createdAt a = createdAt b /\
  sender a = sender b.

(** The same rows under the same keys, up to the columns [updateStatus]
    writes. *)
Definition sameRows (db db' : gmap string TrackingEntity) : Prop :=
  forall k,
    match db !! k, db' !! k with
    | Some a, Some b => sameCustomer a b
    | None, None => True
    | _, _ => False
    end.

End Table.

Module TokenAccounting.
Import TokenService.

(** The ghost counters agree with what happened: no more requests than
    acquisitions, as many when the credentials are configured, and every
    pending acquisition was started by [generateNewToken] under an identity
    already handed out. *)
Definition accounted (env : Env) (s : Service) : Prop :=
  (authRequests s <= created s)%nat /\
  (configured env = true -> authRequests s = created s) /\
  Forall (fun '(q, acq) => (q < created s)%nat /\ acq = startAcquisition env) (pending s).

End TokenAccounting.

Module MoreExamples.
Import Retry.

(** The token service after a first caller missed the empty cache, and
    after the reply to that caller's request arrived at instant 1000. *)
Definition awaiting : TokenService.Service :=
  snd (TokenService.getValidToken Examples.configuredEnv 0 TokenService.initial).

Definition tokenReply : TokenService.AuthReply := TokenService.Json (Some "jwt").

Definition unauthorized : TokenService.AuthReply :=
  TokenService.NotOk 401 "Unauthorized" "invalid credentials".

(** The failure of the token service when the carrier answers 401. *)
Definition tokenFailure : Thrown :=
  Error "Erro ao gerar token: 401 - Unauthorized. Detalhes: invalid credentials".

(** A carrier that is never reached: the token cannot be obtained. *)
Definition carrierWithoutToken (code : string) (i : nat) : Correios.Exchange :=
  Correios.TokenRejected tokenFailure.

(** The posted event as the carrier may send it again: blanks around the
    fields, the instant with its milliseconds. *)
Definition postedCopy : Types.TrackingEvent :=
  EventComparator.mkEvent "  Objeto postado " "2024-01-01T10:00:00.000Z" "São Paulo - SP  ".

(** An event whose date denotes no instant. *)
Definition undated : Types.TrackingEvent :=
  EventComparator.mkEvent "Objeto postado" "not a date" "São Paulo - SP".

(** A record that stores the undated event, and a lookup that reports one
    event for it. *)
Definition undatedRecord : Job.TrackingEntity :=
  Examples.record "1" Examples.exampleCode (Types.statusText Types.POSTADO) [undated].

Definition undatedPass : Job.JobState := Job.startPass (Examples.table [undatedRecord]).

(** The pass of [Examples.oneRowPass] after its record was polled once. *)
Definition afterFirstPoll : Job.JobState :=
  Job.processRecord Examples.movedLookup Examples.exampleNow EventComparator.exampleISO
    Examples.mailOk Examples.oneRowPass Examples.inTransitRecord.

(** The error of a lookup the carrier answers with 503. *)
Definition unavailable : Thrown :=
  ClassifiedError "Erro ao consultar rastreamento: 503 - Service Unavailable" TEMPORARY None.

(** A record whose one stored event carries a date that is no calendar
    date, the carrier's view of it (one event, out for delivery) and the
    pass over the table that holds just this record. *)
Definition misdated : Types.TrackingEvent :=
  EventComparator.mkEvent "Objeto postado" "2024-13-45T10:00:00Z" "São Paulo - SP".

Definition misdatedRecord : Job.TrackingEntity :=
  Examples.record "1" Examples.exampleCode (Types.statusText Types.POSTADO) [misdated].

Definition deliveryObject : Correios.Api.Objeto :=
  Examples.objectWith
    [ Examples.evento "Objeto saiu para entrega ao destinatário" "2024-01-02T12:00:00Z" ].

Definition deliveryLookup : string -> Outcome Correios.CorreiosResponse :=
  Correios.trackCorreios (Examples.carrierAnswering deliveryObject) Examples.exampleNow.

Definition misdatedPass : Job.JobState :=
  Job.processTrackings deliveryLookup Examples.exampleNow EventComparator.exampleISO
    Examples.mailOk [misdatedRecord] (Examples.table [misdatedRecord]).

End MoreExamples.

Local Open Scope list_scope.

(* ===================================================================== *)
(** * Properties of [retryWithBackoff]                                    *)
(* ===================================================================== *)

Section RetryFacts.
Import Retry.
Context {W T : Type}.
Variable fn : W -> Outcome T * W.
Variable options : RetryOptions.

Local Abbreviation maxA := (maxAttemptsOf options).

Lemma worldAfter_succ (k : nat) (w : W) :
  worldAfter fn (S k) w = snd (fn (worldAfter fn k w)).
Proof.
  revert w. induction k as [|k IH]; intros w; [reflexivity|].
  change (worldAfter fn (S (S k)) w) with (worldAfter fn (S k) (snd (fn w))).
  rewrite IH. reflexivity.
Qed.

Lemma failsRetryably_tail (k : nat) (w : W) :
  failsRetryably fn (S k) w -> failsRetryably fn k (snd (fn w)).
Proof.
  intros H i Hi. apply (H (S i)). lia.
Qed.

(** The loop never runs out of fuel once it has one unit per remaining
    iteration. *)
Lemma retryLoop_fuel (fuel : nat) :
  forall attempt lastError w,
    (Z.to_nat (maxA - attempt + 1) <= fuel)%nat ->
    exists r, retryLoop fn options fuel attempt lastError w = Some r.
Proof.
  induction fuel as [|fuel IH]; intros attempt lastError w Hfuel; simpl.
  - destruct (Z.leb_spec attempt maxA); [lia | eauto].
  - destruct (Z.leb_spec attempt maxA); [|eauto].
    destruct (fn w) as [[v|e] w']; [eauto|].
    destruct (isPermanent e); [eauto|].
    destruct (Z.eqb_spec attempt maxA); [eauto|].
    destruct (IH (attempt + 1) e w') as [[[r w''] tr] Hr]; [lia|].
    rewrite Hr. eauto.
Qed.

Lemma retryWithBackoff_fuel (w : W) :
  retryLoop fn options (Z.to_nat maxA) 1 Undefined w = Some (retryWithBackoff fn options w).
Proof.
  unfold retryWithBackoff.
  destruct (retryLoop_fuel (Z.to_nat maxA) 1 Undefined w) as [r Hr]; [lia|].
  rewrite Hr. reflexivity.
Qed.

Lemma skeleton_app (a b : list RetryEvent) : skeleton (a ++ b) = (skeleton a ++ skeleton b)%list.
Proof. unfold skeleton. apply List.filter_app. Qed.

Lemma skeleton_observed (attempt : Z) (e : Thrown) (tr : list RetryEvent) :
  skeleton ((if onRetry options then [OnRetry attempt e] else []) ++ tr) = skeleton tr.
Proof. destruct (onRetry options); reflexivity. Qed.

(** [k] failed attempts in front of whatever the loop does afterwards. *)
Lemma retryLoop_failed_prefix (k : nat) :
  forall fuel attempt lastError w r w' tr,
    failsRetryably fn k w ->
    attempt + Z.of_nat k <= maxA ->
    (forall le, retryLoop fn options fuel (attempt + Z.of_nat k) le (worldAfter fn k w)
                = Some (r, w', tr)) ->
    exists trk,
      retryLoop fn options (k + fuel) attempt lastError w = Some (r, w', trk ++ tr) /\
      skeleton trk = failedAttempts options attempt k.
Proof.
  induction k as [|k IH]; intros fuel attempt lastError w r w' tr Hfail Hle Hrest.
  - exists []. split; [|reflexivity].
    specialize (Hrest lastError). rewrite Z.add_0_r in Hrest. exact Hrest.
  - destruct (Hfail 0%nat) as [e [He Hperm]]; [lia|]. simpl in He.
    destruct (IH fuel (attempt + 1) e (snd (fn w)) r w' tr) as [trk [Hrun Hsk]].
    + apply failsRetryably_tail. exact Hfail.
    + lia.
    + intros le. specialize (Hrest le).
      replace (attempt + 1 + Z.of_nat k) with (attempt + Z.of_nat (S k)) by lia.
      exact Hrest.
    + exists (Attempt attempt :: (if onRetry options then [OnRetry attempt e] else [])
                ++ Sleep (delayOf options attempt) :: trk).
      split.
      * change (S k + fuel)%nat with (S (k + fuel)). simpl.
        destruct (Z.leb_spec attempt maxA); [|lia].
        destruct (fn w) as [[v|e0] w1]; simpl in He; [discriminate|].
        injection He as ->. rewrite Hperm.
        destruct (Z.eqb_spec attempt maxA); [lia|].
        simpl in Hrun. rewrite Hrun.
        rewrite <- !app_assoc. reflexivity.
      * change (skeleton (Attempt attempt :: ?l))
          with (Attempt attempt :: skeleton l).
        rewrite skeleton_observed. simpl. rewrite Hsk. reflexivity.
Qed.

Lemma invocations_skeleton (tr : list RetryEvent) :
  invocations (skeleton tr) = invocations tr.
Proof.
  unfold invocations, skeleton.
  induction tr as [|[a|a e|ms] tr IH]; simpl; auto.
Qed.

Lemma sleeps_skeleton (tr : list RetryEvent) : sleeps (skeleton tr) = sleeps tr.
Proof.
  unfold skeleton.
  induction tr as [|[a|a e|ms] tr IH]; simpl; auto. rewrite IH. reflexivity.
Qed.

Lemma invocations_failedAttempts (a : Z) (k : nat) (rest : list RetryEvent) :
  invocations (failedAttempts options a k ++ rest) = (k + invocations rest)%nat.
Proof.
  revert a. induction k as [|k IH]; intros a; [reflexivity|].
  simpl. unfold invocations in *. simpl. rewrite IH. reflexivity.
Qed.

Lemma sleeps_failedAttempts (a : Z) (k : nat) (rest : list RetryEvent) :
  sleeps (failedAttempts options a k ++ rest)
  = (List.map (delayOf options) (seqZ a (Z.of_nat k)) ++ sleeps rest)%list.
Proof.
  revert a. induction k as [|k IH]; intros a; [reflexivity|].
  rewrite Nat2Z.inj_succ, seqZ_cons by lia.
  simpl. rewrite IH. replace (Z.succ a) with (a + 1) by lia.
  replace (Z.pred (Z.succ (Z.of_nat k))) with (Z.of_nat k) by lia. reflexivity.
Qed.

(** C4 (amended).  For every attempt budget [maxAttempts >= 1]:
    (1) an operation that always fails with a PERMANENT [ClassifiedError]
    is invoked exactly once and that error is rethrown, with no pause;
    (2) an operation that always fails with a non-PERMANENT error is
    invoked exactly [maxAttempts] times, the error of the last invocation
    is rethrown, and between consecutive attempts [k] and [k+1] the loop
    sleeps [min(initialDelay * backoffMultiplier^(k-1), maxDelay)];
    (3) as soon as an attempt succeeds (after [k] retryable failures,
    [k < maxAttempts]) its result is returned and the operation has been
    invoked exactly [k+1] times. *)
Theorem retryWithBackoff_contract (w : W) :
  1 <= maxA ->
  let n := Z.to_nat maxA in
  (alwaysFailsPermanent fn ->
     exists e, fst (fn w) = Throw e /\
       retryWithBackoff fn options w = (Throw e, snd (fn w), [Attempt 1]))
  /\
  (alwaysFailsRetryable fn ->
     exists e tr,
       retryWithBackoff fn options w = (Throw e, worldAfter fn n w, tr) /\
       fst (fn (worldAfter fn (n - 1) w)) = Throw e /\
       invocations tr = n /\
       sleeps tr = List.map (delayOf options) (seqZ 1 (maxA - 1)) /\
       skeleton tr = failedAttempts options 1 (n - 1) ++ [Attempt maxA])
  /\
  (forall k v, (k < n)%nat -> failsRetryably fn k w ->
     fst (fn (worldAfter fn k w)) = Return v ->
     exists tr,
       retryWithBackoff fn options w = (Return v, worldAfter fn (S k) w, tr) /\
       invocations tr = S k /\
       skeleton tr = failedAttempts options 1 k ++ [Attempt (1 + Z.of_nat k)]).
Proof.
  intros Hmax n.
  pose proof (retryWithBackoff_fuel w) as Hrun.
  assert (Hn : Z.of_nat n = maxA) by (unfold n; lia).
  change (Z.to_nat maxA) with n in Hrun. clearbody n.
  repeat split.
  - (* permanent failure *)
    intros Hperm. destruct (Hperm w) as [e [He Hp]]. exists e. split; [exact He|].
    destruct n as [|n']; [lia|]. simpl in Hrun.
    destruct (Z.leb_spec 1 maxA); [|lia].
    destruct (fn w) as [[v|e0] w1]; simpl in He; [discriminate|].
    injection He as ->. rewrite Hp in Hrun. injection Hrun as <-. reflexivity.
  - (* retryable failure, to the last attempt *)
    intros Hretry.
    destruct (Hretry (worldAfter fn (n - 1) w)) as [e [He Hp]].
    destruct (retryLoop_failed_prefix (n - 1) 1 1 Undefined w
                (Throw e) (worldAfter fn n w) [Attempt maxA]) as [trk [Hloop Hsk]].
    + intros i _. apply Hretry.
    + lia.
    + intros le. replace (1 + Z.of_nat (n - 1)) with maxA by lia. simpl.
      destruct (Z.leb_spec maxA maxA); [|lia].
      assert (Hw : worldAfter fn n w = snd (fn (worldAfter fn (n - 1) w)))
        by (rewrite <- worldAfter_succ; f_equal; lia).
      rewrite Hw.
      destruct (fn (worldAfter fn (n - 1) w)) as [[v|e0] w1]; simpl in He; [discriminate|].
      injection He as ->. rewrite Hp, Z.eqb_refl. reflexivity.
    + replace (n - 1 + 1)%nat with n in Hloop by lia.
      rewrite Hloop in Hrun. injection Hrun as Hrun.
      exists e, (trk ++ [Attempt maxA]). repeat split.
      * symmetry. exact Hrun.
      * exact He.
      * rewrite <- invocations_skeleton, skeleton_app, Hsk.
        rewrite invocations_failedAttempts. simpl. unfold invocations. simpl. lia.
      * rewrite <- sleeps_skeleton, skeleton_app, Hsk, sleeps_failedAttempts.
        simpl. rewrite app_nil_r. f_equal. f_equal. lia.
      * rewrite skeleton_app, Hsk. reflexivity.
  - (* success after k retryable failures *)
    intros k v Hk Hfail Hv.
    destruct (retryLoop_failed_prefix k (n - k) 1 Undefined w
                (Return v) (worldAfter fn (S k) w) [Attempt (1 + Z.of_nat k)])
      as [trk [Hloop Hsk]].
    + exact Hfail.
    + lia.
    + intros le. rewrite worldAfter_succ.
      destruct (n - k)%nat as [|m] eqn:Hm; [lia|]. simpl.
      destruct (Z.leb_spec (1 + Z.of_nat k) maxA); [|lia].
      destruct (fn (worldAfter fn k w)) as [[v0|e0] w1]; simpl in Hv; [|discriminate].
      injection Hv as ->. reflexivity.
    + replace (k + (n - k))%nat with n in Hloop by lia.
      rewrite Hloop in Hrun. injection Hrun as Hrun.
      exists (trk ++ [Attempt (1 + Z.of_nat k)]). repeat split.
      * symmetry. exact Hrun.
      * rewrite <- invocations_skeleton, skeleton_app, Hsk.
        rewrite invocations_failedAttempts. unfold invocations. simpl. lia.
      * rewrite skeleton_app, Hsk. reflexivity.
Qed.

End RetryFacts.

(** C4 as stated ("regardless of maxAttempts") fails for an attempt budget of
    zero: the loop body never runs, the operation is not invoked at all, and
    what is thrown is the still undefined [lastError], not the permanent
    error of the operation. *)
Lemma retryWithBackoff_zero_budget :
  Retry.alwaysFailsPermanent Examples.permanentOp /\
  Retry.retryWithBackoff Examples.permanentOp Examples.noAttempts 0%nat
    = (Retry.Throw Retry.Undefined, 0%nat, []) /\
  Retry.invocations (snd (Retry.retryWithBackoff Examples.permanentOp Examples.noAttempts 0%nat))
    <> 1%nat.
Proof.
  split; [|split].
  - intros w. exists Examples.notFound. split; reflexivity.
  - reflexivity.
  - vm_compute. discriminate.
Qed.

(** The contract at the default options: the permanent operation is invoked
    once, the always-failing one three times with pauses of 1000 and 2000 ms,
    and the flaky one returns at its second attempt. *)
Lemma retryWithBackoff_contract_witness :
  Retry.retryWithBackoff Examples.permanentOp Examples.defaults 0%nat
    = (Retry.Throw Examples.notFound, 1%nat, [Retry.Attempt 1]) /\
  (exists tr,
     Retry.retryWithBackoff Examples.failingOp Examples.defaults 0%nat
       = (Retry.Throw Examples.persistent, 3%nat, tr) /\
     Retry.invocations tr = 3%nat /\ Retry.sleeps tr = [1000; 2000]) /\
  (exists tr,
     Retry.retryWithBackoff Examples.flakyOp Examples.defaults 0%nat
       = (Retry.Return "success", 2%nat, tr) /\
     Retry.invocations tr = 2%nat).
Proof.
  split; [|split].
  - destruct (retryWithBackoff_contract Examples.permanentOp Examples.defaults 0%nat)
      as [H _]; [vm_compute; discriminate|].
    destruct H as [e [He Hr]].
    + intros w. exists Examples.notFound. split; reflexivity.
    + simpl in He. injection He as <-. exact Hr.
  - destruct (retryWithBackoff_contract Examples.failingOp Examples.defaults 0%nat)
      as [_ [H _]]; [vm_compute; discriminate|].
    destruct H as [e [tr [Hr [He [Hi [Hs _]]]]]].
    + intros w. exists Examples.persistent. split; reflexivity.
    + simpl in He. injection He as <-. exists tr. repeat split; assumption.
  - destruct (retryWithBackoff_contract Examples.flakyOp Examples.defaults 0%nat)
      as [_ [_ H]]; [vm_compute; discriminate|].
    destruct (H 1%nat "success") as [tr [Hr [Hi _]]].
    + vm_compute. lia.
    + intros i Hi. assert (i = 0%nat) as -> by lia.
      exists (Retry.Error "Error 1"). split; reflexivity.
    + reflexivity.
    + exists tr. split; assumption.
Defined.

(* ===================================================================== *)
(** * Properties of [trackCorreios]                                       *)
(* ===================================================================== *)

Section CorreiosFacts.
Import Retry Correios.
Variable carrier : string -> nat -> Exchange.
Variable now : string.

Lemma temporary_not_permanent (e : Thrown) : isTemporary e = true -> isPermanent e = false.
Proof. destruct e as [m [|] o| | |]; simpl; congruence. Qed.

Lemma permanent_not_temporary (e : Thrown) : isPermanent e = true -> isTemporary e = false.
Proof. destruct e as [m [|] o| | |]; simpl; congruence. Qed.

(** [normalize] only ever throws the plain "not found" error. *)
Lemma normalize_throws (data : Api.CorreiosApiResponse) (e : Thrown) :
  normalize now data = Throw e -> e = Error "Objeto não encontrado".
Proof.
  unfold normalize. destruct (Api.objetos data) as [[|objeto others]|].
  - congruence.
  - destruct (Js.truthy (Api.mensagem objeto)); [discriminate|].
    destruct (Nat.eqb _ 0); discriminate.
  - congruence.
Qed.

(** The retried lookup, attempt by attempt. *)
Lemma lookup_retried (code : string) :
  fst (fst (retryWithBackoff (lookup carrier code) trackOptions 0%nat)) =
  match fetchTrackingData (carrier code 0%nat) with
  | Return v => Return v
  | Throw e1 =>
      if isPermanent e1 then Throw e1
      else match fetchTrackingData (carrier code 1%nat) with
           | Return v => Return v
           | Throw e2 =>
               if isPermanent e2 then Throw e2
               else match fetchTrackingData (carrier code 2%nat) with
                    | Return v => Return v
                    | Throw e3 => Throw e3
                    end
           end
  end.
Proof.
  unfold retryWithBackoff, trackOptions, lookup. simpl.
  destruct (fetchTrackingData (carrier code 0%nat)) as [v|e1]; [reflexivity|].
  destruct (isPermanent e1); [reflexivity|].
  destruct (fetchTrackingData (carrier code 1%nat)) as [v|e2]; [reflexivity|].
  destruct (isPermanent e2); [reflexivity|].
  destruct (fetchTrackingData (carrier code 2%nat)) as [v|e3]; [reflexivity|].
  destruct (isPermanent e3); reflexivity.
Qed.

Lemma tryBlock_unfold (code : string) :
  tryBlock carrier now code =
  match fst (fst (retryWithBackoff (lookup carrier code) trackOptions 0%nat)) with
  | Return data => normalize now data
  | Throw e => Throw e
  end.
Proof.
  unfold tryBlock.
  destruct (retryWithBackoff (lookup carrier code) trackOptions 0%nat) as [[[d|e] w] tr];
    reflexivity.
Qed.

Lemma tryBlock_temporary (code : string) (e : Thrown) :
  isTemporary e = true ->
  (tryBlock carrier now code = Throw e <-> exhausted carrier code e).
Proof.
  intros Htemp. rewrite tryBlock_unfold, lookup_retried. unfold exhausted.
  pose proof (temporary_not_permanent e Htemp) as Hnp.
  split.
  - destruct (fetchTrackingData (carrier code 0%nat)) as [v|e1].
    { intros H. apply normalize_throws in H. subst e. discriminate. }
    destruct (isPermanent e1) eqn:H1.
    { intros H. injection H as ->. congruence. }
    destruct (fetchTrackingData (carrier code 1%nat)) as [v|e2].
    { intros H. apply normalize_throws in H. subst e. discriminate. }
    destruct (isPermanent e2) eqn:H2.
    { intros H. injection H as ->. congruence. }
    destruct (fetchTrackingData (carrier code 2%nat)) as [v|e3].
    { intros H. apply normalize_throws in H. subst e. discriminate. }
    intros H. injection H as ->. exists e1, e2. auto.
  - intros [e1 [e2 [-> [H1 [-> [H2 ->]]]]]]. rewrite H1, H2. reflexivity.
Qed.

Lemma exhausted_tryBlock (code : string) (e : Thrown) :
  exhausted carrier code e -> tryBlock carrier now code = Throw e.
Proof.
  intros [e1 [e2 [H0 [H1 [H2 [H3 H4]]]]]].
  rewrite tryBlock_unfold, lookup_retried, H0, H1, H2, H3, H4. reflexivity.
Qed.

(** C1.  [trackCorreios] rejects with [e] exactly when [e] is a TEMPORARY
    [ClassifiedError] and all three attempts of the lookup failed, the last
    one with [e].  Any other failure of the [try] block is not propagated:
    the call resolves to the result [lookupError], whose status is "Erro na
    consulta" and which carries exactly one event.  This is so in particular
    for a PERMANENT error of the first attempt and for an unclassified error
    that is still there at the third. *)
Theorem trackCorreios_error_policy (code : string) :
  (forall e, trackCorreios carrier now code = Throw e <->
             isTemporary e = true /\ exhausted carrier code e) /\
  (forall e, tryBlock carrier now code = Throw e -> isTemporary e = false ->
             trackCorreios carrier now code = Return (lookupError now e) /\
             status (lookupError now e) = Types.statusText Types.ERRO_CONSULTA /\
             List.length (events (lookupError now e)) = 1%nat) /\
  (forall e, fetchTrackingData (carrier code 0%nat) = Throw e -> isPermanent e = true ->
             trackCorreios carrier now code = Return (lookupError now e)) /\
  (forall e, exhausted carrier code e -> isTemporary e = false ->
             trackCorreios carrier now code = Return (lookupError now e)).
Proof.
  split; [|split; [|split]].
  - intros e. unfold trackCorreios. split.
    + destruct (tryBlock carrier now code) as [r|e'] eqn:Htry; [discriminate|].
      destruct (isTemporary e') eqn:Ht; [|discriminate].
      intros H. injection H as ->. split; [exact Ht|].
      apply tryBlock_temporary; assumption.
    + intros [Ht Hex]. apply (tryBlock_temporary code e Ht) in Hex.
      rewrite Hex, Ht. reflexivity.
  - intros e Htry Ht. unfold trackCorreios. rewrite Htry, Ht. repeat split.
  - intros e Hf Hp. unfold trackCorreios.
    rewrite tryBlock_unfold, lookup_retried, Hf, Hp.
    rewrite (permanent_not_temporary e Hp). reflexivity.
  - intros e Hex Ht. unfold trackCorreios.
    rewrite (exhausted_tryBlock code e Hex), Ht. reflexivity.
Qed.

Lemma firstMatch_none (rules : list (string * string)) (description : string) :
  Forall (fun rule => Js.includes description (fst rule) = false) rules ->
  firstMatch rules description = None.
Proof.
  induction 1 as [|[pattern st] rules Hp _ IH]; [reflexivity|].
  simpl in *. rewrite Hp. exact IH.
Qed.

(** The chain is the first-match reading of the table. *)
Lemma determineStatus_table (description : string) :
  determineStatus description
  = default (Types.statusText Types.EM_TRANSITO) (firstMatch statusRules description).
Proof.
  unfold determineStatus, statusRules. cbn [firstMatch Types.statusText].
  repeat match goal with
  | |- context [Js.includes description ?p] =>
      destruct (Js.includes description p); [reflexivity|]
  end.
  reflexivity.
Qed.

(** C3 (amended).  The status is a function of the description of the
    latest event, the first rule of the ordered table whose pattern occurs
    in it: a description containing the pickup-window pattern and none of
    the three delivered patterns checked before it gets the
    pickup-window-expired status; a description containing the
    pickup-window pattern never gets the generic not-delivered status; a
    description containing "Objeto entregue ao destinatário" gets the
    delivered-to-recipient status; a description matching no pattern gets
    the generic in-transit status; and in each case the normalization
    returns a result. *)
Theorem determineStatus_first_match (description : string) :
  determineStatus description
  = default (Types.statusText Types.EM_TRANSITO) (firstMatch statusRules description) /\
  (Js.includes description (Types.statusText Types.NAO_ENTREGUE_PRAZO_ENCERRADO) = true ->
   Js.includes description (Types.statusText Types.ENTREGUE) = false ->
   Js.includes description (Types.statusText Types.ENTREGUE_REMETENTE) = false ->
   Js.includes description (Types.statusText Types.ENTREGUE_CAIXA_INTELIGENTE) = false ->
   determineStatus description = Types.statusText Types.NAO_ENTREGUE_PRAZO_ENCERRADO) /\
  (Js.includes description (Types.statusText Types.NAO_ENTREGUE_PRAZO_ENCERRADO) = true ->
   determineStatus description <> Types.statusText Types.NAO_ENTREGUE) /\
  (Js.includes description (Types.statusText Types.ENTREGUE) = true ->
   determineStatus description = Types.statusText Types.ENTREGUE) /\
  (Forall (fun rule => Js.includes description (fst rule) = false) statusRules ->
   determineStatus description = Types.statusText Types.EM_TRANSITO) /\
  (forall data objeto others evento rest,
     Api.objetos data = Some (objeto :: others) ->
     Js.truthy (Api.mensagem objeto) = false ->
     Api.eventos objeto = Some (evento :: rest) ->
     Api.descricao evento = description ->
     normalize now data
     = Return {| status := determineStatus description;
                 events := List.map mapEvento (evento :: rest);
                 dtPrevista := Api.dtPrevista objeto |}).
Proof.
  split; [apply determineStatus_table|].
  split.
  { cbn [Types.statusText]. intros H H1 H2 H3. unfold determineStatus.
    rewrite H1, H2, H3, H. reflexivity. }
  split.
  { cbn [Types.statusText]. intros H. unfold determineStatus.
    destruct (Js.includes description "Objeto entregue ao destinatário"); [discriminate|].
    destruct (Js.includes description "Objeto entregue ao remetente"); [discriminate|].
    destruct (Js.includes description "Objeto entregue na Caixa de Correios Inteligente");
      [discriminate|].
    rewrite H. discriminate. }
  split.
  { cbn [Types.statusText]. intros H. unfold determineStatus. rewrite H. reflexivity. }
  split.
  { intros H. rewrite determineStatus_table, (firstMatch_none _ _ H). reflexivity. }
  intros data objeto others evento rest Hobj Hmsg Hev Hdesc.
  unfold normalize. rewrite Hobj, Hmsg, Hev. simpl. rewrite Hdesc. reflexivity.
Qed.

(** C9.  Once the retried lookup has produced the carrier's answer: if its
    first object carries a message (the carrier's way of reporting that it
    does not know the object), [trackCorreios] resolves to the status
    "Objeto não encontrado" with exactly one synthesized event; if the
    object carries no message and no event, it resolves to "Etiqueta
    emitida" with an empty event list. *)
Theorem trackCorreios_normalization (code : string) (data : Api.CorreiosApiResponse)
    (objeto : Api.Objeto) (others : list Api.Objeto) :
  fst (fst (retryWithBackoff (lookup carrier code) trackOptions 0%nat)) = Return data ->
  Api.objetos data = Some (objeto :: others) ->
  (Js.truthy (Api.mensagem objeto) = true ->
   trackCorreios carrier now code
   = Return {| status := "Objeto não encontrado";
               events := [ {| Types.description := Js.orEmpty (Api.mensagem objeto);
                              Types.date := now;
                              Types.status := "Não encontrado";
                              Types.location := "Correios";
                              Types.detail := None; Types.unitType := None;
                              Types.originUnit := None; Types.destinationUnit := None;
                              Types.unitAddress := None |} ];
               dtPrevista := None |}) /\
  (Js.truthy (Api.mensagem objeto) = false ->
   Api.eventos objeto = None \/ Api.eventos objeto = Some [] ->
   trackCorreios carrier now code
   = Return {| status := Types.statusText Types.ETIQUETA_EMITIDA;
               events := [];
               dtPrevista := Api.dtPrevista objeto |}).
Proof.
  intros Hlookup Hobj. unfold trackCorreios. rewrite tryBlock_unfold, Hlookup.
  unfold normalize. rewrite Hobj. split.
  - intros Hmsg. rewrite Hmsg. reflexivity.
  - intros Hmsg Hev. rewrite Hmsg. destruct Hev as [-> | ->]; reflexivity.
Qed.

End CorreiosFacts.

(** C1 at two carriers: one that answers 503 to every request (the error is
    rethrown) and one that answers 404 (a lookup-error result is returned). *)
Lemma trackCorreios_error_policy_witness :
  Correios.trackCorreios Examples.carrier503 Examples.exampleNow Examples.exampleCode
    = Retry.Throw (Retry.ClassifiedError
                     "Erro ao consultar rastreamento: 503 - Service Unavailable"
                     Retry.TEMPORARY None) /\
  Correios.trackCorreios Examples.carrier404 Examples.exampleNow Examples.exampleCode
    = Retry.Return (Correios.lookupError Examples.exampleNow
                      (Retry.ClassifiedError
                         "Erro ao consultar rastreamento: 404 - Not Found"
                         Retry.PERMANENT None)).
Proof.
  split.
  - apply (proj1 (trackCorreios_error_policy Examples.carrier503 Examples.exampleNow
                    Examples.exampleCode)).
    split; [reflexivity|].
    eexists _, _. repeat split; reflexivity.
  - apply (proj1 (proj2 (proj2 (trackCorreios_error_policy Examples.carrier404
                                  Examples.exampleNow Examples.exampleCode)))); reflexivity.
Defined.

(** C3 as stated fails: the description below contains the pickup-window
    pattern, yet the delivered-to-recipient rule, which comes first, wins. *)
Lemma determineStatus_expired_shadowed :
  Js.includes Examples.mixedDescription
    (Types.statusText Types.NAO_ENTREGUE_PRAZO_ENCERRADO) = true /\
  Correios.determineStatus Examples.mixedDescription = Types.statusText Types.ENTREGUE /\
  Correios.determineStatus Examples.mixedDescription
    <> Types.statusText Types.NAO_ENTREGUE_PRAZO_ENCERRADO.
Proof.
  split; [vm_compute; reflexivity|]. split; [vm_compute; reflexivity|].
  vm_compute. discriminate.
Qed.

(** C3 (amended) at the description of the spec's scenario. *)
Lemma determineStatus_first_match_witness :
  Correios.determineStatus "Objeto não entregue - prazo de retirada encerrado"
    = Types.statusText Types.NAO_ENTREGUE_PRAZO_ENCERRADO /\
  Correios.determineStatus "Objeto não entregue - prazo de retirada encerrado"
    <> Types.statusText Types.NAO_ENTREGUE.
Proof.
  pose proof (determineStatus_first_match Examples.exampleNow
                "Objeto não entregue - prazo de retirada encerrado") as [_ [H1 [H2 _]]].
  split.
  - apply H1; vm_compute; reflexivity.
  - apply H2; vm_compute; reflexivity.
Defined.

(** C9 at a carrier that does not know the object and at one that knows it
    without any event. *)
Lemma trackCorreios_normalization_witness :
  (exists ev,
     Correios.trackCorreios (Examples.carrierAnswering Examples.unknownObject)
       Examples.exampleNow Examples.exampleCode
     = Retry.Return {| Correios.status := "Objeto não encontrado"; Correios.events := [ev];
                       Correios.dtPrevista := None |}) /\
  Correios.trackCorreios (Examples.carrierAnswering Examples.freshObject)
    Examples.exampleNow Examples.exampleCode
  = Retry.Return {| Correios.status := "Etiqueta emitida"; Correios.events := [];
                    Correios.dtPrevista := Some "2024-01-10T23:59:59" |}.
Proof.
  split.
  - eexists.
    apply (proj1 (trackCorreios_normalization
                    (Examples.carrierAnswering Examples.unknownObject) Examples.exampleNow
                    Examples.exampleCode (Examples.answer Examples.unknownObject)
                    Examples.unknownObject [] eq_refl eq_refl)).
    reflexivity.
  - apply (proj2 (trackCorreios_normalization
                    (Examples.carrierAnswering Examples.freshObject) Examples.exampleNow
                    Examples.exampleCode (Examples.answer Examples.freshObject)
                    Examples.freshObject [] eq_refl eq_refl)).
    + reflexivity.
    + right. reflexivity.
Defined.

(* ===================================================================== *)
(** * Properties of [hasNewEvents]                                        *)
(* ===================================================================== *)

Section ComparatorFacts.
Import Retry Types EventComparator.
Variable toISOString : string -> option string.

Local Abbreviation signature := (createEventSignature toISOString).
Local Abbreviation sigs := (signatures toISOString).

Lemma signatures_cons (ev : TrackingEvent) (rest : list TrackingEvent) (l : list string) :
  sigs (ev :: rest) = Return l ->
  exists s l', l = s :: l' /\ signature ev = Return s /\ sigs rest = Return l'.
Proof.
  simpl. destruct (signature ev) as [s|e]; [|discriminate].
  destruct (sigs rest) as [l'|e]; [|discriminate].
  intros H. injection H as <-. eauto.
Qed.

Lemma signatures_length (evs : list TrackingEvent) (l : list string) :
  sigs evs = Return l -> List.length l = List.length evs.
Proof.
  revert l. induction evs as [|ev rest IH]; intros l H.
  - injection H as <-. reflexivity.
  - apply signatures_cons in H as [s [l' [-> [_ H]]]]. simpl. f_equal. auto.
Qed.

(** The loop over the new events answers whether one of their signatures
    is missing from the set. *)
Lemma anyMissing_signatures (set : gset string) (newEvents : list TrackingEvent)
    (sn : list string) :
  sigs newEvents = Return sn ->
  exists b, anyMissing toISOString set newEvents = Return b /\
            (b = true <-> exists s, s ∈ sn /\ s ∉ set).
Proof.
  revert sn. induction newEvents as [|ev rest IH]; intros sn H.
  - injection H as <-. exists false. split; [reflexivity|].
    split; [discriminate|]. intros [s [Hs _]]. inversion Hs.
  - apply signatures_cons in H as [s [l' [-> [Hs Hrest]]]].
    simpl. rewrite Hs. destruct (IH l' Hrest) as [b [Hb Hiff]].
    destruct (bool_decide (s ∈ set)) eqn:Hin.
    + apply bool_decide_eq_true in Hin. exists b. split; [exact Hb|].
      rewrite Hiff. split.
      * intros [x [Hx Hnx]]. exists x. split; [right; exact Hx | exact Hnx].
      * intros [x [Hx Hnx]]. apply elem_of_cons in Hx as [-> | Hx]; [contradiction|].
        eauto.
    + apply bool_decide_eq_false in Hin. exists true. split; [reflexivity|].
      split; [|reflexivity]. intros _. exists s. split; [left | exact Hin].
Qed.

(** With equal lengths and every date denoting an instant, the answer is
    whether some new-side signature is absent from the old side. *)
Lemma hasNewEvents_equal_length (oldEvents newEvents : list TrackingEvent)
    (so sn : list string) :
  sigs oldEvents = Return so -> sigs newEvents = Return sn ->
  List.length oldEvents = List.length newEvents ->
  exists b, hasNewEvents toISOString oldEvents newEvents = Return b /\
            (b = true <-> exists s, s ∈ sn /\ s ∉ so).
Proof.
  intros Ho Hn Hlen. unfold hasNewEvents.
  rewrite Hlen, Nat.eqb_refl. simpl.
  destruct (Nat.eqb_spec (List.length newEvents) 0) as [H0|H0].
  - exists false. split; [reflexivity|]. split; [discriminate|].
    intros [s [Hs _]]. apply signatures_length in Hn.
    destruct sn; [inversion Hs | simpl in Hn; lia].
  - rewrite Ho.
    destruct (anyMissing_signatures (list_to_set so) newEvents sn Hn) as [b [Hb Hiff]].
    exists b. split; [exact Hb|]. rewrite Hiff.
    split; intros [s [Hs Hns]]; exists s; (split; [exact Hs|]);
      rewrite elem_of_list_to_set in *; exact Hns.
Qed.

Lemma hasNewEvents_length (oldEvents newEvents : list TrackingEvent) :
  List.length oldEvents <> List.length newEvents ->
  hasNewEvents toISOString oldEvents newEvents = Return true.
Proof.
  intros Hlen. unfold hasNewEvents.
  destruct (Nat.eqb_spec (List.length oldEvents) (List.length newEvents)); [contradiction|].
  reflexivity.
Qed.

Lemma signature_same_fields (a b : TrackingEvent) :
  sameNormalizedFields toISOString a b ->
  signature a = signature b /\ exists s, signature a = Return s.
Proof.
  intros (Hd & [iso Hiso] & Hdate & Hl & Hdt & Hu & Ho & Hde).
  unfold createEventSignature. rewrite <- Hdate, Hiso.
  rewrite Hd, Hl, Hdt, Hu, Ho, Hde. eauto.
Qed.

Lemma signatures_same_fields (oldEvents newEvents : list TrackingEvent) :
  Forall2 (sameNormalizedFields toISOString) oldEvents newEvents ->
  exists l, sigs oldEvents = Return l /\ sigs newEvents = Return l.
Proof.
  induction 1 as [|a b old new Hab _ [l [Ho Hn]]].
  - exists []. split; reflexivity.
  - destruct (signature_same_fields a b Hab) as [Heq [s Hs]].
    exists (s :: l). simpl. rewrite <- Heq, Hs, Ho, Hn. split; reflexivity.
Qed.

Lemma hasNewEvents_same_fields (oldEvents newEvents : list TrackingEvent) :
  Forall2 (sameNormalizedFields toISOString) oldEvents newEvents ->
  hasNewEvents toISOString oldEvents newEvents = Return false.
Proof.
  intros H. destruct (signatures_same_fields _ _ H) as [l [Ho Hn]].
  destruct (hasNewEvents_equal_length _ _ l l Ho Hn) as [b [Hb Hiff]].
  - eapply Forall2_length; eassumption.
  - rewrite Hb. destruct b; [|reflexivity].
    destruct (proj1 Hiff eq_refl) as [s [Hs Hns]]. contradiction.
Qed.

(** C5 (amended).  Lists of different lengths are reported as new
    information.  For lists of equal length whose dates all denote
    instants: if the two signature sets are equal the answer is [false];
    and the answer is [true] exactly when some signature of the new side is
    absent from the old side (a signature that only the old side has is not
    looked for). *)
Theorem hasNewEvents_signature_sets :
  (forall oldEvents newEvents,
     List.length oldEvents <> List.length newEvents ->
     hasNewEvents toISOString oldEvents newEvents = Return true) /\
  (forall oldEvents newEvents so sn,
     sigs oldEvents = Return so -> sigs newEvents = Return sn ->
     List.length oldEvents = List.length newEvents ->
     list_to_set so =@{gset string} list_to_set sn ->
     hasNewEvents toISOString oldEvents newEvents = Return false) /\
  (forall oldEvents newEvents so sn,
     sigs oldEvents = Return so -> sigs newEvents = Return sn ->
     List.length oldEvents = List.length newEvents ->
     (hasNewEvents toISOString oldEvents newEvents = Return true <->
      exists s, s ∈ sn /\ s ∉ so)).
Proof.
  split; [exact hasNewEvents_length|]. split.
  - intros old new so sn Ho Hn Hlen Hset.
    destruct (hasNewEvents_equal_length old new so sn Ho Hn Hlen) as [b [Hb Hiff]].
    rewrite Hb. destruct b; [|reflexivity].
    destruct (proj1 Hiff eq_refl) as [s [Hs Hns]]. exfalso. apply Hns.
    apply (elem_of_list_to_set (C := gset string)). rewrite Hset.
    apply elem_of_list_to_set. exact Hs.
  - intros old new so sn Ho Hn Hlen.
    destruct (hasNewEvents_equal_length old new so sn Ho Hn Hlen) as [b [Hb Hiff]].
    rewrite Hb, <- Hiff. split; [congruence | intros ->; reflexivity].
Qed.
End ComparatorFacts.

(** ** What equal signatures mean *)

Section SignatureInjectivity.
Import Retry Types EventComparator Signature.
Variable toISOString : string -> option string.

Lemma separator_inj (a a' r r' : string) :
  pipeFree a = true -> pipeFree a' = true ->
  (a ++ "|" ++ r)%string = (a' ++ "|" ++ r')%string -> a = a' /\ r = r'.
Proof.
  revert a'. induction a as [|c a IH]; intros [|c' a'] Ha Ha' Heq; simpl in *.
  - injection Heq as Heq. auto.
  - injection Heq as Hc _. subst c'. rewrite Ascii.eqb_refl in Ha'. discriminate.
  - injection Heq as Hc _. subst c. rewrite Ascii.eqb_refl in Ha. discriminate.
  - injection Heq as Hc Heq. subst c'.
    apply andb_true_iff in Ha as [_ Ha]. apply andb_true_iff in Ha' as [_ Ha'].
    destruct (IH a' Ha Ha' Heq) as [-> ->]. auto.
Qed.

(** On events whose fields hold no separator the signature is injective. *)
Lemma signature_inj (a b : TrackingEvent) (s : string) :
  pipeFreeFields toISOString a -> pipeFreeFields toISOString b ->
  createEventSignature toISOString a = Return s ->
  createEventSignature toISOString b = Return s ->
  sameNormalizedFields toISOString a b.
Proof.
  intros (Ha1 & Ha2 & Ha3 & Ha4 & Ha5 & Ha6) (Hb1 & Hb2 & Hb3 & Hb4 & Hb5 & Hb6).
  unfold createEventSignature.
  destruct (toISOString (date a)) as [isoa|] eqn:Hda; [|discriminate].
  destruct (toISOString (date b)) as [isob|] eqn:Hdb; [|discriminate].
  intros Hsa Hsb. injection Hsa as Hsa. injection Hsb as Hsb. rewrite <- Hsb in Hsa.
  clear Hsb.
  apply separator_inj in Hsa as [H1 Hsa]; [|assumption..].
  apply separator_inj in Hsa as [H2 Hsa]; [|auto..].
  apply separator_inj in Hsa as [H3 Hsa]; [|assumption..].
  apply separator_inj in Hsa as [H4 Hsa]; [|assumption..].
  apply separator_inj in Hsa as [H5 Hsa]; [|assumption..].
  apply separator_inj in Hsa as [H6 H7]; [|assumption..].
  unfold sameNormalizedFields. rewrite Hda, Hdb, H2. repeat split; eauto.
Qed.

End SignatureInjectivity.

(** C5 as stated fails: the two lists have the same length and the signature
    of the second old event is absent from the new side, yet the answer is
    [false], because every new-side signature is known on the old side. *)
Lemma hasNewEvents_old_side_only :
  List.length [Examples.posted; Examples.inTransit]
    = List.length [Examples.posted; Examples.posted] /\
  (exists s so sn,
     EventComparator.signatures EventComparator.exampleISO [Examples.posted; Examples.inTransit]
       = Retry.Return so /\
     EventComparator.signatures EventComparator.exampleISO [Examples.posted; Examples.posted]
       = Retry.Return sn /\
     s ∈ so /\ s ∉ sn) /\
  EventComparator.hasNewEvents EventComparator.exampleISO
    [Examples.posted; Examples.inTransit] [Examples.posted; Examples.posted]
    = Retry.Return false.
Proof.
  split; [reflexivity|]. split; [|vm_compute; reflexivity].
  exists "Objeto em trânsito|2024-01-02T12:00:00.000Z|Curitiba - PR||||".
  eexists _, _. split; [vm_compute; reflexivity|]. split; [vm_compute; reflexivity|].
  split.
  - right. left.
  - intros H. repeat (apply elem_of_cons in H as [H|H]; [discriminate|]). inversion H.
Qed.

(** C5 (amended) on the reordered lists of the test suite. *)
Lemma hasNewEvents_signature_sets_witness :
  EventComparator.hasNewEvents EventComparator.exampleISO
    [Examples.posted; Examples.inTransit] [Examples.inTransit; Examples.posted]
    = Retry.Return false.
Proof.
  eapply (proj1 (proj2 (hasNewEvents_signature_sets EventComparator.exampleISO))).
  - vm_compute. reflexivity.
  - vm_compute. reflexivity.
  - reflexivity.
  - apply set_eq. intros x. rewrite !elem_of_list_to_set, !elem_of_cons. tauto.
Defined.

(* ===================================================================== *)
(** * Properties of [publish]                                             *)
(* ===================================================================== *)

Section PublisherFacts.
Import Retry Types Publisher.
Variable sendTrackingEmail : EmailData -> Outcome unit.

Lemma isSilent_In (st : string) : isSilent st = true <-> In st SILENT_STATUSES.
Proof.
  unfold isSilent. rewrite existsb_exists. split.
  - intros [x [Hx Heq]]. apply String.eqb_eq in Heq. subst. exact Hx.
  - intros H. exists st. split; [exact H | apply String.eqb_refl].
Qed.

(** C6.  [publish] sends nothing when the delivery channel is
    pickup-in-point, whatever the status; it sends nothing when the new
    status is one of [SILENT_STATUSES]; for every other event it hands the
    message built from the event to the mail transport, once. *)
Theorem publish_policy (event : TrackingStatusChangedEvent) :
  (deliveryChannel event = channelText PICKUP_IN_POINT ->
   publish sendTrackingEmail event = []) /\
  (In (newStatus event) SILENT_STATUSES ->
   publish sendTrackingEmail event = []) /\
  (deliveryChannel event <> channelText PICKUP_IN_POINT ->
   ~ In (newStatus event) SILENT_STATUSES ->
   emailsSent (publish sendTrackingEmail event) = [emailData event] /\
   List.head (publish sendTrackingEmail event) = Some (SendTrackingEmail (emailData event))).
Proof.
  unfold publish. split; [|split].
  - intros ->. rewrite String.eqb_refl. reflexivity.
  - intros H. apply isSilent_In in H. rewrite H.
    destruct (String.eqb _ _); reflexivity.
  - intros Hch Hs.
    destruct (String.eqb_spec (deliveryChannel event) (channelText PICKUP_IN_POINT));
      [contradiction|].
    destruct (isSilent (newStatus event)) eqn:Hsil;
      [apply isSilent_In in Hsil; contradiction|].
    destruct (sendTrackingEmail (emailData event)); split; reflexivity.
Qed.

End PublisherFacts.

(* ===================================================================== *)
(** * Properties of [getValidToken]                                       *)
(* ===================================================================== *)

Section TokenServiceFacts.
Import Retry TokenService.
Variable env : Env.

(** A caller that misses the cache while an acquisition is pending gets
    the pending promise and changes nothing. *)
Lemma getValidToken_joins (s : Service) (now : Z) (p : nat) :
  cacheValid s now = false -> tokenPromise s = Some p ->
  getValidToken env now s = (Awaits p, s).
Proof.
  intros Hmiss Hp. unfold getValidToken. rewrite Hmiss, Hp. reflexivity.
Qed.

(** A caller that misses the cache while nothing is pending starts the
    acquisition. *)
Lemma getValidToken_starts (s : Service) (now : Z) :
  cacheValid s now = false -> tokenPromise s = None ->
  getValidToken env now s =
  (Awaits (created s),
   {| tokenCache := tokenCache s; tokenPromise := Some (created s);
      pending := (created s, startAcquisition env) :: pending s;
      created := S (created s);
      authRequests := (authRequests s + if configured env then 1 else 0)%nat |}).
Proof.
  intros Hmiss Hp. unfold getValidToken. rewrite Hmiss, Hp.
  unfold startAcquisition. destruct (configured env); reflexivity.
Qed.

Lemma callAll_join (nows : list Z) (s : Service) (p : nat) :
  tokenPromise s = Some p ->
  Forall (fun t => cacheValid s t = false) nows ->
  callAll env nows s = (List.map (fun _ => Awaits p) nows, s).
Proof.
  intros Hp Hmiss. induction Hmiss as [|now nows Hnow _ IH]; [reflexivity|].
  simpl. rewrite (getValidToken_joins s now p Hnow Hp), IH. reflexivity.
Qed.

(** C2 (amended).  From a state with no acquisition pending, let any
    number of callers (at least one) arrive at instants at which the cache
    misses, with nothing settling in between.  Exactly one acquisition is
    started; every caller, the first included, awaits its promise; the
    number of requests sent upstream grows by exactly one when the three
    credentials are configured, and by none when one is missing (the shared
    acquisition then fails before any request); and when that acquisition
    settles it yields one outcome for all of them and clears the in-flight
    marker. *)
Theorem getValidToken_single_flight (s : Service) (now : Z) (nows : list Z) :
  tokenPromise s = None ->
  Forall (fun t => cacheValid s t = false) (now :: nows) ->
  exists s',
    callAll env (now :: nows) s
      = (List.map (fun _ => Awaits (created s)) (now :: nows), s') /\
    tokenPromise s' = Some (created s) /\
    pending s' = (created s, startAcquisition env) :: pending s /\
    created s' = S (created s) /\
    authRequests s' = (authRequests s + if configured env then 1 else 0)%nat /\
    (forall reply t, exists s'',
       settle (created s) reply t s'
         = Some (fst (finishAcquisition (startAcquisition env) reply t), s'') /\
       tokenPromise s'' = None /\ authRequests s'' = authRequests s').
Proof.
  intros Hidle Hmiss. apply Forall_cons in Hmiss as [Hnow Hrest].
  eexists. split.
  - simpl. rewrite (getValidToken_starts s now Hnow Hidle).
    rewrite (callAll_join nows _ (created s)); [reflexivity | reflexivity |].
    exact Hrest.
  - repeat split.
    intros reply t. unfold settle. simpl. rewrite Nat.eqb_refl.
    destruct (finishAcquisition (startAcquisition env) reply t) as [result written].
    eexists. repeat split.
Qed.

Lemma step_singlePending (s : Service) (ev : Event) :
  singlePending s -> singlePending (step env s ev).
Proof.
  unfold singlePending. intros Hinv. destruct ev as [now | p reply now]; simpl.
  - unfold getValidToken.
    destruct (if cacheValid s now then tokenCache s else None); [exact Hinv|].
    destruct (tokenPromise s) as [p|] eqn:Hp; simpl.
    + rewrite Hp. exact Hinv.
    + rewrite Hinv. eauto.
  - unfold settle. destruct (tokenPromise s) as [q|] eqn:Hq.
    + destruct Hinv as [acq Hpend]. rewrite Hpend. simpl.
      destruct (Nat.eqb_spec q p) as [->|Hne]; simpl.
      * destruct (finishAcquisition acq reply now) as [result written]. simpl.
        reflexivity.
      * rewrite Hq, Hpend. eauto.
    + rewrite Hinv. simpl. rewrite Hq. exact Hinv.
Qed.

Lemma run_singlePending (evs : list Event) (s : Service) :
  singlePending s -> singlePending (run env evs s).
Proof.
  revert s. induction evs as [|ev evs IH]; intros s Hinv; [exact Hinv|].
  simpl. apply IH, step_singlePending, Hinv.
Qed.

End TokenServiceFacts.

(** C2 as stated fails when a credential is missing: two callers arrive
    during a cache miss and share one acquisition, but no request is sent
    upstream (the acquisition has already failed). *)
Lemma getValidToken_no_request_unconfigured :
  TokenService.cacheValid TokenService.initial 0 = false /\
  fst (TokenService.callAll Examples.emptyEnv [0; 0] TokenService.initial)
    = [TokenService.Awaits 0%nat; TokenService.Awaits 0%nat] /\
  TokenService.authRequests
    (snd (TokenService.callAll Examples.emptyEnv [0; 0] TokenService.initial)) = 0%nat /\
  TokenService.authRequests
    (snd (TokenService.callAll Examples.emptyEnv [0; 0] TokenService.initial)) <> 1%nat.
Proof.
  repeat split; try reflexivity. vm_compute. discriminate.
Qed.

(** C2 (amended) with the credentials configured: three callers, one
    request. *)
Lemma getValidToken_single_flight_witness :
  exists s',
    TokenService.callAll Examples.configuredEnv [0; 5; 9] TokenService.initial
      = ([TokenService.Awaits 0%nat; TokenService.Awaits 0%nat; TokenService.Awaits 0%nat], s') /\
    TokenService.authRequests s' = 1%nat.
Proof.
  destruct (getValidToken_single_flight Examples.configuredEnv TokenService.initial 0 [5; 9])
    as [s' [Hcalls [_ [_ [_ [Hreq _]]]]]].
  - reflexivity.
  - repeat constructor.
  - exists s'. split; [exact Hcalls | exact Hreq].
Defined.

(* ===================================================================== *)
(** * Properties of the reconciliation pass                               *)
(* ===================================================================== *)

Section JobFacts.
Import Retry Types Job.
Variable trackCorreios : string -> Outcome Correios.CorreiosResponse.
Variable now : string.
Variable toISOString : string -> option string.
Variable sendTrackingEmail : Publisher.EmailData -> Outcome unit.

Local Abbreviation step := (processRecord trackCorreios now toISOString sendTrackingEmail).
Local Abbreviation exec := (execute now toISOString sendTrackingEmail).

Lemma writes_app (a b : list JobEvent) : writes (a ++ b) = writes a ++ writes b.
Proof.
  induction a as [|[c s e d|eff|ms] a IH]; simpl; auto. rewrite IH. reflexivity.
Qed.

Lemma pauses_app (a b : list JobEvent) : pauses (a ++ b) = pauses a ++ pauses b.
Proof.
  induction a as [|[c s e d|eff|ms] a IH]; simpl; auto. rewrite IH. reflexivity.
Qed.

Lemma writes_published (effs : list Publisher.Effect) :
  writes (List.map Published effs) = [].
Proof. induction effs; simpl; auto. Qed.

Lemma pauses_published (effs : list Publisher.Effect) :
  pauses (List.map Published effs) = [].
Proof. induction effs; simpl; auto. Qed.

(** The [catch] of the loop touches neither the table nor the writes. *)
Lemma onError_frame (error : Thrown) (st : JobState) :
  store (onError error st) = store st /\
  writes (trace (onError error st)) = writes (trace st).
Proof.
  unfold onError. destruct (isTemporary error); simpl; [auto|].
  split; [reflexivity|].
  destruct (_ >=? _); [|reflexivity].
  rewrite writes_app. simpl. apply app_nil_r.
Qed.

Lemma onError_temporary (error : Thrown) (st : JobState) :
  isTemporary error = true ->
  store (onError error st) = store st /\ trace (onError error st) = trace st /\
  consecutiveFailures (onError error st) = consecutiveFailures st /\
  errorCount (onError error st) = errorCount st /\
  skippedCount (onError error st) = skippedCount st + 1.
Proof. intros H. unfold onError. rewrite H. simpl. auto. Qed.

(** What [execute] does for a record that is in the table. *)
Lemma execute_found (db : gmap string TrackingEntity) (current : TrackingEntity)
    (request : UpdateTrackingStatusRequest) (eventsChanged : bool) :
  db !! req_trackingCode request = Some current ->
  EventComparator.hasNewEvents toISOString (events current) (req_events request)
    = Return eventsChanged ->
  exists r effs,
    exec db request
    = (r, <[req_trackingCode request :=
              updatedRow now current (req_newStatus request) (req_events request)
                (req_dtExpected request)]> db, effs) /\
    writes effs = [Persisted (req_trackingCode request) (req_newStatus request)
                     (req_events request) (req_dtExpected request)] /\
    pauses effs = [].
Proof.
  intros Hrow Hcmp. unfold execute, updateStatus. rewrite Hrow, Hcmp.
  destruct (hasStatusChanged current (req_newStatus request) || eventsChanged).
  - destruct (fromTracking now current (req_newStatus request) (req_events request)).
    + eexists _, _. split; [reflexivity|]. simpl.
      rewrite writes_published, pauses_published. auto.
    + eexists _, _. split; [reflexivity|]. auto.
  - eexists _, _. split; [reflexivity|]. auto.
Qed.

Lemma execute_no_pause (db : gmap string TrackingEntity)
    (request : UpdateTrackingStatusRequest) :
  pauses (snd (exec db request)) = [].
Proof.
  unfold execute, updateStatus.
  destruct (db !! req_trackingCode request) as [current|]; [|reflexivity].
  destruct (EventComparator.hasNewEvents _ _ _) as [ev|e]; [|reflexivity].
  destruct (hasStatusChanged _ _ || ev); [|reflexivity].
  destruct (fromTracking _ _ _ _); [|reflexivity].
  simpl. apply pauses_published.
Qed.

(** [execute] leaves every row but the one of the request alone. *)
Lemma execute_frame (db : gmap string TrackingEntity)
    (request : UpdateTrackingStatusRequest) (k : string) :
  k <> req_trackingCode request ->
  snd (fst (exec db request)) !! k = db !! k.
Proof.
  intros Hk. unfold execute, updateStatus.
  destruct (db !! req_trackingCode request) as [current|]; [|reflexivity].
  destruct (EventComparator.hasNewEvents _ _ _) as [ev|e]; [|reflexivity].
  destruct (hasStatusChanged _ _ || ev); [destruct (fromTracking _ _ _ _)|]; simpl;
    apply lookup_insert_ne; congruence.
Qed.

(** An iteration leaves the rows of all other records alone. *)
Lemma processRecord_frame (st : JobState) (tracking : TrackingEntity) (k : string) :
  k <> trackingCode tracking ->
  store (step st tracking) !! k = store st !! k.
Proof.
  intros Hk. unfold processRecord.
  destruct (trackCorreios (trackingCode tracking)) as [data|e].
  - destruct (EventComparator.hasNewEvents _ _ _) as [ev|e].
    + destruct (negb _ || ev); [|reflexivity].
      match goal with |- context [exec ?db ?rq] =>
        pose proof (execute_frame db rq k Hk) as Hf;
        destruct (exec db rq) as [[[b|e] db'] effs] end; simpl in Hf.
      * exact Hf.
      * rewrite (proj1 (onError_frame e _)). exact Hf.
    + rewrite (proj1 (onError_frame e _)). reflexivity.
  - rewrite (proj1 (onError_frame e st)). reflexivity.
Qed.

(** In a pass over records with pairwise distinct tracking codes, each
    record is still in the table as it was read when its iteration starts. *)
Lemma fold_frame (prefix : list TrackingEntity) (st : JobState) (k : string) :
  Forall (fun u => trackingCode u <> k) prefix ->
  store (List.fold_left step prefix st) !! k = store st !! k.
Proof.
  revert st. induction prefix as [|u prefix IH]; intros st Hne; [reflexivity|].
  apply Forall_cons in Hne as [Hu Hrest]. simpl.
  rewrite (IH _ Hrest). apply processRecord_frame. congruence.
Qed.

Lemma pass_row_as_read (prefix suffix : list TrackingEntity) (tracking : TrackingEntity)
    (db : gmap string TrackingEntity) :
  NoDup (List.map trackingCode (prefix ++ tracking :: suffix)) ->
  db !! trackingCode tracking = Some tracking ->
  store (List.fold_left step prefix (startPass db)) !! trackingCode tracking
  = Some tracking.
Proof.
  intros Hnd Hrow. rewrite fold_frame; [exact Hrow|].
  rewrite map_app in Hnd. apply NoDup_app in Hnd as (_ & Hdisj & _).
  apply Forall_forall. intros u Hu Heq.
  apply (Hdisj (trackingCode u)).
  - apply list_elem_of_In, in_map, list_elem_of_In, Hu.
  - rewrite Heq. simpl. left.
Qed.

(** Persistence in one iteration, for a record of the pass that is in the
    table as it was read and whose event comparison yields an answer: when
    the lookup produces a result (a success or a synthesized one) and the
    status differs or the comparison reports new events, the row is
    rewritten with the new status, events and expected date, by exactly one
    write; when the lookup produces a result and neither changed, table and
    trace are untouched; when the lookup rejects (which [trackCorreios] only
    does with a TEMPORARY error after its retries), the table is untouched
    and nothing is written. *)
Theorem processRecord_persistence (st : JobState) (tracking : TrackingEntity) :
  store st !! trackingCode tracking = Some tracking ->
  (forall data eventsChanged,
     trackCorreios (trackingCode tracking) = Return data ->
     EventComparator.hasNewEvents toISOString (events tracking) (Correios.events data)
       = Return eventsChanged ->
     Correios.status data <> currentStatus tracking \/ eventsChanged = true ->
     store (step st tracking)
       = <[trackingCode tracking :=
             updatedRow now tracking (Correios.status data) (Correios.events data)
               (Correios.dtPrevista data)]> (store st) /\
     writes (trace (step st tracking))
       = writes (trace st) ++
         [Persisted (trackingCode tracking) (Correios.status data) (Correios.events data)
            (Correios.dtPrevista data)]) /\
  (forall data,
     trackCorreios (trackingCode tracking) = Return data ->
     EventComparator.hasNewEvents toISOString (events tracking) (Correios.events data)
       = Return false ->
     Correios.status data = currentStatus tracking ->
     store (step st tracking) = store st /\ trace (step st tracking) = trace st) /\
  (forall e,
     trackCorreios (trackingCode tracking) = Throw e ->
     store (step st tracking) = store st /\
     writes (trace (step st tracking)) = writes (trace st) /\
     (isTemporary e = true -> trace (step st tracking) = trace st)).
Proof.
  intros Hrow. split; [|split].
  - intros data ev Hlook Hcmp Hchanged. unfold processRecord. rewrite Hlook, Hcmp.
    assert (Hif : negb (String.eqb (Correios.status data) (currentStatus tracking)) || ev
                  = true).
    { destruct Hchanged as [Hne | ->]; [|apply orb_true_r].
      apply orb_true_iff. left. apply negb_true_iff, String.eqb_neq. exact Hne. }
    rewrite Hif. cbn [store].
    destruct (execute_found (store st) tracking
                {| req_trackingCode := trackingCode tracking;
                   req_newStatus := Correios.status data;
                   req_events := Correios.events data;
                   req_dtExpected := Correios.dtPrevista data |} ev Hrow Hcmp)
      as [r [effs [Hexec [Hw _]]]].
    rewrite Hexec. simpl in Hw |- *.
    destruct r as [b|e].
    + simpl. rewrite writes_app, Hw. auto.
    + destruct (onError_frame e
                  {| store := <[trackingCode tracking :=
                                  updatedRow now tracking (Correios.status data)
                                    (Correios.events data) (Correios.dtPrevista data)]>
                                (store st);
                     consecutiveFailures := 0; successCount := successCount st + 1;
                     errorCount := errorCount st; updatedCount := updatedCount st;
                     skippedCount := skippedCount st; trace := trace st ++ effs |})
        as [Hs Ht].
      rewrite Hs, Ht. simpl. rewrite writes_app, Hw. auto.
  - intros data Hlook Hcmp Hsame. unfold processRecord. rewrite Hlook, Hcmp, Hsame.
    rewrite String.eqb_refl. simpl. auto.
  - intros e Hlook. unfold processRecord. rewrite Hlook.
    destruct (onError_frame e st) as [Hs Ht]. repeat split; [exact Hs | exact Ht |].
    intros Htemp. apply (onError_temporary e st Htemp).
Qed.

(** C10.  A signature is built from exactly the seven normalized fields:
    it is those fields, in order, joined by ["|"] (description, date as an
    ISO string, location, detail, unitType, originUnit, destinationUnit,
    each trimmed, the optional ones with the empty string as fallback), and
    on fields that hold no separator two signatures are equal exactly when
    the events agree on the seven fields.  So event lists that agree
    pairwise on them have pairwise equal signatures and [hasNewEvents]
    answers [false], whatever their other fields (the status copy, the
    structured address) hold; when the status is unchanged too, the
    iteration writes nothing, publishes nothing and leaves the table as it
    was. *)
Theorem same_fields_no_update (st : JobState) (tracking : TrackingEntity)
    (data : Correios.CorreiosResponse) :
  (forall ev iso,
     toISOString (date ev) = Some iso ->
     EventComparator.createEventSignature toISOString ev
     = Return (String.concat "|"
                 [ Js.trim (description ev); iso; Js.trim (location ev);
                   Js.trim (Js.orEmpty (detail ev)); Js.trim (Js.orEmpty (unitType ev));
                   Js.trim (Js.orEmpty (originUnit ev));
                   Js.trim (Js.orEmpty (destinationUnit ev)) ])) /\
  (forall a b sa sb,
     Signature.pipeFreeFields toISOString a -> Signature.pipeFreeFields toISOString b ->
     EventComparator.createEventSignature toISOString a = Return sa ->
     EventComparator.createEventSignature toISOString b = Return sb ->
     (sa = sb <-> EventComparator.sameNormalizedFields toISOString a b)) /\
  (trackCorreios (trackingCode tracking) = Return data ->
   Forall2 (EventComparator.sameNormalizedFields toISOString)
     (events tracking) (Correios.events data) ->
   Forall2 (fun a b => EventComparator.createEventSignature toISOString a
                       = EventComparator.createEventSignature toISOString b)
     (events tracking) (Correios.events data) /\
   EventComparator.hasNewEvents toISOString (events tracking) (Correios.events data)
     = Return false /\
   (Correios.status data = currentStatus tracking ->
    store (step st tracking) = store st /\
    trace (step st tracking) = trace st /\
    updatedCount (step st tracking) = updatedCount st)).
Proof.
  split; [|split].
  - intros ev iso Hiso. unfold EventComparator.createEventSignature.
    rewrite Hiso. reflexivity.
  - intros a b sa sb Ha Hb Hsa Hsb. split.
    + intros <-. apply (signature_inj toISOString a b sa); assumption.
    + intros Hab. destruct (signature_same_fields toISOString a b Hab) as [Heq _].
      rewrite Hsa, Hsb in Heq. injection Heq as Heq. exact Heq.
  - intros Hlook Hsame. split; [|split].
    + eapply Forall2_impl; [exact Hsame|].
      intros a b Hab. apply (signature_same_fields toISOString a b Hab).
    + apply hasNewEvents_same_fields. exact Hsame.
    + intros Hstatus. unfold processRecord.
      rewrite Hlook, (hasNewEvents_same_fields toISOString _ _ Hsame), Hstatus.
      rewrite String.eqb_refl. simpl. auto.
Qed.

(** ** The consecutive-failure counter *)

(** With a lookup that only ever rejects with temporary errors (as
    [trackCorreios] does), the counter never exceeds one and no iteration
    pauses. *)
Hypothesis rejectsTemporary :
  forall code e, trackCorreios code = Throw e -> isTemporary e = true.

Lemma onError_after_success (error : Thrown) (st : JobState) :
  consecutiveFailures st = 0 ->
  0 <= consecutiveFailures (onError error st) <= 1 /\
  pauses (trace (onError error st)) = pauses (trace st).
Proof.
  intros H0. unfold onError. destruct (isTemporary error); simpl.
  - rewrite H0. split; [lia | reflexivity].
  - rewrite H0. simpl. split; [lia | reflexivity].
Qed.

Lemma processRecord_counter (st : JobState) (tracking : TrackingEntity) :
  0 <= consecutiveFailures st <= 1 ->
  0 <= consecutiveFailures (step st tracking) <= 1 /\
  pauses (trace (step st tracking)) = pauses (trace st).
Proof.
  intros Hc. unfold processRecord.
  destruct (trackCorreios (trackingCode tracking)) as [data|e] eqn:Hlook.
  - destruct (EventComparator.hasNewEvents _ _ _) as [ev|e].
    + destruct (negb _ || ev).
      * match goal with |- context [exec ?db ?rq] =>
          pose proof (execute_no_pause db rq) as Hnp;
          destruct (exec db rq) as [[[b|e] db'] effs] end; simpl in Hnp.
        -- simpl. rewrite pauses_app, Hnp, app_nil_r. split; [lia | reflexivity].
        -- match goal with |- context [onError e ?s] =>
             destruct (onError_after_success e s eq_refl) as [H1 H2] end.
           rewrite H2. simpl. rewrite pauses_app, Hnp, app_nil_r. auto.
      * simpl. split; [lia | reflexivity].
    + match goal with |- context [onError e ?s] =>
        destruct (onError_after_success e s eq_refl) as [H1 H2] end.
      rewrite H2. auto.
  - destruct (onError_temporary e st (rejectsTemporary _ _ Hlook)) as (_ & Ht & Hcf & _).
    rewrite Ht, Hcf. auto.
Qed.

Lemma processTrackings_never_pauses (trackings : list TrackingEntity)
    (db : gmap string TrackingEntity) :
  pauses (trace (processTrackings trackCorreios now toISOString sendTrackingEmail
                   trackings db)) = [] /\
  0 <= consecutiveFailures (processTrackings trackCorreios now toISOString
                              sendTrackingEmail trackings db) <= 1.
Proof.
  unfold processTrackings.
  assert (Hgen : forall st,
             0 <= consecutiveFailures st <= 1 ->
             pauses (trace (List.fold_left step trackings st)) = pauses (trace st) /\
             0 <= consecutiveFailures (List.fold_left step trackings st) <= 1).
  { induction trackings as [|t ts IH]; intros st Hc; [auto|].
    simpl. destruct (processRecord_counter st t Hc) as [Hc' Hp].
    destruct (IH _ Hc') as [Hp' Hc'']. rewrite Hp', Hp. auto. }
  destruct (Hgen (startPass db)) as [Hp Hc]; [simpl; lia|]. auto.
Qed.

End JobFacts.

(** ** The pass with the lookup of the sources *)

(** [trackCorreios] rejects with temporary errors only. *)
Lemma trackCorreios_rejects_temporary (carrier : string -> nat -> Correios.Exchange)
    (now code : string) (e : Retry.Thrown) :
  Correios.trackCorreios carrier now code = Retry.Throw e -> Retry.isTemporary e = true.
Proof.
  unfold Correios.trackCorreios.
  destruct (Correios.tryBlock carrier now code) as [r|e']; [discriminate|].
  destruct (Retry.isTemporary e') eqn:Ht; [|discriminate].
  intros H. injection H as <-. exact Ht.
Qed.

(** Hence no pass of the job ever pauses, and its counter never exceeds
    one: a lookup that returns, synthesized results included, resets the
    counter before anything else in the iteration can fail. *)
Lemma pass_never_pauses (carrier : string -> nat -> Correios.Exchange) (now : string)
    (toISOString : string -> option string)
    (sendTrackingEmail : Publisher.EmailData -> Retry.Outcome unit)
    (trackings : list Job.TrackingEntity) (db : gmap string Job.TrackingEntity) :
  Job.pauses (Job.trace (Job.processTrackings (Correios.trackCorreios carrier now) now
                           toISOString sendTrackingEmail trackings db)) = [] /\
  0 <= Job.consecutiveFailures
         (Job.processTrackings (Correios.trackCorreios carrier now) now
            toISOString sendTrackingEmail trackings db) <= 1.
Proof.
  apply processTrackings_never_pauses.
  intros code e. apply trackCorreios_rejects_temporary.
Qed.

(** The back-off of the loop in isolation: with a lookup that rejects every
    code with a PERMANENT error, the third failure in a row pauses the pass
    for 60000 ms before the fourth record, and the fourth for 120000 ms. *)
Lemma breaker_in_isolation :
  Job.pauses (Job.trace (Job.processTrackings Examples.rejectingLookup Examples.exampleNow
                           EventComparator.exampleISO Examples.mailOk
                           Examples.pendingRecords (Examples.table Examples.pendingRecords)))
  = [60000; 120000].
Proof. vm_compute. reflexivity. Qed.

(** C8, at a pass over four pending records for each of which the carrier
    answers 404 (a PERMANENT failure): every lookup resolves to the
    synthesized "Erro na consulta" result, the four iterations count as
    successes, the counter stays at zero and the pass never pauses. *)
Theorem permanent_failures_do_not_pause :
  Job.pauses (Job.trace Examples.pass404) = [] /\
  Job.consecutiveFailures Examples.pass404 = 0 /\
  Job.successCount Examples.pass404 = 4 /\
  Job.errorCount Examples.pass404 = 0 /\
  Job.updatedCount Examples.pass404 = 4.
Proof. vm_compute. repeat split. Qed.

(** The rule at a record in transit for which the carrier reports a second
    event, out for delivery: one write, and the row holds the new status. *)
Lemma processRecord_persistence_witness :
  exists data,
    Examples.movedLookup Examples.exampleCode = Retry.Return data /\
    Correios.status data = Types.statusText Types.SAIU_PARA_ENTREGA /\
    Job.store (Job.processRecord Examples.movedLookup Examples.exampleNow
                 EventComparator.exampleISO Examples.mailOk Examples.oneRowPass
                 Examples.inTransitRecord)
      = <[Examples.exampleCode :=
            Job.updatedRow Examples.exampleNow Examples.inTransitRecord
              (Correios.status data) (Correios.events data) (Correios.dtPrevista data)]>
          (Job.store Examples.oneRowPass) /\
    Job.writes (Job.trace (Job.processRecord Examples.movedLookup Examples.exampleNow
                             EventComparator.exampleISO Examples.mailOk Examples.oneRowPass
                             Examples.inTransitRecord))
      = [Job.Persisted Examples.exampleCode (Correios.status data) (Correios.events data)
           (Correios.dtPrevista data)].
Proof.
  destruct (Examples.movedLookup Examples.exampleCode) as [data|e] eqn:Hlook;
    [|vm_compute in Hlook; discriminate].
  exists data. split; [reflexivity|].
  assert (Hstatus : Correios.status data = Types.statusText Types.SAIU_PARA_ENTREGA).
  { vm_compute in Hlook. injection Hlook as <-. reflexivity. }
  split; [exact Hstatus|].
  apply (proj1 (processRecord_persistence Examples.movedLookup Examples.exampleNow
                  EventComparator.exampleISO Examples.mailOk Examples.oneRowPass
                  Examples.inTransitRecord eq_refl) data true Hlook).
  - vm_compute in Hlook. injection Hlook as <-. vm_compute. reflexivity.
  - left. rewrite Hstatus. vm_compute. discriminate.
Defined.

(** C10 at a stored event and the carrier's copy of it, which differ in the
    status copy, in the structured address and in blanks around the
    location. *)
Lemma same_fields_no_update_witness :
  EventComparator.hasNewEvents EventComparator.exampleISO
    (Job.events Examples.inTransitRecord) (Correios.events Examples.sameEventResponse)
    = Retry.Return false /\
  Job.store (Job.processRecord Examples.unchangedLookup Examples.exampleNow
               EventComparator.exampleISO Examples.mailOk Examples.oneRowPass
               Examples.inTransitRecord)
    = Job.store Examples.oneRowPass /\
  Job.trace (Job.processRecord Examples.unchangedLookup Examples.exampleNow
               EventComparator.exampleISO Examples.mailOk Examples.oneRowPass
               Examples.inTransitRecord)
    = Job.trace Examples.oneRowPass.
Proof.
  destruct (proj2 (proj2 (same_fields_no_update Examples.unchangedLookup
                            Examples.exampleNow EventComparator.exampleISO Examples.mailOk
                            Examples.oneRowPass Examples.inTransitRecord
                            Examples.sameEventResponse)) eq_refl)
    as [_ [Hcmp Hframe]].
  - constructor; [|constructor].
    repeat split; try (vm_compute; reflexivity).
    eexists. vm_compute. reflexivity.
  - split; [exact Hcmp|].
    destruct (Hframe eq_refl) as [Hs [Ht _]]. split; assumption.
Defined.

(** C6 at an out-for-delivery event on the home-delivery channel: one
    message goes to the mail transport. *)
Lemma publish_policy_witness :
  Publisher.emailsSent (Publisher.publish Examples.mailOk Examples.outForDelivery)
  = [Publisher.emailData Examples.outForDelivery].
Proof.
  apply (proj2 (proj2 (publish_policy Examples.mailOk Examples.outForDelivery))).
  - vm_compute. discriminate.
  - intros H. vm_compute in H.
    repeat (destruct H as [H|H]; [discriminate|]). exact H.
Defined.

(* ===================================================================== *)
(** * The retry loop on any operation                                     *)
(* ===================================================================== *)

Section RetryAnyOperation.
Import Retry RetryTrace.
Context {W T : Type}.
Variable fn : W -> Outcome T * W.
Variable options : RetryOptions.

Local Abbreviation maxA := (maxAttemptsOf options).

Lemma failsRetryably_cons (k : nat) (w : W) (e : Thrown) :
  fst (fn w) = Throw e -> isPermanent e = false ->
  failsRetryably fn k (snd (fn w)) -> failsRetryably fn (S k) w.
Proof.
  intros He Hp Hk [|i] Hi; simpl.
  - eauto.
  - apply Hk. lia.
Qed.

(** The shape of every run of the loop that starts within the budget. *)
Lemma retryLoop_shape (fuel : nat) :
  forall attempt lastError w r w' tr,
    attempt <= maxA ->
    retryLoop fn options fuel attempt lastError w = Some (r, w', tr) ->
    exists k,
      attempt + Z.of_nat k <= maxA /\
      failsRetryably fn k w /\
      w' = worldAfter fn (S k) w /\
      r = fst (fn (worldAfter fn k w)) /\
      skeleton tr = failedAttempts options attempt k ++ [Attempt (attempt + Z.of_nat k)] /\
      List.length (observations tr) = (if onRetry options then k else 0%nat) /\
      (attempt + Z.of_nat k < maxA ->
       match r with Return _ => True | Throw e => isPermanent e = true end).
Proof.
  induction fuel as [|fuel IH]; intros attempt lastError w r w' tr Hle Hrun; simpl in Hrun.
  - destruct (Z.leb_spec attempt maxA); [discriminate | lia].
  - destruct (Z.leb_spec attempt maxA); [|lia].
    assert (Hzero : forall (r0 : Outcome T) (w0 : W),
               fn w = (r0, w0) ->
               (attempt < maxA -> match r0 with Return _ => True
                                  | Throw e => isPermanent e = true end) ->
               Some (r0, w0, [Attempt attempt]) = Some (r, w', tr) ->
               exists k,
                 attempt + Z.of_nat k <= maxA /\
                 failsRetryably fn k w /\
                 w' = worldAfter fn (S k) w /\
                 r = fst (fn (worldAfter fn k w)) /\
                 skeleton tr = failedAttempts options attempt k
                               ++ [Attempt (attempt + Z.of_nat k)] /\
                 List.length (observations tr) = (if onRetry options then k else 0%nat) /\
                 (attempt + Z.of_nat k < maxA ->
                  match r with Return _ => True | Throw e => isPermanent e = true end)).
    { intros r0 w0 Hfn Hstop Heq. injection Heq as <- <- <-. exists 0%nat.
      simpl. rewrite Hfn, Z.add_0_r. simpl.
      repeat split; try lia.
      - intros i Hi. exfalso. lia.
      - destruct (onRetry options); reflexivity.
      - exact Hstop. }
    destruct (fn w) as [[v|e] w1] eqn:Hfn.
    + apply (Hzero (Return v) w1 eq_refl); [auto | exact Hrun].
    + destruct (isPermanent e) eqn:Hp.
      * apply (Hzero (Throw e) w1 eq_refl); [auto | exact Hrun].
      * destruct (Z.eqb_spec attempt maxA) as [Heq|Hne].
        -- apply (Hzero (Throw e) w1 eq_refl); [lia | exact Hrun].
        -- destruct (retryLoop fn options fuel (attempt + 1) e w1)
             as [[[r1 w2] tr1]|] eqn:Hrec; [|discriminate].
           injection Hrun as <- <- <-.
           assert (Hnext : attempt + 1 <= maxA) by lia.
           destruct (IH (attempt + 1) e w1 r1 w2 tr1 Hnext Hrec)
             as [k [Hk [Hfail [Hw [Hr [Hsk [Hobs Hstop]]]]]]].
           exists (S k).
           replace (attempt + Z.of_nat (S k)) with (attempt + 1 + Z.of_nat k) by lia.
           assert (Hw1 : w1 = snd (fn w)) by (rewrite Hfn; reflexivity).
           repeat split.
           ++ exact Hk.
           ++ apply (failsRetryably_cons k w e); [rewrite Hfn; reflexivity | exact Hp |].
              rewrite <- Hw1. exact Hfail.
           ++ rewrite Hw, Hw1. reflexivity.
           ++ rewrite Hr, Hw1. reflexivity.
           ++ change (skeleton (Attempt attempt :: ?l)) with (Attempt attempt :: skeleton l).
              rewrite (skeleton_observed options). simpl. rewrite Hsk. reflexivity.
           ++ simpl. destruct (onRetry options); simpl; rewrite Hobs; reflexivity.
           ++ exact Hstop.
Qed.

(** X1. [retryWithBackoff] on any operation, with a budget of at least one
    attempt: the operation is invoked [k + 1] times for some [k] below the
    budget; its first [k] invocations threw, none a PERMANENT error; the
    outcome of the last invocation is the outcome of the call; the [k]
    sleeps are those of the schedule; the observer, if any, is called once
    per failed attempt that is retried; and the loop stops before the budget
    is used up only on a result or on a PERMANENT error. *)
Theorem retryWithBackoff_any_operation (w : W) :
  1 <= maxA ->
  exists (k : nat) (r : Outcome T) (w' : W) (tr : list RetryEvent),
    retryWithBackoff fn options w = (r, w', tr) /\
    (S k <= Z.to_nat maxA)%nat /\
    invocations tr = S k /\
    failsRetryably fn k w /\
    r = fst (fn (worldAfter fn k w)) /\
    w' = worldAfter fn (S k) w /\
    sleeps tr = List.map (delayOf options) (seqZ 1 (Z.of_nat k)) /\
    List.length (observations tr) = (if onRetry options then k else 0%nat) /\
    ((S k < Z.to_nat maxA)%nat ->
     match r with Return _ => True | Throw e => isPermanent e = true end).
Proof.
  intros Hmax.
  pose proof (retryWithBackoff_fuel fn options w) as Hrun.
  destruct (retryWithBackoff fn options w) as [[r w'] tr].
  destruct (retryLoop_shape _ _ _ _ _ _ _ Hmax Hrun)
    as [k [Hk [Hfail [Hw [Hr [Hsk [Hobs Hstop]]]]]]].
  exists k, r, w', tr. split; [reflexivity|]. repeat split; try assumption.
  - lia.
  - rewrite <- invocations_skeleton, Hsk, invocations_failedAttempts.
    unfold invocations. simpl. lia.
  - rewrite <- sleeps_skeleton, Hsk, sleeps_failedAttempts. simpl. apply app_nil_r.
  - intros Hlt. apply Hstop. lia.
Qed.

(** X2. Without a budget ([maxAttempts] zero or negative) the operation is
    never invoked, whatever it is: the call throws [undefined] and leaves the
    world as it was, without a sleep. *)
Theorem retryWithBackoff_no_budget (w : W) :
  maxA < 1 -> retryWithBackoff fn options w = (Throw Undefined, w, []).
Proof.
  intros Hmax. unfold retryWithBackoff.
  destruct (Z.to_nat maxA); simpl; destruct (Z.leb_spec 1 maxA); try lia; reflexivity.
Qed.

(** X3. The schedule of delays, for a non-negative initial delay and a
    multiplier of at least one: the delay never decreases from an attempt to
    a later one, never exceeds [maxDelay], and the first one is the initial
    delay (capped). *)
Theorem delayOf_backoff (a b : Z) :
  0 <= initialDelayOf options -> 1 <= backoffMultiplierOf options ->
  1 <= a <= b ->
  delayOf options a <= delayOf options b <= maxDelayOf options /\
  delayOf options 1 = Z.min (initialDelayOf options) (maxDelayOf options).
Proof.
  intros Hi Hm Hab. unfold delayOf. split; [split|].
  - apply Z.min_le_compat_r. apply Z.mul_le_mono_nonneg_l; [exact Hi|].
    apply Z.pow_le_mono_r; lia.
  - apply Z.le_min_r.
  - rewrite Z.sub_diag, Z.pow_0_r, Z.mul_1_r. reflexivity.
Qed.

End RetryAnyOperation.

(** X1 at the operation that fails once and then succeeds, with the default
    options. *)
Lemma retryWithBackoff_any_operation_witness :
  exists k : nat,
    (S k <= 3)%nat /\
    Retry.invocations (snd (Retry.retryWithBackoff Examples.flakyOp Examples.defaults 0%nat))
    = S k.
Proof.
  destruct (retryWithBackoff_any_operation Examples.flakyOp Examples.defaults 0%nat)
    as (k & r & w' & tr & Hrun & Hk & Hinv & _).
  - vm_compute. discriminate.
  - exists k. rewrite Hrun. split; [exact Hk | exact Hinv].
Defined.

(** X2 at the always-failing operation with [maxAttempts = 0]. *)
Lemma retryWithBackoff_no_budget_witness :
  Retry.retryWithBackoff Examples.permanentOp Examples.noAttempts 7%nat
  = (Retry.Throw Retry.Undefined, 7%nat, []).
Proof.
  apply (retryWithBackoff_no_budget Examples.permanentOp Examples.noAttempts 7%nat).
  vm_compute. reflexivity.
Defined.

(** X3 at the options of [trackCorreios], attempts 2 and 3. *)
Lemma delayOf_backoff_witness :
  Retry.delayOf Correios.trackOptions 2 <= Retry.delayOf Correios.trackOptions 3
    <= Retry.maxDelayOf Correios.trackOptions /\
  Retry.delayOf Correios.trackOptions 1
  = Z.min (Retry.initialDelayOf Correios.trackOptions)
      (Retry.maxDelayOf Correios.trackOptions).
Proof.
  apply (delayOf_backoff Correios.trackOptions 2 3).
  - vm_compute. discriminate.
  - vm_compute. discriminate.
  - lia.
Defined.

Lemma classifyHttpError_permanent (statusCode : Z) (message : string) :
  Retry.isPermanent (Retry.classifyHttpError statusCode message) = true <->
  statusCode = 400 \/ statusCode = 404 \/ statusCode = 422.
Proof.
  unfold Retry.classifyHttpError.
  repeat match goal with
  | |- context [Z.eqb statusCode ?c] => destruct (Z.eqb_spec statusCode c)
  end; simpl; split; intros H; try discriminate; try lia; try reflexivity.
Qed.

(** X4. [classifyHttpError] keeps the message and records no original
    error; the error is PERMANENT for the status codes 400, 404 and 422 and
    TEMPORARY for every other one. *)
Theorem classifyHttpError_type (statusCode : Z) (message : string) :
  exists ty,
    Retry.classifyHttpError statusCode message = Retry.ClassifiedError message ty None /\
    (ty = Retry.PERMANENT <-> statusCode = 400 \/ statusCode = 404 \/ statusCode = 422) /\
    (ty = Retry.TEMPORARY <-> statusCode <> 400 /\ statusCode <> 404 /\ statusCode <> 422).
Proof.
  unfold Retry.classifyHttpError.
  repeat match goal with
  | |- context [Z.eqb statusCode ?c] => destruct (Z.eqb_spec statusCode c)
  end; simpl; eexists; (split; [reflexivity|]);
    split; split; intros H; try discriminate; try lia; try reflexivity.
Qed.

(* ===================================================================== *)
(** * The vocabulary of statuses and the pending set                      *)
(* ===================================================================== *)

Section VocabularyFacts.
Import Retry Types Correios Repository.

(** The values of the enum are pairwise distinct. *)
Lemma statusText_inj (s t : TrackingStatus) : statusText s = statusText t -> s = t.
Proof. destruct s, t; intros H; try reflexivity; discriminate H. Qed.

Lemma statusText_not_found (s : TrackingStatus) : statusText s <> "Objeto não encontrado".
Proof. destruct s; discriminate. Qed.

Lemma firstMatch_In (rules : list (string * string)) (d st : string) :
  firstMatch rules d = Some st -> In st (List.map snd rules).
Proof.
  induction rules as [|[p s] rules IH]; simpl; [discriminate|].
  destruct (Js.includes d p); [intros H; injection H as ->; auto | auto].
Qed.

(** The classification of a description answers with the text of a member
    of the enum, never with the one of a failed lookup. *)
Lemma determineStatus_enum (d : string) :
  exists s, determineStatus d = statusText s /\ s <> ERRO_CONSULTA.
Proof.
  assert (Hall : Forall (fun st => exists s, st = statusText s /\ s <> ERRO_CONSULTA)
                   (List.map snd statusRules)).
  { simpl.
    repeat (constructor;
            [(unshelve eexists); [constructor | split; [reflexivity | discriminate]]|]).
    constructor. }
  rewrite determineStatus_table.
  destruct (firstMatch statusRules d) as [st|] eqn:Hm; simpl.
  - apply firstMatch_In in Hm.
    exact (proj1 (List.Forall_forall _ _) Hall st Hm).
  - exists EM_TRANSITO. split; [reflexivity | discriminate].
Qed.

(** Where the status of a result of [trackCorreios] can come from. *)
Lemma trackCorreios_status_cases (carrier : string -> nat -> Exchange) (now code : string)
    (r : CorreiosResponse) :
  trackCorreios carrier now code = Return r ->
  (exists e, r = lookupError now e) \/
  status r = "Objeto não encontrado" \/
  (exists s, s <> ERRO_CONSULTA /\ status r = statusText s).
Proof.
  unfold trackCorreios. rewrite tryBlock_unfold.
  destruct (fst (fst (retryWithBackoff (lookup carrier code) trackOptions 0%nat)))
    as [data|e].
  - unfold normalize.
    destruct (Api.objetos data) as [[|objeto others]|].
    + simpl. intros H. injection H as <-. left. eexists. reflexivity.
    + destruct (Js.truthy (Api.mensagem objeto)).
      * intros H. injection H as <-. right. left. reflexivity.
      * destruct (Nat.eqb _ 0).
        -- intros H. injection H as <-. right. right.
           exists ETIQUETA_EMITIDA. split; [discriminate | reflexivity].
        -- destruct (List.map mapEvento _) as [|lastEvent events] eqn:Hmap;
             intros H; injection H as <-; right; right; simpl.
           ++ exists EM_TRANSITO. split; [discriminate | reflexivity].
           ++ destruct (determineStatus_enum (description lastEvent)) as [s [Hs Hne]].
              exists s. split; assumption.
    + simpl. intros H. injection H as <-. left. eexists. reflexivity.
  - destruct (isTemporary e); [discriminate|].
    intros H. injection H as <-. left. eexists. reflexivity.
Qed.

(** X5. The statuses [trackCorreios] resolves to form a closed vocabulary:
    the text of a member of [TrackingStatus], or "Objeto não encontrado",
    which is the text of no member.  The lookup-error status is only ever
    that of the result the [catch] block synthesizes, never the
    classification of an event. *)
Theorem trackCorreios_vocabulary (carrier : string -> nat -> Exchange) (now code : string)
    (r : CorreiosResponse) :
  trackCorreios carrier now code = Return r ->
  (status r = "Objeto não encontrado" \/ exists s, status r = statusText s) /\
  (forall s, statusText s <> "Objeto não encontrado") /\
  (status r = statusText ERRO_CONSULTA -> exists e, r = lookupError now e).
Proof.
  intros Hr. split; [|split].
  - destruct (trackCorreios_status_cases carrier now code r Hr)
      as [[e ->] | [Hnf | [s [_ Hs]]]].
    + right. exists ERRO_CONSULTA. reflexivity.
    + left. exact Hnf.
    + right. exists s. exact Hs.
  - apply statusText_not_found.
  - intros Herr.
    destruct (trackCorreios_status_cases carrier now code r Hr)
      as [[e ->] | [Hnf | [s [Hne Hs]]]].
    + exists e. reflexivity.
    + rewrite Hnf in Herr. discriminate.
    + rewrite Hs in Herr. apply statusText_inj in Herr. contradiction.
Qed.

Lemma isPendingStatus_enum (s : TrackingStatus) :
  isPendingStatus (statusText s) = false <->
  In s [ETIQUETA_CANCELADA; ETIQUETA_EXPIRADA; CANCELADO; DEVOLVIDO; ENTREGUE;
        ENTREGUE_REMETENTE; ENTREGUE_CAIXA_INTELIGENTE].
Proof.
  destruct s; (split; [intros H; first [discriminate H | simpl; tauto]
                      | intros H; first [reflexivity
                                        | exfalso; simpl in H; intuition discriminate]]).
Qed.

(** X6. Which results take a record out of the set [findPendingTrackings]
    selects: the not-found result, and the statuses of the seven members the
    query leaves out (label cancelled or expired, cancelled, returned, and
    the three delivered ones).  Every other result keeps the record in the
    set; so does the result of a failed lookup, which is therefore looked up
    again at the next pass. *)
Theorem pending_after_lookup (carrier : string -> nat -> Exchange) (now code : string)
    (r : CorreiosResponse) :
  trackCorreios carrier now code = Return r ->
  (isPendingStatus (status r) = false <->
   status r = "Objeto não encontrado" \/
   exists s, In s [ETIQUETA_CANCELADA; ETIQUETA_EXPIRADA; CANCELADO; DEVOLVIDO; ENTREGUE;
                   ENTREGUE_REMETENTE; ENTREGUE_CAIXA_INTELIGENTE] /\
             status r = statusText s) /\
  (forall e, isPendingStatus (status (lookupError now e)) = true).
Proof.
  intros Hr. split; [|intros e; reflexivity].
  destruct (trackCorreios_status_cases carrier now code r Hr)
    as [[e ->] | [Hnf | [s [_ Hs]]]].
  - split; [discriminate|].
    intros [Hnf | [s [Hin Hs]]]; [discriminate Hnf|].
    change (statusText ERRO_CONSULTA = statusText s) in Hs.
    apply statusText_inj in Hs. subst s. exfalso. simpl in Hin. intuition discriminate.
  - rewrite Hnf. split; [auto | reflexivity].
  - rewrite Hs. split.
    + intros H. right. exists s. split; [apply isPendingStatus_enum, H | reflexivity].
    + intros [Hnf | [t [Hin Ht]]].
      * exfalso. exact (statusText_not_found s Hnf).
      * apply statusText_inj in Ht. subst t. apply isPendingStatus_enum, Hin.
Qed.

(** X7. A mapped event copies the description into its status, keeps the
    date as received, and always has a location: the city and state, one of
    them, or the placeholder when the unit has neither. *)
Theorem mapEvento_location (evento : Api.Evento) :
  description (mapEvento evento) = Api.descricao evento /\
  Types.status (mapEvento evento) = Api.descricao evento /\
  date (mapEvento evento) = Api.dtHrCriado evento /\
  location (mapEvento evento) <> "" /\
  ((forall u e, Api.unidade evento = Some u -> Api.endereco u = Some e ->
      Js.truthy (Api.cidade e) = false /\ Js.truthy (Api.uf e) = false) ->
   location (mapEvento evento) = "Local não informado").
Proof.
  assert (Hne : forall a b : string, a <> "" -> (a ++ b)%string <> "").
  { intros [|c a] b H; [contradiction | discriminate]. }
  assert (Htr : forall x, Js.truthy x = true -> Js.orEmpty x <> "").
  { intros [s|]; simpl; [|discriminate]. intros H Heq. subst s. discriminate. }
  repeat split.
  - unfold mapEvento; simpl.
    destruct (Api.unidade evento) as [u|]; [|discriminate].
    destruct (Api.endereco u) as [e|]; [|discriminate].
    destruct (Js.truthy (Api.cidade e)) eqn:Hc, (Js.truthy (Api.uf e)) eqn:Hu; simpl;
      auto; discriminate.
  - intros Hnone. unfold mapEvento; simpl.
    destruct (Api.unidade evento) as [u|] eqn:Hu; [|reflexivity].
    destruct (Api.endereco u) as [e|] eqn:He; [|reflexivity].
    destruct (Hnone u e eq_refl He) as [-> ->]. reflexivity.
Qed.

(** X8. [fetchTrackingData] resolves exactly when the carrier answered with
    a 2xx status and a body that parses; it never rejects with a plain
    [Error]; and it rejects with a PERMANENT error only when the carrier
    answered 400, 404 or 422, or when the token service, [fetch] or the JSON
    parser themselves threw a PERMANENT [ClassifiedError]. *)
Theorem fetchTrackingData_outcomes (x : Exchange) :
  (forall data,
     fetchTrackingData x = Return data <->
     exists st txt, x = Answered st txt (Return data) /\ 200 <= st <= 299) /\
  (forall e, fetchTrackingData x = Throw e -> forall m, e <> Error m) /\
  (forall e, fetchTrackingData x = Throw e -> isPermanent e = true ->
     (exists st txt json, x = Answered st txt json /\ (st = 400 \/ st = 404 \/ st = 422)) \/
     x = TokenRejected e \/ x = FetchRejected e \/
     (exists st txt, x = Answered st txt (Throw e))).
Proof.
  assert (Hre : forall e e', rethrowClassified e = e' ->
                  (forall m, e' <> Error m) /\ (isPermanent e' = true -> e = e')).
  { intros [m t o|m|v|] e' <-; unfold rethrowClassified, classifyNetworkError; simpl;
      split; intros; congruence. }
  split; [|split].
  - intros data. split.
    + destruct x as [e|e|st txt json]; simpl; try discriminate.
      unfold ok. destruct (Z.leb_spec 200 st), (Z.leb_spec st 299); simpl; try discriminate.
      destruct json as [d|e]; [|discriminate].
      intros Heq. injection Heq as ->. exists st, txt. split; [reflexivity | lia].
    + intros [st [txt [-> Hst]]]. simpl. unfold ok.
      destruct (Z.leb_spec 200 st), (Z.leb_spec st 299); simpl; try lia. reflexivity.
  - intros e He. destruct x as [e0|e0|st txt json]; simpl in He.
    + injection He as He. apply (Hre e0 e He).
    + injection He as He. apply (Hre e0 e He).
    + destruct (negb (ok st)).
      * injection He as He. apply (Hre _ e He).
      * destruct json as [d|e0]; [discriminate|]. injection He as He. apply (Hre e0 e He).
  - intros e He Hp. destruct x as [e0|e0|st txt json]; simpl in He.
    + injection He as He. right. left. f_equal. apply (Hre e0 e He), Hp.
    + injection He as He. right. right. left. f_equal. apply (Hre e0 e He), Hp.
    + destruct (negb (ok st)) eqn:Hok.
      * injection He as He. left. exists st, txt, json. split; [reflexivity|].
        apply (classifyHttpError_permanent st
                 ("Erro ao consultar rastreamento: " ++ pretty st ++ " - " ++ txt)%string).
        destruct (Hre _ e He) as [_ Hsame]. rewrite (Hsame Hp). exact Hp.
      * destruct json as [d|e0]; [discriminate|]. injection He as He.
        right. right. right. exists st, txt. do 2 f_equal. apply (Hre e0 e He), Hp.
Qed.

End VocabularyFacts.

(** X5 at a carrier that reports an object out for delivery. *)
Lemma trackCorreios_vocabulary_witness :
  exists r,
    Examples.movedLookup Examples.exampleCode = Retry.Return r /\
    (Correios.status r = "Objeto não encontrado" \/
     exists s, Correios.status r = Types.statusText s).
Proof.
  destruct (Examples.movedLookup Examples.exampleCode) as [r|e] eqn:Hlook;
    [|vm_compute in Hlook; discriminate].
  exists r. split; [reflexivity|].
  exact (proj1 (trackCorreios_vocabulary (Examples.carrierAnswering Examples.movedObject)
                  Examples.exampleNow Examples.exampleCode r Hlook)).
Defined.

(** X6 at a carrier that answers 404: the record stays in the pending set. *)
Lemma pending_after_lookup_witness :
  exists r,
    Correios.trackCorreios Examples.carrier404 Examples.exampleNow Examples.exampleCode
    = Retry.Return r /\
    Repository.isPendingStatus (Correios.status r) = true.
Proof.
  destruct (Correios.trackCorreios Examples.carrier404 Examples.exampleNow
              Examples.exampleCode) as [r|e] eqn:Hlook;
    [|vm_compute in Hlook; discriminate].
  exists r. split; [reflexivity|].
  destruct (pending_after_lookup Examples.carrier404 Examples.exampleNow
              Examples.exampleCode r Hlook) as [Hiff _].
  destruct (Repository.isPendingStatus (Correios.status r)) eqn:Hp; [reflexivity|].
  exfalso. pose proof (proj1 Hiff eq_refl) as Hq. clear Hp Hiff.
  vm_compute in Hlook. injection Hlook as <-.
  destruct Hq as [Hnf | [s [Hin Hs]]]; [discriminate Hnf|].
  simpl in Hin.
  repeat (destruct Hin as [<- | Hin]; [discriminate Hs|]). contradiction.
Defined.

(* ===================================================================== *)
(** * The token service over time                                         *)
(* ===================================================================== *)

Section TokenLifeCycle.
Import Retry TokenService TokenAccounting.
Variable env : Env.

(** X9. A successful acquisition is served from the cache for one hour:
    when the acquisition behind promise [p] settles at instant [t] with a
    non-empty token, its callers get the token, the in-flight marker is
    cleared without a further request, every caller before [t + 3600000]
    gets the token from the cache, and the first caller from that instant on
    starts a new acquisition. *)
Theorem token_cached_for_one_hour (s s' : Service) (p : nat) (tok : string) (t : Z)
    (r : Outcome string) :
  List.find (fun '(q, _) => Nat.eqb q p) (pending s) = Some (p, Requested) ->
  tok <> "" ->
  settle p (Json (Some tok)) t s = Some (r, s') ->
  r = Return tok /\
  tokenPromise s' = None /\
  authRequests s' = authRequests s /\
  (forall now, now < t + 3600000 -> getValidToken env now s' = (Token tok, s')) /\
  (forall now, t + 3600000 <= now ->
     fst (getValidToken env now s') = Awaits (created s') /\
     authRequests (snd (getValidToken env now s'))
       = (authRequests s' + if configured env then 1 else 0)%nat).
Proof.
  intros Hfind Htok Hsettle. unfold settle in Hsettle. rewrite Hfind in Hsettle.
  simpl in Hsettle.
  assert (Htruthy : negb (String.eqb tok "") = true).
  { apply negb_true_iff, String.eqb_neq. exact Htok. }
  rewrite Htruthy in Hsettle. injection Hsettle as <- <-.
  split; [reflexivity|]. split; [reflexivity|]. split; [reflexivity|]. split.
  - intros now Hnow. unfold getValidToken, cacheValid. simpl.
    destruct (Z.gtb_spec (t + TOKEN_EXPIRATION_MS) now) as [_|Hle];
      [reflexivity | unfold TOKEN_EXPIRATION_MS in Hle; lia].
  - intros now Hnow. unfold getValidToken, cacheValid. simpl.
    destruct (Z.gtb_spec (t + TOKEN_EXPIRATION_MS) now) as [Hgt|_];
      [unfold TOKEN_EXPIRATION_MS in Hgt; lia |].
    simpl. split; [reflexivity|].
    unfold startAcquisition. destruct (configured env); reflexivity.
Qed.

(** An acquisition fails with a plain [Error] and writes nothing. *)
Lemma finishAcquisition_failure (acq : Acquisition) (reply : AuthReply) (t : Z)
    (e : Thrown) :
  acq = Requested \/ acq = startAcquisition env ->
  fst (finishAcquisition acq reply t) = Throw e ->
  (exists m, e = Error m) /\ snd (finishAcquisition acq reply t) = None.
Proof.
  intros Hacq. assert (Hcases : acq = Requested \/ exists m, acq = FailedEarly (Error m)).
  { destruct Hacq as [->| ->]; [auto|]. unfold startAcquisition.
    destruct (configured env); eauto. }
  destruct Hcases as [-> | [m ->]]; simpl.
  - destruct reply as [m|st stt txt|tok]; simpl.
    + intros H. injection H as <-. eauto.
    + intros H. injection H as <-. eauto.
    + destruct (Js.truthy tok); simpl; [discriminate|].
      intros H. injection H as <-. eauto.
  - intros H. injection H as <-. eauto.
Qed.

(** X10. A failed acquisition can be retried: it fails with a plain
    [Error], leaves the cache as it was and clears the in-flight marker, so
    that the next caller that misses the cache starts a new acquisition
    rather than awaiting the failed one. *)
Theorem failed_acquisition_can_be_retried (s s' : Service) (p : nat) (acq : Acquisition)
    (reply : AuthReply) (t : Z) (e : Thrown) :
  List.find (fun '(q, _) => Nat.eqb q p) (pending s) = Some (p, acq) ->
  acq = Requested \/ acq = startAcquisition env ->
  settle p reply t s = Some (Throw e, s') ->
  (exists m, e = Error m) /\
  tokenCache s' = tokenCache s /\
  tokenPromise s' = None /\
  (forall now, cacheValid s now = false ->
     fst (getValidToken env now s') = Awaits (created s) /\
     tokenPromise (snd (getValidToken env now s')) = Some (created s) /\
     authRequests (snd (getValidToken env now s'))
       = (authRequests s + if configured env then 1 else 0)%nat).
Proof.
  intros Hfind Hacq Hsettle. unfold settle in Hsettle. rewrite Hfind in Hsettle.
  destruct (finishAcquisition acq reply t) as [result written] eqn:Hfin.
  injection Hsettle as -> <-.
  destruct (finishAcquisition_failure acq reply t e Hacq) as [Hplain Hnone];
    [rewrite Hfin; reflexivity|].
  rewrite Hfin in Hnone. simpl in Hnone. subst written.
  split; [exact Hplain|]. split; [reflexivity|]. split; [reflexivity|].
  intros now Hmiss. unfold getValidToken, cacheValid in *. simpl. rewrite Hmiss. simpl.
  split; [reflexivity|]. split; [reflexivity|].
  unfold startAcquisition. destruct (configured env); reflexivity.
Qed.

Lemma step_accounted (s : Service) (ev : Event) :
  accounted env s -> accounted env (step env s ev).
Proof.
  intros (Hle & Heq & Hpend). destruct ev as [now | p reply now]; simpl.
  - unfold getValidToken.
    destruct (if cacheValid s now then tokenCache s else None); [repeat split; assumption|].
    destruct (tokenPromise s); [repeat split; assumption|].
    simpl. unfold accounted. simpl. unfold startAcquisition at 1 2.
    destruct (configured env) eqn:Hc; simpl.
    + split; [lia|]. split; [intros _; rewrite (Heq eq_refl); lia|].
      constructor; [split; [lia | reflexivity]|].
      eapply Forall_impl; [exact Hpend|]. intros [q a] [Hq Ha]. split; [lia | exact Ha].
    + split; [lia|]. split; [discriminate|].
      constructor; [split; [lia | reflexivity]|].
      eapply Forall_impl; [exact Hpend|]. intros [q a] [Hq Ha]. split; [lia | exact Ha].
  - unfold settle.
    destruct (List.find _ (pending s)) as [[q acq]|]; [|repeat split; assumption].
    destruct (finishAcquisition acq reply now) as [result written].
    unfold accounted. simpl. split; [exact Hle|]. split; [exact Heq|].
    apply Forall_forall. intros [q' a'] Hin.
    apply list_elem_of_In, List.filter_In in Hin as [Hin _].
    apply list_elem_of_In in Hin.
    apply (proj1 (Forall_forall _ _) Hpend (q', a') Hin).
Qed.

Lemma run_accounted (evs : list Event) (s : Service) :
  accounted env s -> accounted env (run env evs s).
Proof.
  revert s. induction evs as [|ev evs IH]; intros s H; [exact H|].
  simpl. apply IH, step_accounted, H.
Qed.

(** X11. Whatever the interleaving of callers and settlements from the
    initial state: at most one acquisition is pending, a pending acquisition
    is the one [tokenPromise] points to, and the requests sent upstream never
    exceed the acquisitions started (they are as many when the credentials
    are configured). *)
Theorem service_invariant (evs : list Event) :
  let s := run env evs initial in
  (List.length (pending s) <= 1)%nat /\
  (forall p acq, In (p, acq) (pending s) -> tokenPromise s = Some p) /\
  (authRequests s <= created s)%nat /\
  (configured env = true -> authRequests s = created s).
Proof.
  intros s.
  assert (Hsingle : singlePending s) by (apply run_singlePending; reflexivity).
  assert (Hacc : accounted env s).
  { apply run_accounted. unfold accounted. simpl.
    split; [lia|]. split; [reflexivity | constructor]. }
  destruct Hacc as (Hle & Heq & _). unfold singlePending in Hsingle.
  destruct (tokenPromise s) as [p|].
  - destruct Hsingle as [acq Hp]. rewrite Hp. simpl.
    split; [lia|]. split; [|split; assumption].
    intros q a [Hin|[]]. congruence.
  - rewrite Hsingle. simpl. split; [lia|]. split; [|split; assumption].
    intros p acq [].
Qed.

(** X12. [clearCache] drops the in-flight marker with the cache: the next
    caller starts an acquisition of its own even while an earlier one is
    pending, so that two acquisitions can be in flight. *)
Theorem clearCache_starts_over (s : Service) (now : Z) :
  fst (getValidToken env now (clearCache s)) = Awaits (created s) /\
  pending (snd (getValidToken env now (clearCache s)))
    = (created s, startAcquisition env) :: pending s /\
  authRequests (snd (getValidToken env now (clearCache s)))
    = (authRequests s + if configured env then 1 else 0)%nat.
Proof.
  unfold getValidToken, clearCache, cacheValid. simpl. repeat split.
  unfold startAcquisition. destruct (configured env); reflexivity.
Qed.

(** X13. When the acquisition of the token fails at each of the three
    attempts of a lookup, [trackCorreios] rejects with a TEMPORARY error:
    the failure of the token service, a plain [Error], is classified as a
    network error, so the record is skipped rather than marked as failed. *)
Theorem token_failure_is_temporary (reply : AuthReply) (t : Z) (e : Thrown)
    (carrier : string -> nat -> Correios.Exchange) (now code : string) :
  fst (finishAcquisition (startAcquisition env) reply t) = Throw e ->
  (forall i, carrier code i = Correios.TokenRejected e) ->
  Correios.trackCorreios carrier now code
  = Throw (ClassifiedError ("Erro de rede: " ++ messageOf e)%string TEMPORARY
             (Some (messageOf e))).
Proof.
  intros Hfail Hcarrier.
  destruct (finishAcquisition_failure _ reply t e (or_intror eq_refl) Hfail) as [[m ->] _].
  unfold Correios.trackCorreios.
  rewrite tryBlock_unfold, lookup_retried, !Hcarrier. reflexivity.
Qed.

End TokenLifeCycle.

(** X9 at a token that arrived at instant 1000, asked for again one
    millisecond before it expires. *)
Lemma token_cached_for_one_hour_witness :
  TokenService.getValidToken Examples.configuredEnv 3600999
    (TokenService.step Examples.configuredEnv MoreExamples.awaiting
       (TokenService.Settle 0 MoreExamples.tokenReply 1000))
  = (TokenService.Token "jwt",
     TokenService.step Examples.configuredEnv MoreExamples.awaiting
       (TokenService.Settle 0 MoreExamples.tokenReply 1000)).
Proof.
  refine (proj1 (proj2 (proj2 (proj2
    (token_cached_for_one_hour Examples.configuredEnv MoreExamples.awaiting
       (TokenService.step Examples.configuredEnv MoreExamples.awaiting
          (TokenService.Settle 0 MoreExamples.tokenReply 1000))
       0%nat "jwt" 1000 (Retry.Return "jwt") _ _ _)))) 3600999 _).
  - reflexivity.
  - discriminate.
  - reflexivity.
  - lia.
Defined.

(** X10 at an acquisition the carrier answers with 401. *)
Lemma failed_acquisition_can_be_retried_witness :
  TokenService.tokenPromise
    (TokenService.step Examples.configuredEnv MoreExamples.awaiting
       (TokenService.Settle 0 MoreExamples.unauthorized 1000)) = None /\
  fst (TokenService.getValidToken Examples.configuredEnv 2000
         (TokenService.step Examples.configuredEnv MoreExamples.awaiting
            (TokenService.Settle 0 MoreExamples.unauthorized 1000)))
  = TokenService.Awaits 1.
Proof.
  destruct (failed_acquisition_can_be_retried Examples.configuredEnv MoreExamples.awaiting
              (TokenService.step Examples.configuredEnv MoreExamples.awaiting
                 (TokenService.Settle 0 MoreExamples.unauthorized 1000))
              0%nat TokenService.Requested MoreExamples.unauthorized 1000
              MoreExamples.tokenFailure)
    as (_ & _ & Hmarker & Hnext).
  - reflexivity.
  - left. reflexivity.
  - vm_compute. reflexivity.
  - split; [exact Hmarker|]. apply (Hnext 2000). reflexivity.
Defined.

(** X13 at a lookup whose token acquisition is answered with 401. *)
Lemma token_failure_is_temporary_witness :
  Correios.trackCorreios MoreExamples.carrierWithoutToken Examples.exampleNow
    Examples.exampleCode
  = Retry.Throw
      (Retry.ClassifiedError
         ("Erro de rede: " ++ Retry.messageOf MoreExamples.tokenFailure)%string
         Retry.TEMPORARY (Some (Retry.messageOf MoreExamples.tokenFailure))).
Proof.
  apply (token_failure_is_temporary Examples.configuredEnv MoreExamples.unauthorized 0
           MoreExamples.tokenFailure).
  - vm_compute. reflexivity.
  - intros i. reflexivity.
Defined.

(* ===================================================================== *)
(** * Signatures: what equal signatures mean, and when comparing throws   *)
(* ===================================================================== *)

Section SignatureFacts.
Import Retry Types EventComparator Signature.
Variable toISOString : string -> option string.

(** X14. On events whose normalized fields hold no ["|"], two signatures
    are equal exactly when the events agree on the seven normalized fields:
    the signature neither confuses two events nor tells apart two copies of
    one. *)
Theorem signature_equal_iff (a b : TrackingEvent) (sa sb : string) :
  pipeFreeFields toISOString a -> pipeFreeFields toISOString b ->
  createEventSignature toISOString a = Return sa ->
  createEventSignature toISOString b = Return sb ->
  (sa = sb <-> sameNormalizedFields toISOString a b).
Proof.
  intros Ha Hb Hsa Hsb. split.
  - intros <-. apply (signature_inj toISOString a b sa); assumption.
  - intros Hsame. destruct (signature_same_fields toISOString a b Hsame) as [Heq _].
    rewrite Hsa, Hsb in Heq. injection Heq as Heq. exact Heq.
Qed.

Lemma anyMissing_false (set : gset string) (newEvents : list TrackingEvent) :
  anyMissing toISOString set newEvents = Return false ->
  Forall (fun ev => exists s, createEventSignature toISOString ev = Return s /\ s ∈ set)
    newEvents.
Proof.
  induction newEvents as [|ev rest IH]; simpl; [constructor|].
  destruct (createEventSignature toISOString ev) as [s|e] eqn:Hs; [|discriminate].
  destruct (bool_decide (s ∈ set)) eqn:Hin; [|discriminate].
  intros H. constructor; [|auto]. apply bool_decide_eq_true in Hin. eauto.
Qed.

Lemma signatures_elem (events : list TrackingEvent) (l : list string) (s : string) :
  signatures toISOString events = Return l -> s ∈ l ->
  exists ev, ev ∈ events /\ createEventSignature toISOString ev = Return s.
Proof.
  revert l. induction events as [|ev rest IH]; intros l Hl Hin.
  - injection Hl as <-. inversion Hin.
  - apply (signatures_cons toISOString) in Hl as [s0 [l' [-> [Hs0 Hrest]]]].
    apply elem_of_cons in Hin as [-> | Hin].
    + exists ev. split; [left | exact Hs0].
    + destruct (IH l' Hrest Hin) as [ev' [Hev' Hs']]. exists ev'. split; [right|]; assumption.
Qed.

(** X15. No false negative on separator-free events: when [hasNewEvents]
    answers [false], the lists have the same length and every new event
    agrees with some stored event on the seven normalized fields. *)
Theorem hasNewEvents_false_complete (oldEvents newEvents : list TrackingEvent) :
  Forall (pipeFreeFields toISOString) oldEvents ->
  Forall (pipeFreeFields toISOString) newEvents ->
  hasNewEvents toISOString oldEvents newEvents = Return false ->
  List.length oldEvents = List.length newEvents /\
  Forall (fun b => exists a, a ∈ oldEvents /\ sameNormalizedFields toISOString a b) newEvents.
Proof.
  intros Hold Hnew. unfold hasNewEvents.
  destruct (Nat.eqb_spec (List.length oldEvents) (List.length newEvents)) as [Hlen|];
    [|discriminate]. simpl.
  destruct (Nat.eqb_spec (List.length oldEvents) 0) as [H0|H0]; simpl.
  - intros _. split; [exact Hlen|]. rewrite H0 in Hlen.
    destruct newEvents; [constructor | discriminate].
  - destruct (signatures toISOString oldEvents) as [so|e] eqn:Hso; [|discriminate].
    intros Hany. split; [exact Hlen|].
    apply anyMissing_false in Hany.
    apply Forall_forall. intros b Hb.
    destruct (proj1 (Forall_forall _ _) Hany b Hb) as [s [Hs Hin]].
    apply elem_of_list_to_set in Hin.
    destruct (signatures_elem oldEvents so s Hso Hin) as [a [Ha Hsa]].
    exists a. split; [exact Ha|].
    apply (signature_inj toISOString a b s); try assumption.
    + apply (proj1 (Forall_forall _ _) Hold a Ha).
    + apply (proj1 (Forall_forall _ _) Hnew b Hb).
Qed.

Lemma createEventSignature_throws (ev : TrackingEvent) (e : Thrown) :
  createEventSignature toISOString ev = Throw e ->
  e = Error "Invalid time value" /\ toISOString (date ev) = None.
Proof.
  unfold createEventSignature.
  destruct (toISOString (date ev)); [discriminate|]. intros H. injection H as <-. auto.
Qed.

Lemma signatures_throws (evs : list TrackingEvent) (e : Thrown) :
  signatures toISOString evs = Throw e ->
  e = Error "Invalid time value" /\
  exists ev, ev ∈ evs /\ toISOString (date ev) = None.
Proof.
  revert e. induction evs as [|ev rest IH]; intros e; simpl; [discriminate|].
  destruct (createEventSignature toISOString ev) as [s|e0] eqn:Hs.
  - destruct (signatures toISOString rest) as [l|e1]; [discriminate|].
    intros H. injection H as <-. destruct (IH e1 eq_refl) as [-> [ev' [Hin Hnone]]].
    split; [reflexivity|]. exists ev'. split; [right|]; assumption.
  - intros H. injection H as <-. destruct (createEventSignature_throws ev e0 Hs) as [-> Hnone].
    split; [reflexivity|]. exists ev. split; [left | exact Hnone].
Qed.

Lemma anyMissing_throws (set : gset string) (evs : list TrackingEvent) (e : Thrown) :
  anyMissing toISOString set evs = Throw e ->
  e = Error "Invalid time value" /\
  exists ev, ev ∈ evs /\ toISOString (date ev) = None.
Proof.
  revert e. induction evs as [|ev rest IH]; intros e; simpl; [discriminate|].
  destruct (createEventSignature toISOString ev) as [s|e0] eqn:Hs.
  - destruct (bool_decide (s ∈ set)); [|discriminate].
    intros H. destruct (IH e H) as [-> [ev' [Hin Hnone]]].
    split; [reflexivity|]. exists ev'. split; [right|]; assumption.
  - intros H. injection H as <-. destruct (createEventSignature_throws ev e0 Hs) as [-> Hnone].
    split; [reflexivity|]. exists ev. split; [left | exact Hnone].
Qed.

(** What a throwing comparison tells. *)
Lemma hasNewEvents_throws (oldEvents newEvents : list TrackingEvent) (e : Thrown) :
  hasNewEvents toISOString oldEvents newEvents = Throw e ->
  e = Error "Invalid time value" /\
  List.length oldEvents = List.length newEvents /\
  oldEvents <> [] /\
  exists ev, ev ∈ oldEvents ++ newEvents /\ toISOString (date ev) = None.
Proof.
  unfold hasNewEvents.
  destruct (Nat.eqb_spec (List.length oldEvents) (List.length newEvents)) as [Hlen|];
    [|discriminate]. simpl.
  destruct (Nat.eqb (List.length oldEvents) 0 && Nat.eqb (List.length newEvents) 0)
    eqn:Hz; [discriminate|].
  assert (Hne : oldEvents <> []).
  { intros ->. destruct newEvents; [discriminate Hz | discriminate Hlen]. }
  destruct (signatures toISOString oldEvents) as [so|e0] eqn:Hso.
  - intros H. destruct (anyMissing_throws _ _ _ H) as [-> [ev [Hin Hnone]]].
    repeat split; try assumption. exists ev. split; [|exact Hnone].
    apply elem_of_app. right. exact Hin.
  - intros H. injection H as <-. destruct (signatures_throws _ _ Hso) as [-> [ev [Hin Hnone]]].
    repeat split; try assumption. exists ev. split; [|exact Hnone].
    apply elem_of_app. left. exact Hin.
Qed.

(** A stored event without an instant makes the comparison of lists of
    equal length throw. *)
Lemma hasNewEvents_stored_undated (oldEvents newEvents : list TrackingEvent) :
  List.length oldEvents = List.length newEvents ->
  (exists ev, ev ∈ oldEvents /\ toISOString (date ev) = None) ->
  hasNewEvents toISOString oldEvents newEvents = Throw (Error "Invalid time value").
Proof.
  intros Hlen [ev [Hin Hnone]]. unfold hasNewEvents.
  rewrite Hlen, Nat.eqb_refl. simpl.
  assert (Hz : Nat.eqb (List.length newEvents) 0 = false).
  { apply Nat.eqb_neq. rewrite <- Hlen. destruct oldEvents; [inversion Hin | discriminate]. }
  rewrite Hz. simpl.
  destruct (signatures toISOString oldEvents) as [so|e0] eqn:Hso.
  - exfalso. clear Hlen Hz. revert so Hso.
    induction oldEvents as [|a rest IH]; intros so Hso; [inversion Hin|].
    apply (signatures_cons toISOString) in Hso as [s [l' [-> [Hs Hrest]]]].
    apply elem_of_cons in Hin as [-> | Hin].
    + unfold createEventSignature in Hs. rewrite Hnone in Hs. discriminate.
    + apply (IH Hin l' Hrest).
  - destruct (signatures_throws _ _ Hso) as [-> _]. reflexivity.
Qed.

(** X16. When the comparison throws: [hasNewEvents] throws nothing but the
    [RangeError] of a date that denotes no instant, only for lists of equal,
    non-zero length of which one holds such a date; it does throw whenever
    such lists hold a stored event with such a date; and lists of different
    lengths are never inspected, so their dates cannot make it throw. *)
Theorem hasNewEvents_invalid_date (oldEvents newEvents : list TrackingEvent) :
  (forall e, hasNewEvents toISOString oldEvents newEvents = Throw e ->
     e = Error "Invalid time value" /\
     List.length oldEvents = List.length newEvents /\
     oldEvents <> [] /\
     exists ev, ev ∈ oldEvents ++ newEvents /\ toISOString (date ev) = None) /\
  (List.length oldEvents = List.length newEvents ->
   (exists ev, ev ∈ oldEvents /\ toISOString (date ev) = None) ->
   hasNewEvents toISOString oldEvents newEvents = Throw (Error "Invalid time value")) /\
  (List.length oldEvents <> List.length newEvents ->
   hasNewEvents toISOString oldEvents newEvents = Return true).
Proof.
  split; [|split].
  - apply hasNewEvents_throws.
  - apply hasNewEvents_stored_undated.
  - intros Hlen. unfold hasNewEvents.
    destruct (Nat.eqb_spec (List.length oldEvents) (List.length newEvents));
      [contradiction | reflexivity].
Qed.

End SignatureFacts.

(** The example events hold no separator. *)
Lemma posted_pipeFree :
  Signature.pipeFreeFields EventComparator.exampleISO Examples.posted /\
  Signature.pipeFreeFields EventComparator.exampleISO Examples.inTransit /\
  Signature.pipeFreeFields EventComparator.exampleISO MoreExamples.postedCopy.
Proof.
  repeat split; try (vm_compute; reflexivity);
    intros iso H; vm_compute in H; injection H as <-; reflexivity.
Qed.

(** X14 at the posted event and its copy with blanks and milliseconds. *)
Lemma signature_equal_iff_witness :
  EventComparator.sameNormalizedFields EventComparator.exampleISO Examples.posted
    MoreExamples.postedCopy.
Proof.
  refine (proj1 (signature_equal_iff EventComparator.exampleISO Examples.posted
                   MoreExamples.postedCopy
                   "Objeto postado|2024-01-01T10:00:00.000Z|São Paulo - SP||||"
                   "Objeto postado|2024-01-01T10:00:00.000Z|São Paulo - SP||||"
                   _ _ _ _) eq_refl).
  - apply posted_pipeFree.
  - apply posted_pipeFree.
  - vm_compute. reflexivity.
  - vm_compute. reflexivity.
Defined.

(** X15 at two stored events and their copies in the other order. *)
Lemma hasNewEvents_false_complete_witness :
  Forall (fun b => exists a, a ∈ [Examples.posted; Examples.inTransit] /\
                     EventComparator.sameNormalizedFields EventComparator.exampleISO a b)
    [Examples.inTransit; MoreExamples.postedCopy].
Proof.
  refine (proj2 (hasNewEvents_false_complete EventComparator.exampleISO
                   [Examples.posted; Examples.inTransit]
                   [Examples.inTransit; MoreExamples.postedCopy] _ _ _)).
  - repeat constructor; apply posted_pipeFree.
  - repeat constructor; apply posted_pipeFree.
  - vm_compute. reflexivity.
Defined.

(* ===================================================================== *)
(** * The use case and the repository write                               *)
(* ===================================================================== *)

Section TableFacts.
Import Retry Types Job Table.

Lemma sameCustomer_refl (a : TrackingEntity) : sameCustomer a a.
Proof. repeat split. Qed.

Lemma sameCustomer_trans (a b c : TrackingEntity) :
  sameCustomer a b -> sameCustomer b c -> sameCustomer a c.
Proof. unfold sameCustomer. intuition congruence. Qed.

Lemma sameCustomer_updatedRow (now : string) (t : TrackingEntity) (st : string)
    (evs : list TrackingEvent) (dt : option string) :
  sameCustomer t (updatedRow now t st evs dt).
Proof. repeat split. Qed.

Lemma sameRows_refl (db : gmap string TrackingEntity) : sameRows db db.
Proof. intros k. destruct (db !! k); [apply sameCustomer_refl | exact I]. Qed.

Lemma sameRows_trans (a b c : gmap string TrackingEntity) :
  sameRows a b -> sameRows b c -> sameRows a c.
Proof.
  intros Hab Hbc k. specialize (Hab k). specialize (Hbc k).
  destruct (a !! k), (b !! k), (c !! k); try contradiction; try exact I.
  eapply sameCustomer_trans; eassumption.
Qed.

Lemma sameRows_update (now : string) (db : gmap string TrackingEntity) (code : string)
    (row : TrackingEntity) (st : string) (evs : list TrackingEvent) (dt : option string) :
  db !! code = Some row ->
  sameRows db (<[code := updatedRow now row st evs dt]> db).
Proof.
  intros Hrow k. destruct (decide (code = k)) as [<-|Hne].
  - rewrite Hrow, lookup_insert_eq. apply sameCustomer_updatedRow.
  - rewrite lookup_insert_ne by exact Hne.
    destruct (db !! k); [apply sameCustomer_refl | exact I].
Qed.

Lemma notifications_published (effs : list Publisher.Effect) :
  notifications (List.map Published effs) = Publisher.emailsSent effs.
Proof.
  induction effs as [|[d|m c t] effs IH]; simpl; [reflexivity | | exact IH].
  rewrite IH. reflexivity.
Qed.

Lemma filter_nonempty_id (l : list string) :
  Forall (fun s => s <> "") l ->
  List.filter (fun s => negb (String.eqb s "")) l = l.
Proof.
  induction 1 as [|s l Hs _ IH]; simpl; [reflexivity|].
  apply String.eqb_neq in Hs. rewrite Hs. simpl. rewrite IH. reflexivity.
Qed.

End TableFacts.

Section UseCaseFacts.
Import Retry Types Job Table.
Variable now : string.
Variable toISOString : string -> option string.
Variable sendTrackingEmail : Publisher.EmailData -> Outcome unit.

Local Abbreviation exec := (execute now toISOString sendTrackingEmail).

(** X17. [updateStatus]: an unknown code is an error that leaves the table
    alone; a known one rewrites status, events and [updated_at] of that row,
    rewrites [dt_expected] only when a value is supplied, and touches neither
    the other columns nor the other rows. *)
Theorem updateStatus_row (db : gmap string TrackingEntity) (code newStatus : string)
    (newEvents : list TrackingEvent) (dt : option string) :
  (db !! code = None ->
   updateStatus now db code newStatus newEvents dt
   = (Throw (Error ("Tracking with tracking code " ++ code ++ " not found")%string), db)) /\
  (forall row, db !! code = Some row ->
     exists row',
       updateStatus now db code newStatus newEvents dt
       = (Return row', <[code := row']> db) /\
       currentStatus row' = newStatus /\ events row' = newEvents /\
       updatedAt row' = Some now /\
       dtExpected row' = (if Js.truthy dt then dt else dtExpected row) /\
       sameCustomer row row') /\
  sameRows db (snd (updateStatus now db code newStatus newEvents dt)) /\
  (forall k, k <> code ->
     snd (updateStatus now db code newStatus newEvents dt) !! k = db !! k).
Proof.
  unfold updateStatus. split; [|split; [|split]].
  - intros ->. reflexivity.
  - intros row ->. eexists. split; [reflexivity|]. repeat split.
  - destruct (db !! code) as [row|] eqn:Hrow; simpl.
    + apply sameRows_update, Hrow.
    + apply sameRows_refl.
  - intros k Hk. destruct (db !! code); simpl; [|reflexivity].
    apply lookup_insert_ne. congruence.
Qed.

(** X18. [execute]: for an unknown code it throws before any write; for a
    known one whose event comparison returns it always writes, exactly once,
    and it publishes only when the status or the events changed (a record
    without an id is written and then fails).  What it returns and what it
    writes do not depend on the mail transport. *)
Theorem execute_contract (db : gmap string TrackingEntity)
    (request : UpdateTrackingStatusRequest) :
  (db !! req_trackingCode request = None ->
   exec db request = (Throw (Error "Tracking não encontrado"), db, [])) /\
  (forall current eventsChanged,
     db !! req_trackingCode request = Some current ->
     EventComparator.hasNewEvents toISOString (events current) (req_events request)
       = Return eventsChanged ->
     let written := Persisted (req_trackingCode request) (req_newStatus request)
                      (req_events request) (req_dtExpected request) in
     let changed := hasStatusChanged current (req_newStatus request) || eventsChanged in
     snd (fst (exec db request))
       = <[req_trackingCode request :=
             updatedRow now current (req_newStatus request) (req_events request)
               (req_dtExpected request)]> db /\
     writes (snd (exec db request)) = [written] /\
     (changed = false ->
      exec db request
      = (Return false,
         <[req_trackingCode request :=
             updatedRow now current (req_newStatus request) (req_events request)
               (req_dtExpected request)]> db, [written])) /\
     (changed = true ->
      forall event,
        fromTracking now current (req_newStatus request) (req_events request) = Return event ->
        fst (fst (exec db request))
          = Return (hasStatusChanged current (req_newStatus request)) /\
        notifications (snd (exec db request))
          = Publisher.emailsSent (Publisher.publish sendTrackingEmail event)) /\
     (changed = true ->
      forall e,
        fromTracking now current (req_newStatus request) (req_events request) = Throw e ->
        fst (fst (exec db request)) = Throw e /\ snd (exec db request) = [written])) /\
  (forall otherTransport,
     fst (exec db request) = fst (execute now toISOString otherTransport db request)).
Proof.
  split; [|split].
  - intros Hnone. unfold execute. rewrite Hnone. reflexivity.
  - intros current ev Hrow Hcmp. cbv zeta. unfold execute, updateStatus.
    rewrite Hrow, Hcmp.
    destruct (hasStatusChanged current (req_newStatus request) || ev) eqn:Hch.
    + destruct (fromTracking now current (req_newStatus request) (req_events request))
        as [event|e] eqn:Hev; simpl.
      * split; [reflexivity|]. split; [rewrite writes_published; reflexivity|].
        split; [discriminate|]. split.
        -- intros _ event' Heq. injection Heq as <-.
           split; [reflexivity | apply notifications_published].
        -- intros _ e' Heq. discriminate.
      * split; [reflexivity|]. split; [reflexivity|].
        split; [discriminate|]. split.
        -- intros _ event' Heq. discriminate.
        -- intros _ e' Heq. injection Heq as <-. split; reflexivity.
    + simpl. split; [reflexivity|]. split; [reflexivity|]. split.
      * intros _. apply orb_false_iff in Hch as [-> _]. reflexivity.
      * split; discriminate.
  - intros other. unfold execute, updateStatus.
    destruct (db !! req_trackingCode request) as [current|]; [|reflexivity].
    destruct (EventComparator.hasNewEvents _ _ _) as [ev|e]; [|reflexivity].
    destruct (hasStatusChanged _ _ || ev); [|reflexivity].
    destruct (fromTracking _ _ _ _); reflexivity.
Qed.

Lemma fromTracking_throws (t : TrackingEntity) (newStatus : string)
    (newEvents : list TrackingEvent) (e : Thrown) :
  fromTracking now t newStatus newEvents = Throw e -> exists m, e = Error m.
Proof.
  unfold fromTracking. destruct (id t) as [tid|]; [destruct (String.eqb tid "")|];
    try discriminate; intros H; injection H as <-; eauto.
Qed.

(** X19. [fromTracking] throws exactly for a record without an id; the
    event it builds otherwise carries that id, the status the record had and
    the new one, and a product list that is never empty and holds no empty
    name: one entry per product of the record, or the single entry "N/A".
    Without events it carries no detail and no address. *)
Theorem fromTracking_event (t : TrackingEntity) (newStatus : string)
    (newEvents : list TrackingEvent) :
  match fromTracking now t newStatus newEvents with
  | Throw e =>
      e = Error "Tracking deve ter um ID para criar evento de mudança de status" /\
      (id t = None \/ id t = Some "")
  | Return ev =>
      id t = Some (Publisher.trackingId ev) /\
      Publisher.trackingId ev <> "" /\
      Forall (fun p => p <> "") (Publisher.products ev) /\
      List.length (Publisher.products ev) = Nat.max 1 (List.length (products t)) /\
      (products t = [] -> Publisher.products ev = ["N/A"]) /\
      Publisher.previousStatus ev = currentStatus t /\
      Publisher.newStatus ev = newStatus /\
      (newEvents = [] ->
       Publisher.detail ev = None /\ Publisher.unitAddress ev = None /\
       Publisher.unitCep ev = None)
  end.
Proof.
  unfold fromTracking. destruct (id t) as [tid|]; [|auto].
  destruct (String.eqb_spec tid "") as [->|Hne]; [auto|]. simpl.
  set (names := List.map _ (products t)).
  assert (Hnames : Forall (fun s => s <> "") names).
  { unfold names. apply Forall_forall. intros s Hin.
    apply list_elem_of_In, List.in_map_iff in Hin as [p [<- _]].
    destruct (String.eqb_spec (product_name p) ""); [discriminate | assumption]. }
  rewrite (filter_nonempty_id names Hnames).
  assert (Hlen : List.length names = List.length (products t))
    by (unfold names; apply List.length_map).
  split; [reflexivity|]. split; [exact Hne|]. split; [|split; [|split; [|split; [|split]]]].
  - destruct names; [repeat constructor; discriminate | exact Hnames].
  - rewrite <- Hlen. destruct names as [|n [|m names]]; simpl; lia.
  - intros Hnil. rewrite Hnil in Hlen. destruct names; [reflexivity | discriminate].
  - reflexivity.
  - reflexivity.
  - intros ->. simpl. auto.
Qed.

(** [execute] fails only with plain errors. *)
Lemma execute_throws_plain (db : gmap string TrackingEntity)
    (request : UpdateTrackingStatusRequest) (e : Thrown) :
  fst (fst (exec db request)) = Throw e -> isTemporary e = false.
Proof.
  unfold execute, updateStatus.
  destruct (db !! req_trackingCode request) as [current|];
    [|simpl; intros H; injection H as <-; reflexivity].
  destruct (EventComparator.hasNewEvents _ _ _) as [ev|e0] eqn:Hcmp.
  - destruct (hasStatusChanged _ _ || ev); [|discriminate].
    destruct (fromTracking _ _ _ _) as [event|e1] eqn:Hev; [discriminate|].
    simpl. intros H. injection H as <-.
    destruct (fromTracking_throws _ _ _ _ Hev) as [m ->]. reflexivity.
  - simpl. intros H. injection H as <-.
    destruct (hasNewEvents_throws toISOString _ _ _ Hcmp) as [-> _]. reflexivity.
Qed.

Lemma execute_sameRows (db : gmap string TrackingEntity)
    (request : UpdateTrackingStatusRequest) :
  sameRows db (snd (fst (exec db request))).
Proof.
  unfold execute, updateStatus.
  destruct (db !! req_trackingCode request) as [current|] eqn:Hrow; [|apply sameRows_refl].
  destruct (EventComparator.hasNewEvents _ _ _) as [ev|e]; [|apply sameRows_refl].
  destruct (hasStatusChanged _ _ || ev); [destruct (fromTracking _ _ _ _)|]; simpl;
    apply sameRows_update, Hrow.
Qed.

Lemma execute_writes_le (db : gmap string TrackingEntity)
    (request : UpdateTrackingStatusRequest) :
  (List.length (writes (snd (exec db request))) <= 1)%nat /\
  (forall b, fst (fst (exec db request)) = Return b ->
             List.length (writes (snd (exec db request))) = 1%nat).
Proof.
  unfold execute, updateStatus.
  destruct (db !! req_trackingCode request) as [current|]; [|simpl; split; [lia|discriminate]].
  destruct (EventComparator.hasNewEvents _ _ _) as [ev|e];
    [|simpl; split; [lia|discriminate]].
  destruct (hasStatusChanged _ _ || ev); [destruct (fromTracking _ _ _ _)|]; simpl;
    rewrite ?writes_published; simpl; split; auto; lia.
Qed.

End UseCaseFacts.

(* ===================================================================== *)
(** * A pass of the job: rows, repeated polls, counters                   *)
(* ===================================================================== *)

Section PassFacts.
Import Retry Types Job Table.
Variable trackCorreios : string -> Outcome Correios.CorreiosResponse.
Variable now : string.
Variable toISOString : string -> option string.
Variable sendTrackingEmail : Publisher.EmailData -> Outcome unit.

Local Abbreviation step := (processRecord trackCorreios now toISOString sendTrackingEmail).
Local Abbreviation exec := (execute now toISOString sendTrackingEmail).
Local Abbreviation pass := (processTrackings trackCorreios now toISOString sendTrackingEmail).

Lemma processRecord_sameRows (st : JobState) (tracking : TrackingEntity) :
  sameRows (store st) (store (step st tracking)).
Proof.
  unfold processRecord.
  destruct (trackCorreios (trackingCode tracking)) as [data|e].
  - destruct (EventComparator.hasNewEvents _ _ _) as [ev|e].
    + destruct (negb _ || ev); [|apply sameRows_refl].
      match goal with |- context [exec ?db ?rq] =>
        pose proof (execute_sameRows now toISOString sendTrackingEmail db rq) as Hs;
        destruct (exec db rq) as [[[b|e] db'] effs] end; simpl in Hs.
      * exact Hs.
      * rewrite (proj1 (onError_frame e _)). exact Hs.
    + rewrite (proj1 (onError_frame e _)). apply sameRows_refl.
  - rewrite (proj1 (onError_frame e st)). apply sameRows_refl.
Qed.

(** X20. A pass never creates or deletes a row and never touches the
    customer's columns: whatever the lookups answer, the table after the
    pass holds the same keys, and each row differs from what it was at most
    in its status, events, [updated_at] and [dt_expected]. *)
Theorem pass_keeps_rows (trackings : list TrackingEntity)
    (db : gmap string TrackingEntity) :
  sameRows db (store (pass trackings db)) /\
  dom (store (pass trackings db)) = dom db.
Proof.
  assert (Hgen : forall st, sameRows (store st) (store (List.fold_left step trackings st))).
  { induction trackings as [|t ts IH]; intros st; [apply sameRows_refl|].
    simpl. eapply sameRows_trans; [apply processRecord_sameRows | apply IH]. }
  assert (Hrows : sameRows db (store (pass trackings db))) by apply (Hgen (startPass db)).
  split; [exact Hrows|].
  apply set_eq. intros k. rewrite !elem_of_dom. specialize (Hrows k).
  destruct (db !! k), (store (pass trackings db) !! k); try contradiction;
    split; intros [x Hx]; try discriminate; eauto.
Qed.

(** X21. A second poll that brings the same answer is a no-op: once an
    iteration has written the lookup's result to the row, an iteration on
    the row as it is now, with the same answer, changes neither the table
    nor the trace (no write, no notification) and counts no update. *)
Theorem second_poll_is_noop (st : JobState) (tracking : TrackingEntity)
    (data : Correios.CorreiosResponse) (eventsChanged : bool) (sigs : list string) :
  store st !! trackingCode tracking = Some tracking ->
  trackCorreios (trackingCode tracking) = Return data ->
  EventComparator.hasNewEvents toISOString (events tracking) (Correios.events data)
    = Return eventsChanged ->
  Correios.status data <> currentStatus tracking \/ eventsChanged = true ->
  EventComparator.signatures toISOString (Correios.events data) = Return sigs ->
  let st1 := step st tracking in
  let row1 := updatedRow now tracking (Correios.status data) (Correios.events data)
                (Correios.dtPrevista data) in
  store st1 !! trackingCode tracking = Some row1 /\
  store (step st1 row1) = store st1 /\
  trace (step st1 row1) = trace st1 /\
  updatedCount (step st1 row1) = updatedCount st1.
Proof.
  intros Hrow Hlook Hcmp Hchanged Hsigs st1 row1.
  assert (Hstore : store st1 = <[trackingCode tracking := row1]> (store st)).
  { unfold st1, processRecord. rewrite Hlook, Hcmp.
    assert (Hif : negb (String.eqb (Correios.status data) (currentStatus tracking))
                  || eventsChanged = true).
    { destruct Hchanged as [Hne | ->]; [|apply orb_true_r].
      apply orb_true_iff. left. apply negb_true_iff, String.eqb_neq. exact Hne. }
    rewrite Hif. cbn [store].
    destruct (execute_found now toISOString sendTrackingEmail (store st) tracking
                {| req_trackingCode := trackingCode tracking;
                   req_newStatus := Correios.status data;
                   req_events := Correios.events data;
                   req_dtExpected := Correios.dtPrevista data |} eventsChanged Hrow Hcmp)
      as [r [effs [Hexec _]]].
    rewrite Hexec. destruct r as [b|e]; [reflexivity|].
    rewrite (proj1 (onError_frame e _)). reflexivity. }
  assert (Hsame : EventComparator.hasNewEvents toISOString (events row1)
                    (Correios.events data) = Return false).
  { destruct (hasNewEvents_equal_length toISOString _ _ sigs sigs Hsigs Hsigs eq_refl)
      as [b [Hb Hiff]].
    simpl. rewrite Hb. destruct b; [|reflexivity].
    destruct (proj1 Hiff eq_refl) as [s [Hs Hns]]. contradiction. }
  split.
  - rewrite Hstore. apply lookup_insert_eq.
  - clearbody st1. unfold processRecord. simpl trackingCode. rewrite Hlook, Hsame.
    simpl currentStatus. rewrite String.eqb_refl. simpl. auto.
Qed.

(** X22. A stored event whose date denotes no instant blocks the record
    while the carrier reports as many events as are stored: the iteration
    fails after the lookup, so it is counted as a success and as an error,
    and it writes nothing, even when the status changed. *)
Theorem invalid_stored_date_blocks (st : JobState) (tracking : TrackingEntity)
    (data : Correios.CorreiosResponse) :
  trackCorreios (trackingCode tracking) = Return data ->
  List.length (events tracking) = List.length (Correios.events data) ->
  (exists ev, ev ∈ events tracking /\ toISOString (date ev) = None) ->
  store (step st tracking) = store st /\
  trace (step st tracking) = trace st /\
  successCount (step st tracking) = successCount st + 1 /\
  errorCount (step st tracking) = errorCount st + 1 /\
  updatedCount (step st tracking) = updatedCount st /\
  consecutiveFailures (step st tracking) = 1.
Proof.
  intros Hlook Hlen Hbad. unfold processRecord. rewrite Hlook.
  rewrite (hasNewEvents_stored_undated toISOString _ _ Hlen Hbad).
  unfold onError. simpl. repeat split.
Qed.

(** ** Counters of a pass *)

Hypothesis rejectsTemporary :
  forall code e, trackCorreios code = Throw e -> isTemporary e = true.

Lemma writes_length_app (a b : list JobEvent) :
  List.length (writes (a ++ b)) = (List.length (writes a) + List.length (writes b))%nat.
Proof. rewrite writes_app. apply List.length_app. Qed.

Lemma onError_counts (e : Thrown) (st : JobState) :
  isTemporary e = false ->
  successCount (onError e st) = successCount st /\
  skippedCount (onError e st) = skippedCount st /\
  errorCount (onError e st) = errorCount st + 1 /\
  updatedCount (onError e st) = updatedCount st /\
  List.length (writes (trace (onError e st))) = List.length (writes (trace st)).
Proof.
  intros Ht. rewrite (proj2 (onError_frame e st)). unfold onError. rewrite Ht. simpl. auto.
Qed.

Lemma processRecord_counts (st : JobState) (tracking : TrackingEntity) :
  let st' := step st tracking in
  let dw := (Z.of_nat (List.length (writes (trace st')))
             - Z.of_nat (List.length (writes (trace st)))) in
  successCount st' + skippedCount st' = successCount st + skippedCount st + 1 /\
  successCount st <= successCount st' /\
  skippedCount st <= skippedCount st' /\
  errorCount st <= errorCount st' /\
  updatedCount st <= updatedCount st' /\
  (errorCount st' - errorCount st) + (updatedCount st' - updatedCount st)
    <= successCount st' - successCount st /\
  updatedCount st' - updatedCount st <= dw <= successCount st' - successCount st.
Proof.
  cbv zeta. unfold processRecord.
  destruct (trackCorreios (trackingCode tracking)) as [data|e] eqn:Hlook.
  - destruct (EventComparator.hasNewEvents _ _ _) as [ev|e] eqn:Hcmp.
    + destruct (negb _ || ev).
      * match goal with |- context [exec ?db ?rq] =>
          pose proof (execute_writes_le now toISOString sendTrackingEmail db rq)
            as [Hle Hone];
          pose proof (execute_throws_plain now toISOString sendTrackingEmail db rq)
            as Hplain;
          destruct (exec db rq) as [[[b|e] db'] effs] end; simpl in Hle, Hone, Hplain.
        -- simpl. rewrite writes_length_app. specialize (Hone b eq_refl). lia.
        -- match goal with |- context [onError e ?s] =>
             destruct (onError_counts e s (Hplain e eq_refl)) as (H1 & H2 & H3 & H4 & H5)
           end.
           simpl in *. rewrite H1, H2, H3, H4, H5, writes_length_app. lia.
      * simpl. lia.
    + destruct (hasNewEvents_throws toISOString _ _ _ Hcmp) as [-> _].
      unfold onError. simpl. lia.
  - pose proof (rejectsTemporary _ _ Hlook) as Ht.
    unfold onError. rewrite Ht. simpl. lia.
Qed.

Lemma pass_counts (trackings : list TrackingEntity) (db : gmap string TrackingEntity) :
  let st := pass trackings db in
  successCount st + skippedCount st = Z.of_nat (List.length trackings) /\
  0 <= skippedCount st /\ 0 <= errorCount st /\ 0 <= updatedCount st /\
  errorCount st + updatedCount st <= successCount st /\
  updatedCount st <= Z.of_nat (List.length (writes (trace st))) <= successCount st.
Proof.
  cbv zeta. unfold processTrackings.
  assert (Hgen : forall st,
    let st' := List.fold_left step trackings st in
    let dw := (Z.of_nat (List.length (writes (trace st')))
               - Z.of_nat (List.length (writes (trace st)))) in
    successCount st' + skippedCount st'
      = successCount st + skippedCount st + Z.of_nat (List.length trackings) /\
    successCount st <= successCount st' /\
    skippedCount st <= skippedCount st' /\
    errorCount st <= errorCount st' /\
    updatedCount st <= updatedCount st' /\
    (errorCount st' - errorCount st) + (updatedCount st' - updatedCount st)
      <= successCount st' - successCount st /\
    updatedCount st' - updatedCount st <= dw <= successCount st' - successCount st).
  { induction trackings as [|t ts IH]; intros st; cbv zeta.
    - simpl. lia.
    - simpl List.fold_left. specialize (IH (step st t)). cbv zeta in IH.
      pose proof (processRecord_counts st t) as Hstep. cbv zeta in Hstep.
      rewrite length_cons, Nat2Z.inj_succ. lia. }
  specialize (Hgen (startPass db)). cbv zeta in Hgen. simpl in Hgen. lia.
Qed.

End PassFacts.

(** X23. The counters a pass reports, with the lookup of the sources: every
    record is either a success or a skip; errors and updates are counted
    among the successes and never both for one record; and the number of
    writes lies between the updates and the successes. *)
Theorem pass_counters (carrier : string -> nat -> Correios.Exchange) (now : string)
    (toISOString : string -> option string)
    (sendTrackingEmail : Publisher.EmailData -> Retry.Outcome unit)
    (trackings : list Job.TrackingEntity) (db : gmap string Job.TrackingEntity) :
  let st := Job.processTrackings (Correios.trackCorreios carrier now) now toISOString
              sendTrackingEmail trackings db in
  Job.successCount st + Job.skippedCount st = Z.of_nat (List.length trackings) /\
  0 <= Job.skippedCount st /\ 0 <= Job.errorCount st /\ 0 <= Job.updatedCount st /\
  Job.errorCount st + Job.updatedCount st <= Job.successCount st /\
  Job.updatedCount st <= Z.of_nat (List.length (Job.writes (Job.trace st)))
    <= Job.successCount st.
Proof.
  apply pass_counts. intros code e. apply trackCorreios_rejects_temporary.
Qed.

(** X24. When the carrier answers each of the three attempts with a failure
    that is retried, the last one TEMPORARY, the record is skipped: only the
    skip counter moves; the table, the trace, the other metrics and the
    failure counter stay as they were. *)
Theorem temporary_failure_skips (carrier : string -> nat -> Correios.Exchange)
    (now : string) (toISOString : string -> option string)
    (sendTrackingEmail : Publisher.EmailData -> Retry.Outcome unit)
    (st : Job.JobState) (tracking : Job.TrackingEntity) (e : Retry.Thrown) :
  Correios.exhausted carrier (Job.trackingCode tracking) e ->
  Retry.isTemporary e = true ->
  Job.processRecord (Correios.trackCorreios carrier now) now toISOString
    sendTrackingEmail st tracking
  = {| Job.store := Job.store st;
       Job.consecutiveFailures := Job.consecutiveFailures st;
       Job.successCount := Job.successCount st;
       Job.errorCount := Job.errorCount st;
       Job.updatedCount := Job.updatedCount st;
       Job.skippedCount := Job.skippedCount st + 1;
       Job.trace := Job.trace st |}.
Proof.
  intros Hex Ht. unfold Job.processRecord, Correios.trackCorreios.
  rewrite (exhausted_tryBlock carrier now _ e Hex), Ht.
  unfold Job.onError. rewrite Ht. reflexivity.
Qed.

(** X21 at the record in transit, polled twice while the carrier reports
    the same two events. *)
Lemma second_poll_is_noop_witness :
  exists row,
    Job.store MoreExamples.afterFirstPoll !! Examples.exampleCode = Some row /\
    Job.store (Job.processRecord Examples.movedLookup Examples.exampleNow
                 EventComparator.exampleISO Examples.mailOk MoreExamples.afterFirstPoll row)
    = Job.store MoreExamples.afterFirstPoll /\
    Job.trace (Job.processRecord Examples.movedLookup Examples.exampleNow
                 EventComparator.exampleISO Examples.mailOk MoreExamples.afterFirstPoll row)
    = Job.trace MoreExamples.afterFirstPoll.
Proof.
  destruct (Examples.movedLookup Examples.exampleCode) as [data|e] eqn:Hlook;
    [|vm_compute in Hlook; discriminate].
  exists (Job.updatedRow Examples.exampleNow Examples.inTransitRecord
            (Correios.status data) (Correios.events data) (Correios.dtPrevista data)).
  edestruct (second_poll_is_noop Examples.movedLookup Examples.exampleNow
               EventComparator.exampleISO Examples.mailOk Examples.oneRowPass
               Examples.inTransitRecord data true) as (Hrow & Hstore & Htrace & _).
  - reflexivity.
  - exact Hlook.
  - vm_compute in Hlook. injection Hlook as <-. vm_compute. reflexivity.
  - right. reflexivity.
  - vm_compute in Hlook. injection Hlook as <-. vm_compute. reflexivity.
  - split; [exact Hrow|]. split; [exact Hstore | exact Htrace].
Defined.

(** X22 at a record that stores an event without a valid date. *)
Lemma invalid_stored_date_blocks_witness :
  Job.store (Job.processRecord Examples.unchangedLookup Examples.exampleNow
               EventComparator.exampleISO Examples.mailOk MoreExamples.undatedPass
               MoreExamples.undatedRecord)
  = Job.store MoreExamples.undatedPass /\
  Job.errorCount (Job.processRecord Examples.unchangedLookup Examples.exampleNow
                    EventComparator.exampleISO Examples.mailOk MoreExamples.undatedPass
                    MoreExamples.undatedRecord)
  = Job.errorCount MoreExamples.undatedPass + 1.
Proof.
  destruct (invalid_stored_date_blocks Examples.unchangedLookup Examples.exampleNow
              EventComparator.exampleISO Examples.mailOk MoreExamples.undatedPass
              MoreExamples.undatedRecord Examples.sameEventResponse)
    as (Hstore & _ & _ & Herr & _).
  - reflexivity.
  - reflexivity.
  - exists MoreExamples.undated. split; [left | reflexivity].
  - split; [exact Hstore | exact Herr].
Defined.

(** X24 at a carrier that answers 503 to every attempt. *)
Lemma temporary_failure_skips_witness :
  Job.skippedCount
    (Job.processRecord (Correios.trackCorreios Examples.carrier503 Examples.exampleNow)
       Examples.exampleNow EventComparator.exampleISO Examples.mailOk Examples.oneRowPass
       Examples.inTransitRecord)
  = Job.skippedCount Examples.oneRowPass + 1.
Proof.
  rewrite (temporary_failure_skips Examples.carrier503 Examples.exampleNow
             EventComparator.exampleISO Examples.mailOk Examples.oneRowPass
             Examples.inTransitRecord MoreExamples.unavailable).
  - reflexivity.
  - exists MoreExamples.unavailable, MoreExamples.unavailable. repeat split; reflexivity.
  - reflexivity.
Defined.

(* ===================================================================== *)
(** * The CPF value object                                                *)
(* ===================================================================== *)

Section CustomerCPFFacts.
Import Retry CustomerCPF.

Lemma clean_digits (s : string) :
  List.forallb isDigit (list_ascii_of_string (clean s)) = true.
Proof.
  induction s as [|c s IH]; simpl; [reflexivity|].
  destruct (isDigit c) eqn:Hc; simpl; [rewrite Hc|]; exact IH.
Qed.

Lemma clean_fix (s : string) :
  List.forallb isDigit (list_ascii_of_string s) = true -> clean s = s.
Proof.
  induction s as [|c s IH]; simpl; [reflexivity|].
  intros H. apply andb_true_iff in H as [Hc Hs]. rewrite Hc, (IH Hs). reflexivity.
Qed.

Lemma clean_idem (s : string) : clean (clean s) = clean s.
Proof. apply clean_fix, clean_digits. Qed.

Lemma clean_length (s : string) : (String.length (clean s) <= String.length s)%nat.
Proof.
  induction s as [|c s IH]; simpl; [lia|]. destruct (isDigit c); simpl; lia.
Qed.

(** Validity is a property of the digits alone. *)
Lemma isValid_clean (value : string) : isValid (clean value) = isValid value.
Proof.
  unfold isValid. rewrite clean_idem.
  destruct (String.eqb_spec value "") as [->|Hv]; [reflexivity|].
  destruct (String.eqb_spec (clean value) "") as [Hc|Hc]; [|reflexivity].
  rewrite Hc. reflexivity.
Qed.

(** What a valid value satisfies. *)
Lemma isValid_true (value : string) :
  isValid value = true ->
  String.length (clean value) = 11%nat /\
  allSameDigit (clean value) = false /\
  List.nth 9 (digitsOf (clean value)) 0
    = checkDigit (weightedSum (digitsOf (clean value)) 9 10) /\
  List.nth 10 (digitsOf (clean value)) 0
    = checkDigit (weightedSum (digitsOf (clean value)) 10 11).
Proof.
  unfold isValid. destruct (String.eqb value ""); [discriminate|].
  destruct (Nat.eqb_spec (String.length (clean value)) 11) as [Hlen|]; [|discriminate].
  simpl. destruct (allSameDigit (clean value)); [discriminate|].
  destruct (Z.eqb_spec (List.nth 9 (digitsOf (clean value)) 0)
              (checkDigit (weightedSum (digitsOf (clean value)) 9 10))) as [H9|];
    [|discriminate].
  simpl. intros H10. apply Z.eqb_eq in H10. auto.
Qed.

(** X25. [create] accepts exactly the values [isValid] accepts, and what
    it stores is a normal form: the eleven digits of the value, nothing
    else, which [create] maps to themselves. *)
Theorem create_normal_form (value : string) :
  match create value with
  | Return c =>
      isValid value = true /\ c = clean value /\ String.length c = 11%nat /\
      List.forallb isDigit (list_ascii_of_string c) = true /\
      create c = Return c
  | Throw e => isValid value = false /\ e = Error "CPF inválido"
  end.
Proof.
  unfold create. destruct (isValid value) eqn:Hv; simpl; [|auto].
  split; [reflexivity|]. split; [reflexivity|].
  split; [apply (isValid_true value Hv)|]. split; [apply clean_digits|].
  rewrite isValid_clean, Hv, clean_idem. reflexivity.
Qed.

Lemma Number_inj (a b : ascii) : Number a = Number b -> a = b.
Proof.
  unfold Number. intros H.
  assert (Hn : nat_of_ascii a = nat_of_ascii b) by lia.
  rewrite <- (ascii_nat_embedding a), <- (ascii_nat_embedding b), Hn. reflexivity.
Qed.

(** A string of eleven characters, spelled out. *)
Lemma eleven (s : string) :
  String.length s = 11%nat ->
  exists c0 c1 c2 c3 c4 c5 c6 c7 c8 c9 c10,
    s = String c0 (String c1 (String c2 (String c3 (String c4 (String c5 (String c6
          (String c7 (String c8 (String c9 (String c10 EmptyString)))))))))).
Proof.
  intros H.
  do 11 (destruct s as [|? s]; [discriminate H|]).
  destruct s; [|discriminate H]. repeat eexists.
Qed.

(** X26. The two check digits are a function of the first nine digits: two
    values [create] accepts that agree on their first nine digits are the
    same CPF. *)
Theorem check_digits_determined (va vb a b : string) :
  create va = Return a -> create vb = Return b ->
  String.substring 0 9 a = String.substring 0 9 b -> a = b.
Proof.
  unfold create. intros Ha Hb Hnine.
  destruct (isValid va) eqn:Hva; [|discriminate]. injection Ha as <-.
  destruct (isValid vb) eqn:Hvb; [|discriminate]. injection Hb as <-.
  destruct (isValid_true va Hva) as (Hla & _ & Ha9 & Ha10).
  destruct (isValid_true vb Hvb) as (Hlb & _ & Hb9 & Hb10).
  destruct (eleven _ Hla) as (a0 & a1 & a2 & a3 & a4 & a5 & a6 & a7 & a8 & a9 & a10 & Ea).
  destruct (eleven _ Hlb) as (b0 & b1 & b2 & b3 & b4 & b5 & b6 & b7 & b8 & b9 & b10 & Eb).
  rewrite Ea in *. rewrite Eb in *. clear Ea Eb Hla Hlb.
  cbn [String.substring] in Hnine.
  injection Hnine as -> -> -> -> -> -> -> -> ->.
  unfold digitsOf, weightedSum in *.
  cbn [list_ascii_of_string List.map List.nth List.seq List.fold_left] in *.
  rewrite <- Hb9 in Ha9. apply Number_inj in Ha9. subst a9.
  rewrite <- Hb10 in Ha10. apply Number_inj in Ha10. subst a10.
  reflexivity.
Qed.

Lemma isDigit_cases (c : ascii) :
  isDigit c = true ->
  In c ["0"; "1"; "2"; "3"; "4"; "5"; "6"; "7"; "8"; "9"]%char.
Proof.
  destruct c as [[] [] [] [] [] [] [] []]; intros H;
    first [discriminate H | simpl; tauto].
Qed.

(** X27. Every string of eleven equal digits passes both check digits, and
    [isValid] rejects it all the same: the test for equal digits is what
    keeps these values out. *)
Theorem equal_digits_rejected (c : ascii) :
  isDigit c = true ->
  List.nth 9 (digitsOf (repeated c 11)) 0
    = checkDigit (weightedSum (digitsOf (repeated c 11)) 9 10) /\
  List.nth 10 (digitsOf (repeated c 11)) 0
    = checkDigit (weightedSum (digitsOf (repeated c 11)) 10 11) /\
  isValid (repeated c 11) = false.
Proof.
  intros H. apply isDigit_cases in H. simpl in H.
  repeat (destruct H as [<- | H]; [vm_compute; repeat split|]). contradiction.
Qed.

Lemma isDigit_mask : isDigit "."%char = false /\ isDigit "-"%char = false.
Proof. split; reflexivity. Qed.

(** X28. The masked form reads back: [create] accepts the masked form of a
    CPF it created, and gives the same CPF; the masked form has fourteen
    characters. *)
Theorem toMasked_roundtrip (value c : string) :
  create value = Return c ->
  create (toMasked c) = Return c /\ String.length (toMasked c) = 14%nat.
Proof.
  unfold create at 1. intros Hc.
  destruct (isValid value) eqn:Hv; [|discriminate]. injection Hc as <-.
  destruct (isValid_true value Hv) as (Hlen & _).
  pose proof (clean_digits value) as Hdig.
  assert (Hfix : isValid (clean value) = true) by (rewrite isValid_clean; exact Hv).
  destruct (eleven _ Hlen) as (c0 & c1 & c2 & c3 & c4 & c5 & c6 & c7 & c8 & c9 & c10 & E).
  rewrite E in *.
  cbn [list_ascii_of_string List.forallb] in Hdig.
  repeat (apply andb_true_iff in Hdig as [? Hdig]).
  assert (Hclean : clean (toMasked (String c0 (String c1 (String c2 (String c3 (String c4
                     (String c5 (String c6 (String c7 (String c8 (String c9
                     (String c10 EmptyString))))))))))))
                   = String c0 (String c1 (String c2 (String c3 (String c4
                     (String c5 (String c6 (String c7 (String c8 (String c9
                     (String c10 EmptyString))))))))))).
  { unfold toMasked. simpl.
    destruct isDigit_mask as [Hdot Hdash].
    repeat match goal with
    | Hd : isDigit ?x = _ |- context [isDigit ?x] => rewrite Hd
    end.
    reflexivity. }
  split; [|reflexivity].
  unfold create. rewrite <- isValid_clean, Hclean, Hfix. reflexivity.
Qed.

End CustomerCPFFacts.

(** X26 at a CPF of the test suite, masked and unmasked. *)
Lemma check_digits_determined_witness :
  CustomerCPF.clean "111.444.777-35" = "11144477735".
Proof.
  apply (check_digits_determined "111.444.777-35" "11144477735").
  - vm_compute. reflexivity.
  - vm_compute. reflexivity.
  - vm_compute. reflexivity.
Defined.

(** X27 at the digit 1. *)
Lemma equal_digits_rejected_witness :
  CustomerCPF.isValid (CustomerCPF.repeated "1" 11) = false.
Proof.
  apply (equal_digits_rejected "1"%char). reflexivity.
Defined.

(** X28 at a CPF of the test suite. *)
Lemma toMasked_roundtrip_witness :
  CustomerCPF.create (CustomerCPF.toMasked "11144477735") = Retry.Return "11144477735".
Proof.
  apply (toMasked_roundtrip "111 444 777 35" "11144477735").
  vm_compute. reflexivity.
Defined.

(* ===================================================================== *)
(** * The maintenance script and the log sanitizer                        *)
(* ===================================================================== *)

Section ScriptFacts.
Import Retry Types Table UpdateAllEvents.
Variable trackCorreios : string -> Outcome Correios.CorreiosResponse.
Variable now : string.

Local Abbreviation one := (processOne trackCorreios now).

Lemma updates_app (a b : list ScriptEvent) : updates (a ++ b) = updates a ++ updates b.
Proof. apply List.filter_app. Qed.

Lemma processOne_summary (st : ScriptState) (tracking : Job.TrackingEntity) :
  successCount (one st tracking) + errorCount (one st tracking)
    = successCount st + errorCount st + 1 /\
  successCount (one st tracking) - updatedCount (one st tracking)
    = successCount st - updatedCount st /\
  Z.of_nat (List.length (updates (trace (one st tracking)))) - successCount (one st tracking)
    = Z.of_nat (List.length (updates (trace st))) - successCount st /\
  sameRows (store st) (store (one st tracking)).
Proof.
  unfold processOne, Job.updateStatus.
  destruct (trackCorreios (Job.trackingCode tracking)) as [data|e]; simpl.
  - destruct (store st !! Job.trackingCode tracking) as [row|] eqn:Hrow; simpl.
    + rewrite updates_app, List.length_app. simpl.
      repeat split; try lia. apply sameRows_update, Hrow.
    + repeat split; try lia. apply sameRows_refl.
  - repeat split; try lia. apply sameRows_refl.
Qed.

(** X29. The script writes whatever the lookup returns, without comparing:
    a record found in the table whose lookup returns is rewritten with the
    result (also with that of a failed lookup) and the script waits 500 ms;
    a rejected lookup or an unknown code is counted as an error.  Over a
    run, successes and updates are the same number, they are the writes
    made, successes and errors add up to the records, and no row is created
    or deleted nor a customer column changed. *)
Theorem updateAllEvents_summary (allTrackings : list Job.TrackingEntity)
    (db : gmap string Job.TrackingEntity) :
  (forall st tracking row data,
     store st !! Job.trackingCode tracking = Some row ->
     trackCorreios (Job.trackingCode tracking) = Return data ->
     store (one st tracking)
       = <[Job.trackingCode tracking :=
             Job.updatedRow now row (Correios.status data) (Correios.events data)
               (Correios.dtPrevista data)]> (store st) /\
     trace (one st tracking)
       = trace st ++ [Updated (Job.trackingCode tracking) (Correios.status data)
                        (Correios.events data) (Correios.dtPrevista data);
                      Waited 500]) /\
  (forall st tracking,
     (exists e, trackCorreios (Job.trackingCode tracking) = Throw e) \/
     store st !! Job.trackingCode tracking = None ->
     one st tracking
     = {| store := store st; successCount := successCount st;
          errorCount := errorCount st + 1; updatedCount := updatedCount st;
          trace := trace st |}) /\
  let st := updateAllEvents trackCorreios now allTrackings db in
  successCount st = updatedCount st /\
  successCount st = Z.of_nat (List.length (updates (trace st))) /\
  successCount st + errorCount st = Z.of_nat (List.length allTrackings) /\
  0 <= errorCount st /\
  sameRows db (store st).
Proof.
  split; [|split].
  - intros st tracking row data Hrow Hlook. unfold processOne, Job.updateStatus.
    rewrite Hlook, Hrow. simpl. split; reflexivity.
  - intros st tracking [[e He] | Hnone]; unfold processOne, Job.updateStatus.
    + rewrite He. reflexivity.
    + rewrite Hnone. destruct (trackCorreios _); reflexivity.
  - cbv zeta. unfold updateAllEvents.
    assert (Hgen : forall st,
      let st' := List.fold_left one allTrackings st in
      successCount st' + errorCount st'
        = successCount st + errorCount st + Z.of_nat (List.length allTrackings) /\
      successCount st' - updatedCount st' = successCount st - updatedCount st /\
      Z.of_nat (List.length (updates (trace st'))) - successCount st'
        = Z.of_nat (List.length (updates (trace st))) - successCount st /\
      successCount st <= successCount st' /\
      errorCount st <= errorCount st' /\
      sameRows (store st) (store st')).
    { induction allTrackings as [|t ts IH]; intros st; cbv zeta.
      - simpl. repeat split; try lia. apply sameRows_refl.
      - simpl List.fold_left. specialize (IH (one st t)). cbv zeta in IH.
        destruct IH as (I1 & I2 & I3 & I4 & I5 & I6).
        destruct (processOne_summary st t) as (S1 & S2 & S3 & S4).
        assert (S5 : successCount st <= successCount (one st t) /\
                     errorCount st <= errorCount (one st t)).
        { unfold processOne.
          destruct (trackCorreios _); [destruct (Job.updateStatus _ _ _ _ _ _) as [[?|?] ?]|];
            simpl; lia. }
        rewrite length_cons, Nat2Z.inj_succ.
        repeat split; try lia. eapply sameRows_trans; eassumption. }
    specialize (Hgen {| store := db; successCount := 0; errorCount := 0;
                        updatedCount := 0; trace := [] |}).
    cbv zeta in Hgen. simpl in Hgen. destruct Hgen as (G1 & G2 & G3 & G4 & G5 & G6).
    repeat split; try lia. exact G6.
Qed.

End ScriptFacts.

Section LoggerFacts.
Import Logger.
Variable toLowerCase : string -> string.

Local Abbreviation sanitize := (sanitizeContext toLowerCase).

(** X30. [sanitizeContext] is shallow and idempotent: the result has the
    keys of the context; an entry under a sensitive key holds "[REDACTED]";
    every other entry is kept as it is, whatever it holds (an object with
    sensitive keys inside is not looked into); sanitizing again changes
    nothing; and no context gives no context. *)
Theorem sanitizeContext_shallow (ctx : gmap string JsValue) :
  exists out,
    sanitize (Some ctx) = Some out /\
    dom out = dom ctx /\
    (forall key v, ctx !! key = Some v ->
       out !! key = Some (if isSensitive toLowerCase key then JsString "[REDACTED]" else v)) /\
    sanitize (Some out) = Some out /\
    sanitize None = None.
Proof.
  eexists. split; [reflexivity|].
  assert (Hlook : forall key,
            map_imap (fun key v => Some (if isSensitive toLowerCase key
                                         then JsString "[REDACTED]" else v)) ctx !! key
            = (fun v => if isSensitive toLowerCase key then JsString "[REDACTED]" else v)
                <$> ctx !! key).
  { intros key. rewrite map_lookup_imap. destruct (ctx !! key); reflexivity. }
  split; [|split; [|split]].
  - apply set_eq. intros key. rewrite !elem_of_dom, Hlook.
    destruct (ctx !! key); simpl; split; intros [x Hx]; eauto; discriminate.
  - intros key v Hv. rewrite Hlook, Hv. reflexivity.
  - simpl. f_equal. apply map_eq. intros key.
    rewrite map_lookup_imap, Hlook. destruct (ctx !! key); simpl; [|reflexivity].
    destruct (isSensitive toLowerCase key); reflexivity.
  - reflexivity.
Qed.

End LoggerFacts.

(* ===================================================================== *)
(** * A changed status that is never written                              *)
(* ===================================================================== *)

(** C7 fails at a record whose status changed while its one stored event
    carries a date that denotes no instant and the carrier reports one
    event too: the lookup returns a result with another status, the
    comparison of the events throws before the test for changes, and the
    pass writes nothing; it counts the record as a success and as an error,
    and the row keeps its old status and events. *)
Theorem changed_status_not_persisted :
  exists data,
    MoreExamples.deliveryLookup (Job.trackingCode MoreExamples.misdatedRecord)
    = Retry.Return data /\
    Correios.status data = Types.statusText Types.SAIU_PARA_ENTREGA /\
    Correios.status data <> Job.currentStatus MoreExamples.misdatedRecord /\
    List.length (Correios.events data)
    = List.length (Job.events MoreExamples.misdatedRecord) /\
    Job.store MoreExamples.misdatedPass !! Examples.exampleCode
    = Some MoreExamples.misdatedRecord /\
    Job.writes (Job.trace MoreExamples.misdatedPass) = [] /\
    Job.notifications (Job.trace MoreExamples.misdatedPass) = [] /\
    Job.successCount MoreExamples.misdatedPass = 1 /\
    Job.errorCount MoreExamples.misdatedPass = 1 /\
    Job.updatedCount MoreExamples.misdatedPass = 0.
Proof.
  eexists. split; [vm_compute; reflexivity|].
  split; [reflexivity|]. split; [vm_compute; discriminate|].
  split; [reflexivity|].
  repeat split; vm_compute; reflexivity.
Qed.
